(** * fastmigrate_multi: the multi-tenant migration runner

  A shallow embedding of [fastmigrate_multi.py]: the migration file
  parser ([MigrationFile]), the tracking table, and the runner
  ([MigrationRunner]) that applies and rolls back migrations on the
  host database and on every tenant database.

  Conventions of the embedding.
  - A Python [str] is a [string]; a character is a code point below 256.
  - Versions, step counts and durations are Python [int]s: [Z].
  - A database is the history of migration bodies executed on it
    together with its [_migration_versions] table, which only the
    runner writes.
  - Every call on a psycopg2 connection but [close] may raise; which
    calls do is decided by an oracle of the environment, so that a
    statement about all environments covers every pattern of driver
    errors. A migration body is sent as the file has it: the
    environment also decides which bodies end their transaction. *)

From Stdlib Require Import ZArith String Ascii Sorted.
From stdpp Require Import base option list strings gmap.

Local Open Scope string_scope.
Local Open Scope list_scope.

(** ** Text: the [str] methods the runner uses *)

Module Text.

Definition LF : ascii := "010"%char.

Definition code (c : ascii) : N := N_of_ascii c.

Definition between (lo hi : N) (c : ascii) : bool :=
  ((lo <=? code c) && (code c <=? hi))%N.

(** [str.isspace], which is also the class [\s] of a [str] pattern:
    TAB..CR, FS..US, space, NEL and NBSP. *)
Definition is_space (c : ascii) : bool :=
  between 9 13 c || between 28 32 c || between 133 133 c || between 160 160 c.

(** The class [\d]: below 256 the only decimal digits are [0]..[9]. *)
Definition is_digit (c : ascii) : bool := between 48 57 c.

(** [str.lower] on one character: A..Z and the Latin-1 capitals. *)
Definition lower (c : ascii) : ascii :=
  if between 65 90 c || between 192 214 c || between 216 222 c
  then ascii_of_N (code c + 32) else c.

Fixpoint lower_str (s : string) : string :=
  match s with
  | EmptyString => EmptyString
  | String c s' => String (lower c) (lower_str s')
  end.

Fixpoint lstrip (s : string) : string :=
  match s with
  | EmptyString => EmptyString
  | String c s' => if is_space c then lstrip s' else s
  end.

Fixpoint rstrip (s : string) : string :=
  match s with
  | EmptyString => EmptyString
  | String c s' =>
      match rstrip s' with
      | EmptyString => if is_space c then EmptyString else String c EmptyString
      | t => String c t
      end
  end.

(** [s.strip()] *)
Definition strip (s : string) : string := rstrip (lstrip s).

(** [needle in s] *)
Fixpoint contains (needle s : string) : bool :=
  String.prefix needle s ||
  match s with
  | EmptyString => false
  | String _ s' => contains needle s'
  end.

(** [s.split('/')[-1]]: what follows the last [sep]. *)
Fixpoint last_segment (sep : ascii) (s : string) : string :=
  match s with
  | EmptyString => EmptyString
  | String c s' =>
      if contains (String sep EmptyString) s' then last_segment sep s'
      else if Ascii.eqb c sep then s' else s
  end.

(** [int(s)] for a run of digits. *)
Definition digit_value (c : ascii) : Z := Z.of_N (code c) - 48.

Fixpoint int_acc (acc : Z) (s : string) : Z :=
  match s with
  | EmptyString => acc
  | String c s' => int_acc (10 * acc + digit_value c) s'
  end.

Definition int (s : string) : Z := int_acc 0 s.

(** [name.rfind('.')], counted from the left; [None] when absent. *)
Fixpoint rfind_dot (s : string) : option nat :=
  match s with
  | EmptyString => None
  | String c s' =>
      match rfind_dot s' with
      | Some i => Some (S i)
      | None => if Ascii.eqb c "."%char then Some O else None
      end
  end.

(** [PurePath.stem]: the name without its last suffix; a leading or a
    trailing dot starts no suffix. *)
Definition stem (name : string) : string :=
  match rfind_dot name with
  | Some i =>
      if (0 <? i)%nat && (i <? String.length name - 1)%nat
      then substring 0 i name else name
  | None => name
  end.

End Text.

(** ** Re: the fragment of Python's [re] the parser needs

  A backtracking matcher with Python's priorities: alternatives left
  to right, greedy repetition longest first, lazy repetition shortest
  first, a lookahead that is not re-entered. Repetition is over a
  character class, which is all the patterns of this program use. *)

Module Re.

Inductive re : Type :=
| Eps
| Chr (p : ascii -> bool)
| Cat (a b : re)
| Alt (a b : re)
| Star (p : ascii -> bool)
| Lazy (p : ascii -> bool)
| Group (a : re)
| Ahead (a : re)
| Bol
| Eol.

Section Run.
Variable whole : string.

(** The text between two positions, each given by what is left. *)
Definition cap (s s' : string) : string :=
  substring (String.length whole - String.length s)
            (String.length s - String.length s') whole.

Fixpoint greedy_star {R : Type} (p : ascii -> bool) (k : string -> option R)
    (s : string) : option R :=
  match s with
  | String c s' =>
      if p c then
        match greedy_star p k s' with
        | Some r => Some r
        | None => k s
        end
      else k s
  | EmptyString => k s
  end.

Fixpoint lazy_star {R : Type} (p : ascii -> bool) (k : string -> option R)
    (s : string) : option R :=
  match k s with
  | Some r => Some r
  | None =>
      match s with
      | String c s' => if p c then lazy_star p k s' else None
      | EmptyString => None
      end
  end.

(** [$] without MULTILINE: the end, or just before a final newline. *)
Definition at_end (s : string) : bool :=
  match s with
  | EmptyString => true
  | String c EmptyString => Ascii.eqb c Text.LF
  | _ => false
  end.

Fixpoint run {R : Type} (r : re)
    (k : string -> option string -> option R)
    (s : string) (g : option string) : option R :=
  match r with
  | Eps => k s g
  | Chr p =>
      match s with
      | String c s' => if p c then k s' g else None
      | EmptyString => None
      end
  | Cat a b => run a (run b k) s g
  | Alt a b =>
      match run a k s g with
      | Some x => Some x
      | None => run b k s g
      end
  | Star p => greedy_star p (fun s' => k s' g) s
  | Lazy p => lazy_star p (fun s' => k s' g) s
  | Group a => run a (fun s' _ => k s' (Some (cap s s'))) s g
  | Ahead a =>
      match run a (fun _ g' => Some g') s g with
      | Some g' => k s g'
      | None => None
      end
  | Bol => if (String.length s =? String.length whole)%nat then k s g else None
  | Eol => if at_end s then k s g else None
  end.

(** One attempt at a position; the result is group 1. *)
Definition attempt (r : re) (s : string) : option (option string) :=
  run r (fun _ g => Some g) s None.

Fixpoint search_from (r : re) (s : string) : option (option string) :=
  match attempt r s with
  | Some g => Some g
  | None =>
      match s with
      | String _ s' => search_from r s'
      | EmptyString => None
      end
  end.
End Run.

(** The language of a pattern, as a relation between positions:
    [spans whole r s s'] when [r] can match the text of [whole] from the
    position where [s] is left to the position where [s'] is left. *)
Inductive spans (whole : string) : re -> string -> string -> Prop :=
| spans_eps s : spans whole Eps s s
| spans_chr p c s : p c = true -> spans whole (Chr p) (String c s) s
| spans_cat a b s1 s2 s3 :
    spans whole a s1 s2 -> spans whole b s2 s3 -> spans whole (Cat a b) s1 s3
| spans_alt_l a b s s' : spans whole a s s' -> spans whole (Alt a b) s s'
| spans_alt_r a b s s' : spans whole b s s' -> spans whole (Alt a b) s s'
| spans_star_stop p s : spans whole (Star p) s s
| spans_star_more p c s s' :
    p c = true -> spans whole (Star p) s s' -> spans whole (Star p) (String c s) s'
| spans_lazy_stop p s : spans whole (Lazy p) s s
| spans_lazy_more p c s s' :
    p c = true -> spans whole (Lazy p) s s' -> spans whole (Lazy p) (String c s) s'
| spans_group a s s' : spans whole a s s' -> spans whole (Group a) s s'
| spans_ahead a s s' : spans whole a s s' -> spans whole (Ahead a) s s
| spans_bol s : String.length s = String.length whole -> spans whole Bol s s
| spans_eol s : at_end s = true -> spans whole Eol s s.

(** [re.search(r, s)] and [re.match(r, s)]; [Some g] is a match object
    whose [group(1)] is [g]. *)
Definition search (r : re) (s : string) : option (option string) :=
  search_from s r s.

Definition match_ (r : re) (s : string) : option (option string) :=
  attempt s r s.

(** [m.group(1)]; every pattern below sets group 1 when it matches. *)
Definition group1 (m : option string) : string := default "" m.

Definition seq (l : list re) : re := foldr Cat Eps l.
Definition plus (p : ascii -> bool) : re := Cat (Chr p) (Star p).

(** The class of one literal character, and the same under IGNORECASE. *)
Definition exactly (c : ascii) : ascii -> bool := Ascii.eqb c.
Definition exactly_i (c : ascii) : ascii -> bool :=
  fun x => Ascii.eqb (Text.lower x) (Text.lower c).

Definition lit (c : ascii) : re := Chr (exactly c).
Definition lit_i (c : ascii) : re := Chr (exactly_i c).

Fixpoint word_i (w : string) : re :=
  match w with
  | EmptyString => Eps
  | String c w' => Cat (lit_i c) (word_i w')
  end.

Fixpoint word (w : string) : re :=
  match w with
  | EmptyString => Eps
  | String c w' => Cat (lit c) (word w')
  end.

(** [.] with DOTALL, and without. *)
Definition any (c : ascii) : bool := true.
Definition dot (c : ascii) : bool := negb (Ascii.eqb c Text.LF).

End Re.

(** ** The data model *)

(** One row of [_migration_versions]; [applied_at] is filled in by the
    server and never read by the runner. The primary key is
    [(version, direction)]. *)
Record Row : Type := {
  row_version : Z;
  row_name : string;
  row_scope : string;
  row_direction : string;
  row_applied_by : string;
  row_execution_time_ms : Z;
  row_checksum : string
}.

(** The four statements the runner sends through [cursor.execute], and
    the calls it makes on a connection. *)
Inductive Stmt : Type :=
| CreateTable
| SelectMax
| Body (sql : string)
| Insert (r : Row).

Inductive Op : Type :=
| Execute (q : Stmt)
| Commit
| Rollback
| Close.

Inductive Exn : Type :=
| InvalidFilename (file : string)
| NoSection (direction : string) (v : Z)
| DriverError (op : Op)
| ConnectError (database : string)
| MigrationFailed (cause : Exn).

Inductive result (A : Type) : Type :=
| Ok (a : A)
| Raise (e : Exn).

Arguments Ok {A} a.
Arguments Raise {A} e.

(** ** MigrationFile *)

Record Path : Type := { parent_name : string; file_name : string }.

Record MigrationFile : Type := {
  filepath : Path;
  version : Z;
  name : string;
  scope : string;
  up_sql : string;
  down_sql : string
}.

(** [^(\d+)_] *)
Definition version_pattern : Re.re :=
  Re.seq [Re.Bol; Re.Group (Re.plus Text.is_digit); Re.lit "_"].

(** [^\d+_(.+)\.sql$] *)
Definition name_pattern : Re.re :=
  Re.seq [Re.Bol; Re.plus Text.is_digit; Re.lit "_"; Re.Group (Re.plus Re.dot);
          Re.lit "."; Re.word "sql"; Re.Eol].

(** [--\s*=+\s*W\s*=+], under IGNORECASE *)
Definition marker (w : string) : Re.re :=
  Re.seq [Re.lit_i "-"; Re.lit_i "-"; Re.Star Text.is_space; Re.plus (Re.exactly_i "=");
          Re.Star Text.is_space; Re.word_i w; Re.Star Text.is_space;
          Re.plus (Re.exactly_i "=")].

(** [--\s*=+\s*UP\s*=+\s*\n(.*?)(?=--\s*=+\s*DOWN\s*=+|$)], DOTALL *)
Definition up_pattern : Re.re :=
  Re.seq [marker "UP"; Re.Star Text.is_space; Re.lit_i Text.LF;
          Re.Group (Re.Lazy Re.any); Re.Ahead (Re.Alt (marker "DOWN") Re.Eol)].

(** [--\s*=+\s*DOWN\s*=+\s*\n(.*?)$], DOTALL *)
Definition down_pattern : Re.re :=
  Re.seq [marker "DOWN"; Re.Star Text.is_space; Re.lit_i Text.LF;
          Re.Group (Re.Lazy Re.any); Re.Eol].

(** A marker comment with its line end, [--\s*=+\s*W\s*=+\s*\n], and
    what it is for a text to contain one. *)
Definition marker_line (w : string) : Re.re :=
  Re.seq [marker w; Re.Star Text.is_space; Re.lit_i Text.LF].

Definition has_marker (w content : string) : Prop :=
  exists before rest rest',
    content = before +:+ rest /\ Re.spans content (marker_line w) rest rest'.

Definition _extract_version (filepath : Path) : result Z :=
  match Re.match_ version_pattern (file_name filepath) with
  | None => Raise (InvalidFilename (file_name filepath))
  | Some g => Ok (Text.int (Re.group1 g))
  end.

Definition _extract_name (filepath : Path) : string :=
  match Re.match_ name_pattern (file_name filepath) with
  | None => Text.stem (file_name filepath)
  | Some g => Re.group1 g
  end.

Definition _extract_scope (filepath : Path) : string :=
  let parent_dir := parent_name filepath in
  if bool_decide (parent_dir ∈ ["host"; "tenant"; "both"]) then parent_dir
  else "unknown".

(** [content] is [self.filepath.read_text(encoding='utf-8')]. *)
Definition _parse_sql (content : string) : string * string :=
  let up_match := Re.search up_pattern content in
  let down_match := Re.search down_pattern content in
  let up_sql :=
    match up_match with
    | Some g => Text.strip (Re.group1 g)
    | None => Text.strip content
    end in
  let down_sql :=
    match down_match with
    | Some g => Text.strip (Re.group1 g)
    | None => ""
    end in
  (up_sql, down_sql).

(** [MigrationFile(filepath)], for a file whose text is [content]. *)
Definition new_MigrationFile (filepath : Path) (content : string)
    : result MigrationFile :=
  match _extract_version filepath with
  | Raise e => Raise e
  | Ok v =>
      Ok {| filepath := filepath; version := v;
            name := _extract_name filepath;
            scope := _extract_scope filepath;
            up_sql := fst (_parse_sql content);
            down_sql := snd (_parse_sql content) |}
  end.

(** [self.up_sql if direction == 'up' else self.down_sql] *)
Definition sql_of (migration : MigrationFile) (direction : string) : string :=
  if String.eqb direction "up" then up_sql migration else down_sql migration.

(** ** Databases, connections and the environment *)

(** A database: the migration bodies executed on it, oldest first, and
    its tracking table ([None] until the table is created). *)
Record Store : Type := {
  executed : list string;
  table : option (list Row)
}.

(** A psycopg2 connection (autocommit off): the committed state of its
    database, the state its open transaction sees, and the calls made
    on it so far, oldest first. *)
Record Conn : Type := {
  database : string;
  committed : Store;
  working : Store;
  calls : list Op
}.

(** A row of the host database's [tenants] table. *)
Record Tenant : Type := {
  tenant_id : string;
  is_active : bool;
  tenant_type : string;
  dbconnection : string
}.

(** What the runner reads from outside: the process environment, the
    clock, [hashlib], the migrations directory, the tenant service, the
    oracle [fails] that says which calls on a connection raise, and
    [ends_transaction], which says of the text of a migration body
    whether it ends the transaction it runs in (a body is sent to the
    server as the file has it, and may hold a COMMIT). *)
Record Env : Type := {
  fails : Op -> Conn -> bool;
  refuses : string -> bool;
  POSTGRES_DATABASE : string;
  USER : option string;
  elapsed_ms : Conn -> Z;
  sha256_hexdigest : string -> string;
  tenants_table : result (list Tenant);
  listing : string -> option (list (string * string));
  ends_transaction : string -> bool
}.

(** [self]: the runner's own fields. *)
Record MigrationRunner : Type := { dry_run : bool }.

(** What the runner prints, one constructor per [print] of the source. *)
Inductive Out : Type :=
| Say (text : string)
| MigratingTenants (n : nat)
| RollingBackTenants (n : nat)
| SkippingInvalid (file : Path) (e : Exn)
| ErrorGettingVersion (e : Exn)
| ErrorGettingTenants (e : Exn)
| UpToDate (label : string) (current : Z)
| MigrateHeader (label : string) (current last : Z)
| WouldApply (v : Z) (name : string)
| Applied (v : Z) (name : string) (ms : Z)
| Failed (v : Z) (name : string) (e : Exn)
| DatabaseError (label : string) (e : Exn)
| NothingToRollback (label : string)
| AtOrBelowTarget (label : string)
| RollbackHeader (label : string) (current target : Z)
| WouldRollback (v : Z) (name : string)
| RolledBack (v : Z) (name : string) (ms : Z).

(** *** The server's side of a statement *)

Definition same_key (r r' : Row) : bool :=
  (row_version r =? row_version r')%Z && String.eqb (row_direction r) (row_direction r').

Definition key_taken (r : Row) (t : list Row) : bool := existsb (same_key r) t.

(** The effect of a statement on the state of the transaction; [None]
    when the server rejects it (no table, or a duplicate key). A
    migration body works on the tables of the application: it is
    entered in [executed]. The tracking table is the runner's own, and
    a body is taken to leave it alone; whether a body ends the
    transaction is the environment's to say, see [effect]. *)
Definition exec_stmt (q : Stmt) (s : Store) : option Store :=
  match q with
  | CreateTable =>
      Some {| executed := executed s; table := Some (default [] (table s)) |}
  | SelectMax =>
      match table s with
      | Some _ => Some s
      | None => None
      end
  | Body sql =>
      Some {| executed := executed s ++ [sql]; table := table s |}
  | Insert r =>
      match table s with
      | Some t =>
          if key_taken r t then None
          else Some {| executed := executed s; table := Some (t ++ [r]) |}
      | None => None
      end
  end.

(** [SELECT MAX(version) ... WHERE direction = 'up'] *)
Definition up_versions (t : list Row) : list Z :=
  map row_version (filter (fun r => row_direction r = "up") t).

Definition max_list (l : list Z) : option Z :=
  match l with
  | [] => None
  | v :: vs => Some (foldl Z.max v vs)
  end.

Definition max_up_version (s : Store) : option Z :=
  max_list (up_versions (default [] (table s))).

(** ** The monad of the runner

    A computation works on the open connection; it returns a value or
    raises, leaves the connection in a new state, and prints. *)

Record Run (A : Type) : Type := {
  returned : result A;
  after : Conn;
  printed : list Out
}.

Arguments returned {A} r.
Arguments after {A} r.
Arguments printed {A} r.

Definition M (A : Type) : Type := Conn -> Run A.

Definition ret {A : Type} (a : A) : M A :=
  fun c => {| returned := Ok a; after := c; printed := [] |}.

Definition raise {A : Type} (e : Exn) : M A :=
  fun c => {| returned := Raise e; after := c; printed := [] |}.

Definition and_then {A B : Type} (r : Run A) (k : M B) : Run B :=
  let r' := k (after r) in
  {| returned := returned r'; after := after r';
     printed := printed r ++ printed r' |}.

Definition bind {A B : Type} (m : M A) (k : A -> M B) : M B :=
  fun c =>
    let r := m c in
    match returned r with
    | Ok a => and_then r (k a)
    | Raise e => {| returned := Raise e; after := after r; printed := printed r |}
    end.

(** [try: m  except Exception as e: h e] *)
Definition try_except {A : Type} (m : M A) (h : Exn -> M A) : M A :=
  fun c =>
    let r := m c in
    match returned r with
    | Ok a => r
    | Raise e => and_then r (h e)
    end.

Definition print (o : Out) : M unit :=
  fun c => {| returned := Ok tt; after := c; printed := [o] |}.

(** A call of a function that uses no connection and prints. *)
Definition printing {A : Type} (x : A * list Out) : M A :=
  fun c => {| returned := Ok (fst x); after := c; printed := snd x |}.

Declare Scope run_scope.
Delimit Scope run_scope with run.
Notation "x <- m ;; k" := (bind m (fun x => k))
  (at level 20, m at level 99, k at level 200, only parsing) : run_scope.
Notation "m ;; k" := (bind m (fun _ => k))
  (at level 100, k at level 200, right associativity, only parsing) : run_scope.
Local Open Scope run_scope.

(** *** Calls on the connection *)

Definition logged (op : Op) (c : Conn) : Conn :=
  {| database := database c; committed := committed c;
     working := working c; calls := calls c ++ [op] |}.

(** Whether a statement ends the transaction it runs in. *)
Definition ends (env : Env) (q : Stmt) : bool :=
  match q with
  | Body sql => ends_transaction env sql
  | _ => false
  end.

(** What a call does when it does not raise. A statement that ends the
    transaction leaves its work committed; [commit] makes the
    transaction's state the database's; [rollback] and [close] drop
    it. *)
Definition effect (env : Env) (op : Op) (c : Conn) : option Conn :=
  match op with
  | Execute q =>
      match exec_stmt q (working c) with
      | Some w =>
          Some {| database := database c;
                  committed := if ends env q then w else committed c;
                  working := w; calls := calls c |}
      | None => None
      end
  | Commit =>
      Some {| database := database c; committed := working c;
              working := working c; calls := calls c |}
  | Rollback | Close =>
      Some {| database := database c; committed := committed c;
              working := committed c; calls := calls c |}
  end.

(** Whether the driver raises on its own account; [close] is taken not
    to. *)
Definition driver_raises (env : Env) (op : Op) (c : Conn) : bool :=
  match op with
  | Execute _ | Commit | Rollback => fails env op c
  | Close => false
  end.

Definition call (env : Env) (op : Op) : M unit :=
  fun c =>
    match (if driver_raises env op c then None else effect env op c) with
    | Some c' => {| returned := Ok tt; after := logged op c'; printed := [] |}
    | None => {| returned := Raise (DriverError op); after := logged op c; printed := [] |}
    end.

(** [cursor.fetchone()[0]] after the version query. *)
Definition fetch_max : M (option Z) :=
  fun c => ret (max_up_version (working c)) c.

(** The whole system: every database by name, and the console. *)
Record World : Type := { databases : gmap string Store; console : list Out }.

Definition tell (o : list Out) (w : World) : World :=
  {| databases := databases w; console := console w ++ o |}.

Definition say (o : Out) (w : World) : World := tell [o] w.

(** Stable sort by a key, as [list.sort(key=...)] and [sorted]. *)
Fixpoint insert_by {A : Type} (le : A -> A -> bool) (x : A) (l : list A) : list A :=
  match l with
  | [] => [x]
  | y :: l' => if le x y then x :: l else y :: insert_by le x l'
  end.

Definition sort_by {A : Type} (le : A -> A -> bool) (l : list A) : list A :=
  foldr (insert_by le) [] l.

(** The order of an integer key. *)
Definition by_key {A : Type} (key : A -> Z) (a b : A) : bool := (key a <=? key b)%Z.

(** [bool(target_version)] for an [Optional[int]]. *)
Definition truthy (o : option Z) : bool :=
  match o with
  | Some v => negb (v =? 0)%Z
  | None => false
  end.

Definition ends_with (suffix s : string) : bool :=
  String.prefix (String.rev suffix) (String.rev s).

(** ** MigrationRunner *)

Section Runner.
Context (env : Env) (self : MigrationRunner).

Definition execute (q : Stmt) : M unit := call env (Execute q).
Definition commit : M unit := call env Commit.
Definition rollback : M unit := call env Rollback.
Definition close : M unit := call env Close.

(** [int((datetime.now() - start_time).total_seconds() * 1000)] *)
Definition execution_time_since_start : M Z :=
  fun c => ret (elapsed_ms env c) c.

(** [MigrationFile.get_checksum] *)
Definition get_checksum (migration : MigrationFile) (direction : string) : string :=
  substring 0 16 (sha256_hexdigest env (sql_of migration direction)).

(** [psycopg2.connect(... database=database_name or POSTGRES_DATABASE)] *)
(** [database_name or os.getenv("POSTGRES_DATABASE")] *)
Definition resolved (database_name : string) : string :=
  if String.eqb database_name "" then POSTGRES_DATABASE env else database_name.

Definition _get_db_connection (database_name : string) (w : World) : result Conn :=
  let target := resolved database_name in
  if refuses env target then Raise (ConnectError target)
  else
    match databases w !! target with
    | Some s => Ok {| database := target; committed := s; working := s; calls := [] |}
    | None => Raise (ConnectError target)
    end.

Definition _ensure_migration_table : M unit :=
  execute CreateTable ;;
  commit.

(** The part of [get_current_version] that can raise. *)
Definition version_query : M unit :=
  _ensure_migration_table ;;
  execute SelectMax.

Definition get_current_version : M Z :=
  try_except
    (_ensure_migration_table ;;
     execute SelectMax ;;
     result <- fetch_max ;;
     ret (match result with
          | Some v => v
          | None => 0%Z
          end))
    (fun e =>
       print (ErrorGettingVersion e) ;;
       ret 0%Z).

(** One scope directory: [sorted(scope_path.glob('*.sql'))], each file
    parsed, the invalid ones reported and left out. [discover_migrations]
    and its loops use no connection: they return the migrations and what
    they print. *)
Fixpoint load_files (scope_dir : string) (files : list (string * string))
    : list MigrationFile * list Out :=
  match files with
  | [] => ([], [])
  | (file, content) :: rest =>
      let sql_file := {| parent_name := scope_dir; file_name := file |} in
      match new_MigrationFile sql_file content with
      | Ok migration =>
          (migration :: fst (load_files scope_dir rest), snd (load_files scope_dir rest))
      | Raise e =>
          (fst (load_files scope_dir rest),
           SkippingInvalid sql_file e :: snd (load_files scope_dir rest))
      end
  end.

Fixpoint load_scopes (scopes : list string) : list MigrationFile * list Out :=
  match scopes with
  | [] => ([], [])
  | scope_dir :: rest =>
      match listing env scope_dir with
      | None => load_scopes rest
      | Some files =>
          let sql_files :=
            sort_by (fun a b => String.leb (fst a) (fst b))
                    (filter (fun f => ends_with ".sql" (fst f) = true) files) in
          let here := load_files scope_dir sql_files in
          let there := load_scopes rest in
          (fst here ++ fst there, snd here ++ snd there)
      end
  end.

Definition discover_migrations (scope : option string) : list MigrationFile * list Out :=
  let scopes :=
    match scope with
    | Some s => if String.eqb s "" then ["host"; "tenant"; "both"] else [s]
    | None => ["host"; "tenant"; "both"]
    end in
  let found := load_scopes scopes in
  (sort_by (by_key version) (fst found), snd found).

(** It uses no connection of the runner's either: the tenant service
    reads the table. *)
Definition get_all_tenant_databases : list (string * string) * list Out :=
  match tenants_table env with
  | Ok tenants =>
      (map (fun t => (tenant_id t, Text.last_segment "/" (dbconnection t)))
           (filter (fun t => is_active t && String.eqb (tenant_type t) "tenant" = true)
                   tenants),
       [])
  | Raise e => ([], [ErrorGettingTenants e])
  end.

(** The values of the [INSERT INTO _migration_versions] statement. *)
Definition tracking_row (migration : MigrationFile) (direction : string)
    (execution_time : Z) : Row :=
  {| row_version := version migration;
     row_name := name migration;
     row_scope := scope migration;
     row_direction := direction;
     row_applied_by := default "system" (USER env);
     row_execution_time_ms := execution_time;
     row_checksum := get_checksum migration direction |}.

Definition apply_migration (migration : MigrationFile) (direction : string)
    : M (bool * Z) :=
  let sql := sql_of migration direction in
  if String.eqb sql "" then raise (NoSection direction (version migration))
  else
    try_except
      (execute (Body sql) ;;
       execution_time <- execution_time_since_start ;;
       execute (Insert (tracking_row migration direction execution_time)) ;;
       commit ;;
       ret (true, execution_time))
      (fun e =>
         rollback ;;
         raise (MigrationFailed e)).

(** The two scope checks of the forward loop. *)
Definition names_tenant (db_name : string) : bool :=
  Text.contains "tenant" (Text.lower_str db_name).

Definition is_host (db_name : string) : bool :=
  String.eqb db_name (POSTGRES_DATABASE env).

(** Both checks together: the migration is passed over on this
    database. *)
Definition scope_skipped (db_name : string) (migration : MigrationFile) : bool :=
  String.eqb (scope migration) "host" && names_tenant db_name
  || String.eqb (scope migration) "tenant" && is_host db_name.

(** [for migration in pending: ...] followed by [conn.close(); return True] *)
Fixpoint migrate_loop (db_name : string) (pending : list MigrationFile) : M bool :=
  match pending with
  | [] =>
      close ;;
      ret true
  | migration :: rest =>
      if String.eqb (scope migration) "host" && names_tenant db_name
      then migrate_loop db_name rest
      else if String.eqb (scope migration) "tenant" && is_host db_name
      then migrate_loop db_name rest
      else if dry_run self then
        print (WouldApply (version migration) (name migration)) ;;
        migrate_loop db_name rest
      else
        outcome <-
          try_except
            (r <- apply_migration migration "up" ;;
             print (Applied (version migration) (name migration) (snd r)) ;;
             ret None)
            (fun e =>
               print (Failed (version migration) (name migration) e) ;;
               close ;;
               ret (Some false)) ;;
        match outcome with
        | Some returned => ret returned
        | None => migrate_loop db_name rest
        end
  end.

(** [try: conn = self._get_db_connection(db_name); body
     except Exception as e: print(...); return False],
    the frame shared by [migrate_database] and [rollback_database].
    Whatever the connection committed is in the database afterwards. *)
Definition in_connection (db_name db_label : string) (body : M bool) (w : World)
    : bool * World :=
  match _get_db_connection db_name w with
  | Raise e => (false, say (DatabaseError db_label e) w)
  | Ok c =>
      let r := body c in
      let w' := {| databases := <[database c := committed (after r)]> (databases w);
                   console := console w ++ printed r |} in
      match returned r with
      | Ok value => (value, w')
      | Raise e => (false, say (DatabaseError db_label e) w')
      end
  end.

(** The migrations [migrate_database] selects. *)
Definition pending_migrations (current_version : Z) (target_version : option Z)
    (migrations : list MigrationFile) : list MigrationFile :=
  let pending := filter (fun m => (version m > current_version)%Z) migrations in
  if truthy target_version
  then filter (fun m => (version m <= default 0%Z target_version)%Z) pending
  else pending.

Definition migrate_database_body (db_name db_label : string)
    (target_version : option Z) : M bool :=
  _ensure_migration_table ;;
  current_version <- get_current_version ;;
  migrations <- printing (discover_migrations None) ;;
  let pending := pending_migrations current_version target_version migrations in
  match last pending with
  | None =>
      print (UpToDate db_label current_version) ;;
      close ;;
      ret true
  | Some newest =>
      print (MigrateHeader db_label current_version (version newest)) ;;
      migrate_loop db_name pending
  end.

Definition migrate_database (db_name db_label : string) (target_version : option Z)
    (w : World) : bool * World :=
  in_connection db_name db_label
    (migrate_database_body db_name db_label target_version) w.

Definition migrate_all (target_version : option Z) (w : World) : World :=
  let w := say (Say "FASTMIGRATE MULTI-TENANT - FORWARD MIGRATION") w in
  let w := if dry_run self
           then say (Say "DRY RUN MODE - No changes will be made") w else w in
  let host_db_name := POSTGRES_DATABASE env in
  let w := say (Say "MIGRATING HOST DATABASE") w in
  let w := snd (migrate_database host_db_name "HOST" target_version w) in
  let tenant_dbs := fst get_all_tenant_databases in
  let w := tell (snd get_all_tenant_databases) w in
  let w :=
    match tenant_dbs with
    | [] => w
    | _ =>
        foldl (fun w t =>
                 snd (migrate_database (snd t) ("TENANT " +:+ fst t) target_version w))
              (say (MigratingTenants (length tenant_dbs)) w) tenant_dbs
    end in
  say (Say "MIGRATION COMPLETE") w.

(** [for migration in to_rollback: ...] followed by
    [conn.close(); return True] *)
Fixpoint rollback_loop (to_rollback : list MigrationFile) : M bool :=
  match to_rollback with
  | [] =>
      close ;;
      ret true
  | migration :: rest =>
      if dry_run self then
        print (WouldRollback (version migration) (name migration)) ;;
        rollback_loop rest
      else
        outcome <-
          try_except
            (r <- apply_migration migration "down" ;;
             print (RolledBack (version migration) (name migration) (snd r)) ;;
             ret None)
            (fun e =>
               print (Failed (version migration) (name migration) e) ;;
               close ;;
               ret (Some false)) ;;
        match outcome with
        | Some returned => ret returned
        | None => rollback_loop rest
        end
  end.

(** The migrations [rollback_database] selects, in the order it
    processes them. *)
Definition migrations_to_rollback (current_version target_version : Z)
    (migrations : list MigrationFile) : list MigrationFile :=
  rev (filter (fun m => (target_version < version m)%Z ∧ (version m <= current_version)%Z)
              migrations).

(** [rollback_database] from the point where the current version is
    known. *)
Definition rollback_from (db_label : string) (steps : Z) (target_version : option Z)
    (current_version : Z) : M bool :=
  if (current_version =? 0)%Z then
    print (NothingToRollback db_label) ;;
    close ;;
    ret true
  else
    let target_version :=
      match target_version with
      | None => Z.max 0 (current_version - steps)
      | Some v => v
      end in
    if (target_version >=? current_version)%Z then
      print (AtOrBelowTarget db_label) ;;
      close ;;
      ret true
    else
      migrations <- printing (discover_migrations None) ;;
      let to_rollback := migrations_to_rollback current_version target_version migrations in
      print (RollbackHeader db_label current_version target_version) ;;
      rollback_loop to_rollback.

Definition rollback_database_body (db_name db_label : string) (steps : Z)
    (target_version : option Z) : M bool :=
  _ensure_migration_table ;;
  current_version <- get_current_version ;;
  rollback_from db_label steps target_version current_version.

Definition rollback_database (db_name db_label : string) (steps : Z)
    (target_version : option Z) (w : World) : bool * World :=
  in_connection db_name db_label
    (rollback_database_body db_name db_label steps target_version) w.

Definition rollback_all (steps : Z) (target_version : option Z) (w : World) : World :=
  let w := say (Say "FASTMIGRATE MULTI-TENANT - ROLLBACK") w in
  let w := if dry_run self
           then say (Say "DRY RUN MODE - No changes will be made") w
           else say (Say "WARNING: Rolling back migrations may result in data loss!") w in
  let host_db_name := POSTGRES_DATABASE env in
  let w := say (Say "ROLLING BACK HOST DATABASE") w in
  let w := snd (rollback_database host_db_name "HOST" steps target_version w) in
  let tenant_dbs := fst get_all_tenant_databases in
  let w := tell (snd get_all_tenant_databases) w in
  let w :=
    match tenant_dbs with
    | [] => w
    | _ =>
        foldl (fun w t =>
                 snd (rollback_database (snd t) ("TENANT " +:+ fst t) steps target_version w))
              (say (RollingBackTenants (length tenant_dbs)) w) tenant_dbs
    end in
  say (Say "ROLLBACK COMPLETE") w.

(** The databases a run over all of them visits, in order, each with
    its label. *)
Definition all_databases : list (string * string) :=
  (POSTGRES_DATABASE env, "HOST")
  :: map (fun t => (snd t, "TENANT " +:+ fst t)) (fst get_all_tenant_databases).

End Runner.

(** ** Notions used in the statements *)

(** An environment in which no call on a connection raises of the
    driver's own accord. The server still rejects a duplicate key. *)
Definition quiet (env : Env) : Prop := forall op c, fails env op c = false.

(** The table has a row for this version and direction. *)
Definition records (rows : list Row) (v : Z) (direction : string) : Prop :=
  exists r, r ∈ rows /\ row_version r = v /\ row_direction r = direction.

(** The migrations of a list that the forward loop does not pass over. *)
Definition applicable (env : Env) (db_name : string) (l : list MigrationFile)
    : list MigrationFile :=
  filter (fun m => scope_skipped env db_name m = false) l.

(** Connection [c'] is what [c], which saw the rows [rows], becomes when
    the migrations [todo] have been applied in this direction, one
    transaction each, and nothing else has been written. *)
Definition advanced (direction : string) (todo : list MigrationFile)
    (rows : list Row) (c c' : Conn) : Prop :=
  working c' = committed c' /\
  database c' = database c /\
  executed (committed c')
  = executed (committed c) ++ map (fun m => sql_of m direction) todo /\
  exists rows',
    table (committed c') = Some (rows ++ rows') /\
    map row_version rows' = map version todo /\
    Forall (fun r => row_direction r = direction) rows'.

(** The versions of the ['up'] rows of a database, and a connection both
    of whose states of the database have these. *)
Definition up_rows (s : Store) : list Z := up_versions (default [] (table s)).

Definition same_ups (ups : list Z) (c : Conn) : Prop :=
  up_rows (working c) = ups /\ up_rows (committed c) = ups.

(** A computation that leaves the ['up'] rows as they are. *)
Definition keeps {A : Type} (m : M A) : Prop :=
  forall ups c, same_ups ups c -> same_ups ups (after (m c)).

(** A call that inserts no ['up'] row. *)
Definition harmless (op : Op) : Prop :=
  match op with
  | Execute (Insert r) => row_direction r <> "up"
  | _ => True
  end.

(** ** Example inputs *)

(** A file with a DOWN section and no UP marker. *)
Definition down_only_file : string :=
  "CREATE TABLE t();" +:+ String Text.LF "-- === DOWN ===" +:+ String Text.LF "DROP TABLE t;"
  +:+ String Text.LF "".

(** The two files of the scope example, [host/001_init.sql] and
    [tenant/002_add_col.sql], as [discover_migrations] loads them. *)
Definition example_init (init : string) : MigrationFile :=
  {| filepath := {| parent_name := "host"; file_name := "001_init.sql" |};
     version := 1; name := "init"; scope := "host";
     up_sql := fst (_parse_sql init); down_sql := snd (_parse_sql init) |}.

Definition example_add_col (add_col : string) : MigrationFile :=
  {| filepath := {| parent_name := "tenant"; file_name := "002_add_col.sql" |};
     version := 2; name := "add_col"; scope := "tenant";
     up_sql := fst (_parse_sql add_col); down_sql := snd (_parse_sql add_col) |}.

(** The text of four migration files. *)
Definition lines (l : list string) : string :=
  foldr (fun s rest => s +:+ String Text.LF rest) "" l.

Definition init_sql : string :=
  lines ["-- === UP ==="; "CREATE TABLE tenants (id int);"].

Definition add_col_sql : string :=
  lines ["-- === UP ==="; "ALTER TABLE orders ADD note text;"; "";
         "-- === DOWN ==="; "ALTER TABLE orders DROP note;"].

Definition audit_sql : string :=
  lines ["-- === UP ==="; "CREATE TABLE audit (id int);"; "";
         "-- === DOWN ==="; "DROP TABLE audit;"].

Definition base_sql : string :=
  lines ["-- === UP ==="; "CREATE TABLE base (id int);"; "";
         "-- === DOWN ==="; "DROP TABLE base;"].

(** A migrations directory, by scope directory. *)
Definition directory (files : list (string * list (string * string)))
    (scope_dir : string) : option (list (string * string)) :=
  snd <$> list_find (fun d => fst d = scope_dir) files ≫= fun d => Some (snd d).

(** An environment with one active tenant, whose database is
    [tenant_acme]; the host database is [saas_host]. *)
Definition environment (fails : Op -> Conn -> bool)
    (files : list (string * list (string * string))) : Env :=
  {| fails := fails;
     refuses := fun _ => false;
     POSTGRES_DATABASE := "saas_host";
     USER := Some "deploy";
     elapsed_ms := fun _ => 7%Z;
     sha256_hexdigest := fun _ => "9f86d081884c7d659a2feaa0c55ad015a3bf4f1b2b0b822cd15d6c15b0f00a08";
     tenants_table :=
       Ok [{| tenant_id := "acme"; is_active := true; tenant_type := "tenant";
              dbconnection := "postgresql://app:secret@db:5432/tenant_acme" |};
           {| tenant_id := "gone"; is_active := false; tenant_type := "tenant";
              dbconnection := "postgresql://app:secret@db:5432/tenant_gone" |}];
     listing := directory files;
     ends_transaction := fun _ => false |}.

(** An environment whose migration bodies all end their transaction,
    as a file does that holds a COMMIT. *)
Definition committing (env : Env) : Env :=
  {| fails := fails env;
     refuses := refuses env;
     POSTGRES_DATABASE := POSTGRES_DATABASE env;
     USER := USER env;
     elapsed_ms := elapsed_ms env;
     sha256_hexdigest := sha256_hexdigest env;
     tenants_table := tenants_table env;
     listing := listing env;
     ends_transaction := fun _ => true |}.

Definition no_error (op : Op) (c : Conn) : bool := false.

(** The driver raises on every insertion into the tracking table; and
    on every [rollback] as well. *)
Definition insert_error (op : Op) (c : Conn) : bool :=
  match op with
  | Execute (Insert _) => true
  | _ => false
  end.

Definition insert_and_rollback_error (op : Op) (c : Conn) : bool :=
  match op with
  | Execute (Insert _) | Rollback => true
  | _ => false
  end.

(** The driver raises on every migration body sent to the host
    database. *)
Definition host_body_error (op : Op) (c : Conn) : bool :=
  match op with
  | Execute (Body _) => String.eqb (database c) "saas_host"
  | _ => false
  end.

(** [host/001_init.sql] and [tenant/002_add_col.sql]. *)
Definition two_files : list (string * list (string * string)) :=
  [("host", [("001_init.sql", init_sql)]);
   ("tenant", [("002_add_col.sql", add_col_sql)])].

(** The same with [host/003_audit.sql]. *)
Definition three_files : list (string * list (string * string)) :=
  [("host", [("003_audit.sql", audit_sql); ("001_init.sql", init_sql)]);
   ("tenant", [("002_add_col.sql", add_col_sql)])].

(** [both/000_base.sql] alone. *)
Definition version_zero_file : list (string * list (string * string)) :=
  [("both", [("000_base.sql", base_sql)])].

Definition runner : MigrationRunner := {| dry_run := false |}.

Definition empty_database : Store := {| executed := []; table := None |}.

Definition fresh_world : World :=
  {| databases := {[ "saas_host" := empty_database; "tenant_acme" := empty_database ]};
     console := [] |}.

(** A connection to the host database of [fresh_world], its table
    created. *)
Definition host_connection : Conn :=
  {| database := "saas_host";
     committed := {| executed := []; table := Some [] |};
     working := {| executed := []; table := Some [] |};
     calls := [Execute CreateTable; Commit] |}.

(** The host database of the three-file directory after a forward
    migration: versions 1 and 3 are applied. *)
Definition migrated_world : World :=
  snd (migrate_database (environment no_error three_files) runner "saas_host" "HOST"
         None fresh_world).

Definition migrated_host : Store :=
  default empty_database (databases migrated_world !! "saas_host").

(** [host/003_audit.sql], as [discover_migrations] loads it. *)
Definition example_audit : MigrationFile :=
  {| filepath := {| parent_name := "host"; file_name := "003_audit.sql" |};
     version := 3; name := "audit"; scope := "host";
     up_sql := "CREATE TABLE audit (id int);"; down_sql := "DROP TABLE audit;" |}.

(** The same environment with another host database. *)
Definition hosted_on (host : string) (env : Env) : Env :=
  {| fails := fails env;
     refuses := refuses env;
     POSTGRES_DATABASE := host;
     USER := USER env;
     elapsed_ms := elapsed_ms env;
     sha256_hexdigest := sha256_hexdigest env;
     tenants_table := tenants_table env;
     listing := listing env;
     ends_transaction := ends_transaction env |}.

(** A world with one fresh database. *)
Definition one_database (db_name : string) : World :=
  {| databases := {[ db_name := empty_database ]}; console := [] |}.

(** ** Notions used in the further properties *)

(** Every character of the text is in the class. *)
Fixpoint every (p : ascii -> bool) (s : string) : bool :=
  match s with
  | EmptyString => true
  | String c s' => p c && every p s'
  end.

(** [[scope] if scope else ['host', 'tenant', 'both']]: the directories
    [discover_migrations] looks into. *)
Definition searched (scope : option string) : list string :=
  match scope with
  | Some s => if String.eqb s "" then ["host"; "tenant"; "both"] else [s]
  | None => ["host"; "tenant"; "both"]
  end.

(** The file is in a directory that is searched and exists, and its
    name ends in [.sql]. *)
Definition globbed (env : Env) (scope : option string) (sql_file : Path)
    (content : string) : Prop :=
  parent_name sql_file ∈ searched scope /\
  ends_with ".sql" (file_name sql_file) = true /\
  exists files, listing env (parent_name sql_file) = Some files /\
                (file_name sql_file, content) ∈ files.

(** A computation that takes every connection to one related to it. *)
Definition moves {A : Type} (step : Conn -> Conn -> Prop) (m : M A) : Prop :=
  forall c, step c (after (m c)).

(** The calls a run makes outside [apply_migration]. *)
Definition plain (op : Op) : Prop :=
  match op with
  | Execute CreateTable | Execute SelectMax | Commit | Close => True
  | _ => False
  end.

(** What a database holds: the bodies executed on it and the rows of
    its tracking table (none while the table does not exist). *)
Definition content (s : Store) : list string * list Row :=
  (executed s, default [] (table s)).

(** Every database of [w] is in [w'], related to what it was. *)
Definition related (R : Store -> Store -> Prop) (w w' : World) : Prop :=
  forall d, option_Forall2 R (databases w !! d) (databases w' !! d).

(** As many bodies executed as rows recorded. *)
Definition paired (s : Store) : Prop :=
  length (executed s) = length (default [] (table s)).

(** From a connection with no open work to another with no open work
    and the same content committed. *)
Definition untouched (c c' : Conn) : Prop :=
  content (working c) = content (committed c) ->
  content (working c') = content (committed c') /\
  content (committed c') = content (committed c).

(** The same for a database. *)
Definition same_content (s s' : Store) : Prop := content s' = content s.

(** No migration body ends the transaction it runs in. *)
Definition plain_bodies (env : Env) : Prop :=
  forall sql, ends_transaction env sql = false.

(** From a connection both of whose states are paired to another. *)
Definition pairs (c c' : Conn) : Prop :=
  paired (committed c) /\ paired (working c) ->
  paired (committed c') /\ paired (working c').

(** A database that stays paired if it was. *)
Definition stays_paired (s s' : Store) : Prop := paired s -> paired s'.

(** The calls made from [c] to [c'] include no [close]; and they end
    with the only [close] among them. *)
Definition open_calls (c c' : Conn) : Prop :=
  exists l, calls c' = calls c ++ l /\ Close ∉ l.

Definition closed_once (c c' : Conn) : Prop :=
  exists l, calls c' = calls c ++ l ++ [Close] /\ Close ∉ l.

(** A body that returns with the connection closed, once and last,
    unless the creation of the tracking table raises: then it raises
    the same error, with the connection left as that call left it,
    open. *)
Definition closes_or_fails_early (env : Env) (body : M bool) (c : Conn) : Prop :=
  let r := body c in
  let made := _ensure_migration_table env c in
  match returned made with
  | Ok _ => (exists b, returned r = Ok b) /\ closed_once c (after r)
  | Raise e =>
      returned r = Raise e /\ after r = after made /\ open_calls c (after r)
  end.

(** * Properties *)

(** ** The monad and the connection *)

Section Calls.
Context (env : Env).

(** A call either goes through, with its effect, or raises and leaves
    both states of the database as they were; it is logged either way. *)
Lemma call_cases (op : Op) (c : Conn) :
  (exists c', driver_raises env op c = false /\
              effect env op c = Some c' /\
              call env op c = {| returned := Ok tt; after := logged op c'; printed := [] |})
  \/ call env op c
     = {| returned := Raise (DriverError op); after := logged op c; printed := [] |}.
Proof.
  unfold call. destruct (driver_raises env op c); [now right|].
  destruct (effect env op c) as [c'|]; [left; eauto | now right].
Qed.

Lemma call_rollback (c : Conn) :
  call env Rollback c =
    if fails env Rollback c
    then {| returned := Raise (DriverError Rollback); after := logged Rollback c;
            printed := [] |}
    else {| returned := Ok tt;
            after := {| database := database c; committed := committed c;
                        working := committed c; calls := calls c ++ [Rollback] |};
            printed := [] |}.
Proof. unfold call. cbn. now destruct (fails env Rollback c). Qed.

Lemma call_close (c : Conn) :
  call env Close c =
    {| returned := Ok tt;
       after := {| database := database c; committed := committed c;
                   working := committed c; calls := calls c ++ [Close] |};
       printed := [] |}.
Proof. reflexivity. Qed.

End Calls.

Ltac norm :=
  unfold logged, and_then; cbn -[call];
  repeat (rewrite ?call_close; progress cbn -[call]).

Ltac run_call env H :=
  match goal with
  | |- context [call env ?op ?c] =>
      let c' := fresh "c" in
      destruct (call_cases env op c) as [(c' & _ & H & ->) | ->];
      [cbn in H; try discriminate H | ]
  end.

Section ApplyMigration.
Context (env : Env).

(** The ways [apply_migration] can end: there is no SQL for the
    direction; a call raised and [rollback] was called, which went
    through or raised in its turn; or the body and the row are
    committed. What is committed after a failure is what was before,
    unless the body ended its transaction: then the body is. *)
Lemma apply_migration_outcome (migration : MigrationFile) (direction : string) (c : Conn) :
  let sql := sql_of migration direction in
  let body_done := {| executed := executed (working c) ++ [sql];
                      table := table (working c) |} in
  (sql = "" /\
   apply_migration env migration direction c =
     {| returned := Raise (NoSection direction (version migration));
        after := c; printed := [] |})
  \/
  (sql <> "" /\ exists e more kept w,
   apply_migration env migration direction c =
     {| returned := Raise e;
        after := {| database := database c; committed := kept; working := w;
                    calls := calls c ++ Execute (Body sql) :: more ++ [Rollback] |};
        printed := [] |} /\
   (kept = committed c \/ ends_transaction env sql = true /\ kept = body_done) /\
   ((exists cause, e = MigrationFailed cause) /\ w = kept
    \/ e = DriverError Rollback /\ exists c', fails env Rollback c' = true))
  \/
  (sql <> "" /\ exists rows,
   let ms := elapsed_ms env
               (logged (Execute (Body sql))
                  {| database := database c;
                     committed := if ends_transaction env sql then body_done
                                  else committed c;
                     working := body_done;
                     calls := calls c |}) in
   let row := tracking_row env migration direction ms in
   let done := {| executed := executed (working c) ++ [sql];
                  table := Some (rows ++ [row]) |} in
   table (working c) = Some rows /\
   key_taken row rows = false /\
   apply_migration env migration direction c =
     {| returned := Ok (true, ms);
        after := {| database := database c; committed := done; working := done;
                    calls := calls c ++ [Execute (Body sql); Execute (Insert row); Commit] |};
        printed := [] |}).
Proof.
  cbv zeta. unfold apply_migration.
  destruct (String.eqb (sql_of migration direction) "") eqn:Hsql.
  { apply String.eqb_eq in Hsql. now left. }
  apply String.eqb_neq in Hsql. right.
  unfold try_except, bind, execute, commit, rollback, execution_time_since_start.
  run_call env E1.
  2:{ left. split; [assumption|]. norm. rewrite call_rollback. cbn.
      destruct (fails env Rollback _) eqn:Hf; norm.
      - eexists _, [], _, _. rewrite <- ?app_assoc. split; [reflexivity|].
        split; [now left|]. right. eauto.
      - eexists _, [], _, _. rewrite <- ?app_assoc. split; [reflexivity|].
        split; [now left|]. left. eauto. }
  injection E1 as <-. norm.
  assert (Hkept : (if ends_transaction env (sql_of migration direction)
                   then {| executed := executed (working c) ++ [sql_of migration direction];
                           table := table (working c) |}
                   else committed c) = committed c
                  \/ ends_transaction env (sql_of migration direction) = true /\
                     (if ends_transaction env (sql_of migration direction)
                      then {| executed := executed (working c) ++ [sql_of migration direction];
                              table := table (working c) |}
                      else committed c)
                     = {| executed := executed (working c) ++ [sql_of migration direction];
                          table := table (working c) |}).
  { destruct (ends_transaction env (sql_of migration direction)); auto. }
  run_call env E2.
  2:{ left. split; [assumption|]. norm. rewrite call_rollback. cbn.
      destruct (fails env Rollback _) eqn:Hf; norm.
      - eexists _, [_], _, _. rewrite <- ?app_assoc. split; [reflexivity|].
        split; [exact Hkept|]. right. eauto.
      - eexists _, [_], _, _. rewrite <- ?app_assoc. split; [reflexivity|].
        split; [exact Hkept|]. left. eauto. }
  destruct (table (working c)) as [rows|] eqn:Ht; [|discriminate].
  match type of E2 with context [key_taken ?r ?l] => destruct (key_taken r l) eqn:Hk end;
    [discriminate|].
  injection E2 as <-. norm.
  run_call env E3.
  2:{ left. split; [assumption|]. norm. rewrite call_rollback. cbn.
      destruct (fails env Rollback _) eqn:Hf; norm.
      - eexists _, [_; _], _, _. rewrite <- ?app_assoc. split; [reflexivity|].
        split; [exact Hkept|]. right. eauto.
      - eexists _, [_; _], _, _. rewrite <- ?app_assoc. split; [reflexivity|].
        split; [exact Hkept|]. left. eauto. }
  injection E3 as <-. right. split; [assumption|]. exists rows.
  split; [reflexivity|]. split; [exact Hk|].
  norm. now rewrite <- ?app_assoc.
Qed.

(** C1, as the code has it. [apply_migration] runs the body and the
    insertion of the tracking row as one transaction, as far as the
    body lets it: the body is sent as the file has it. When the call
    returns, the database holds the state the transaction started from
    with the body executed and the row inserted, both durable after the
    one [commit] that ends the call. When it raises, either nothing was
    executed (the direction has no SQL), or the last call on the
    connection is the [rollback]. Then, if the body does not end its
    transaction, the database is as committed before the call; if it
    does, the database may hold the body without its row. If the
    [rollback] went through, the error is the migration failure and the
    transaction's state is the database's again; if it raised, its own
    error is what surfaces. *)
Theorem apply_migration_is_one_transaction
    (migration : MigrationFile) (direction : string) (c : Conn) :
  let sql := sql_of migration direction in
  let r := apply_migration env migration direction c in
  let body_done := {| executed := executed (working c) ++ [sql];
                      table := table (working c) |} in
  match returned r with
  | Ok (_, ms) =>
      let row := tracking_row env migration direction ms in
      exists rows,
        table (working c) = Some rows /\
        committed (after r) =
          {| executed := executed (working c) ++ [sql];
             table := Some (rows ++ [row]) |} /\
        working (after r) = committed (after r) /\
        calls (after r) =
          calls c ++ [Execute (Body sql); Execute (Insert row); Commit]
  | Raise e =>
      (sql = "" /\ e = NoSection direction (version migration) /\ after r = c)
      \/
      (sql <> "" /\
       last (calls (after r)) = Some Rollback /\
       (ends_transaction env sql = false -> committed (after r) = committed c) /\
       (committed (after r) = committed c \/
        ends_transaction env sql = true /\ committed (after r) = body_done) /\
       ((exists cause, e = MigrationFailed cause) /\
        working (after r) = committed (after r)
        \/ e = DriverError Rollback /\ exists c', fails env Rollback c' = true))
  end.
Proof.
  cbv zeta.
  destruct (apply_migration_outcome migration direction c)
    as [(Hs & ->) | [(Hs & e & more & kept & w & -> & Hkept & He)
                    | (Hs & rows & Ht & Hk & ->)]]; cbn.
  - left. auto.
  - right. split; [exact Hs|]. split; [|split; [|split]].
    + change (Execute (Body (sql_of migration direction)) :: more ++ [Rollback])
        with ((Execute (Body (sql_of migration direction)) :: more) ++ [Rollback]).
      rewrite app_assoc. apply last_snoc.
    + intros Hp. destruct Hkept as [->|[Hq _]]; [reflexivity | congruence].
    + exact Hkept.
    + exact He.
  - exists rows. auto.
Qed.

End ApplyMigration.

Section CurrentVersion.
Context (env : Env).

Lemma foldl_max_ge (l : list Z) (v : Z) : (v <= foldl Z.max v l)%Z.
Proof.
  revert v. induction l as [|x l IH]; intros v; cbn; [lia|].
  specialize (IH (Z.max v x)). lia.
Qed.

Lemma foldl_max_upper (l : list Z) (v x : Z) :
  x ∈ l -> (x <= foldl Z.max v l)%Z.
Proof.
  revert v. induction l as [|y l IH]; intros v Hx; [inversion Hx|].
  cbn. apply elem_of_cons in Hx as [->|Hx]; [|now apply IH].
  pose proof (foldl_max_ge l (Z.max v y)). lia.
Qed.

Lemma foldl_max_in (l : list Z) (v : Z) :
  foldl Z.max v l = v \/ foldl Z.max v l ∈ l.
Proof.
  revert v. induction l as [|y l IH]; intros v; cbn; [now left|].
  destruct (IH (Z.max v y)) as [E|E].
  - rewrite E. destruct (Z.max_spec v y) as [[_ ->]|[_ ->]]; [right; left|now left].
  - right. now right.
Qed.

(** [MAX] of a column: the greatest element, or NULL on no rows. *)
Lemma max_list_spec (l : list Z) :
  match max_list l with
  | Some v => v ∈ l /\ forall x, x ∈ l -> (x <= v)%Z
  | None => l = []
  end.
Proof.
  destruct l as [|v l]; cbn; [reflexivity|]. split.
  - destruct (foldl_max_in l v) as [->|E]; [left | now right].
  - intros x [->|Hx]%elem_of_cons; [apply foldl_max_ge | now apply foldl_max_upper].
Qed.

Lemma version_query_ok (c : Conn) :
  returned (version_query env c) = Ok tt ->
  table (working (after (version_query env c))) = Some (default [] (table (working c))) /\
  executed (working (after (version_query env c))) = executed (working c) /\
  committed (after (version_query env c)) = working (after (version_query env c)) /\
  database (after (version_query env c)) = database c /\
  printed (version_query env c) = [].
Proof.
  unfold version_query, _ensure_migration_table, bind, execute, commit.
  run_call env E1; [|discriminate].
  injection E1 as <-. norm.
  run_call env E2; [|discriminate].
  injection E2 as <-. norm.
  run_call env E3; [|discriminate].
  injection E3 as <-. cbn. auto.
Qed.

Lemma version_query_printed (c : Conn) : printed (version_query env c) = [].
Proof.
  unfold version_query, _ensure_migration_table, bind, execute, commit.
  run_call env E1; [|reflexivity].
  injection E1 as <-. norm.
  run_call env E2; [|reflexivity].
  injection E2 as <-. norm.
  run_call env E3; [|reflexivity].
  reflexivity.
Qed.

Lemma get_current_version_unfold (c : Conn) :
  get_current_version env c =
    let q := version_query env c in
    match returned q with
    | Ok _ =>
        {| returned := Ok (default 0%Z (max_up_version (working (after q))));
           after := after q; printed := [] |}
    | Raise e =>
        {| returned := Ok 0%Z; after := after q;
           printed := [ErrorGettingVersion e] |}
    end.
Proof.
  cbv zeta.
  unfold get_current_version, version_query, _ensure_migration_table, try_except,
    bind, fetch_max, print, execute, commit.
  run_call env E1; [|reflexivity].
  injection E1 as <-. norm.
  run_call env E2; [|reflexivity].
  injection E2 as <-. norm.
  run_call env E3; [|reflexivity].
  injection E3 as <-. norm.
  now destruct (max_up_version _).
Qed.

(** C9. [get_current_version] never raises. When its query goes through
    it returns the greatest version among the rows of direction ['up']
    that the connection sees, and 0 when there is none (in particular on
    an empty, freshly created table); when the query raises, the error
    is printed and 0 is returned. *)
Theorem get_current_version_is_max_up_or_zero (c : Conn) :
  let ups := up_versions (default [] (table (working c))) in
  let r := get_current_version env c in
  match returned (version_query env c) with
  | Ok _ =>
      exists v, returned r = Ok v /\ printed r = [] /\
        match ups with
        | [] => v = 0%Z
        | _ => v ∈ ups /\ forall x, x ∈ ups -> (x <= v)%Z
        end
  | Raise e =>
      returned r = Ok 0%Z /\ printed r = [ErrorGettingVersion e]
  end.
Proof.
  cbv zeta. rewrite get_current_version_unfold. cbv zeta.
  destruct (returned (version_query env c)) as [[]|e] eqn:Q; [|now cbn].
  apply version_query_ok in Q as (Ht & _).
  eexists. split; [reflexivity|]. split; [reflexivity|].
  unfold max_up_version. rewrite Ht. cbn [default].
  pose proof (max_list_spec (up_versions (default [] (table (working c))))) as Hm.
  destruct (max_list _) as [v|]; cbn.
  - destruct (up_versions _); [destruct Hm as [Hm _]; inversion Hm | exact Hm].
  - now rewrite Hm.
Qed.

End CurrentVersion.

(** ** The matcher against the language of a pattern *)

Lemma append_empty (s : string) : "" +:+ s = s.
Proof. reflexivity. Qed.

Lemma append_String (c : ascii) (a b : string) : String c a +:+ b = String c (a +:+ b).
Proof. reflexivity. Qed.

Section Matcher.
Context (whole : string).

Lemma greedy_star_sound {R : Type} (p : ascii -> bool) (k : string -> option R) s x :
  Re.greedy_star p k s = Some x ->
  exists s', Re.spans whole (Re.Star p) s s' /\ k s' = Some x.
Proof.
  induction s as [|c s IH]; cbn; intros H.
  - exists "". split; [constructor | exact H].
  - destruct (p c) eqn:Hp.
    + destruct (Re.greedy_star p k s) as [y|] eqn:Hg.
      * injection H as <-. destruct (IH eq_refl) as (s' & Hs & Hk).
        exists s'. split; [now constructor | exact Hk].
      * exists (String c s). split; [constructor | exact H].
    + exists (String c s). split; [constructor | exact H].
Qed.

Lemma lazy_star_sound {R : Type} (p : ascii -> bool) (k : string -> option R) s x :
  Re.lazy_star p k s = Some x ->
  exists s', Re.spans whole (Re.Lazy p) s s' /\ k s' = Some x.
Proof.
  induction s as [|c s IH]; cbn; intros H.
  - destruct (k "") eqn:Hk; [|discriminate]. exists "". split; [constructor | congruence].
  - destruct (k (String c s)) eqn:Hk.
    + exists (String c s). split; [constructor | congruence].
    + destruct (p c) eqn:Hp; [|discriminate].
      destruct (IH H) as (s' & Hs & Hk'). exists s'. split; [now constructor | exact Hk'].
Qed.

(** Whatever the matcher finds is in the language. *)
Lemma run_sound (r : Re.re) :
  forall (R : Type) (k : string -> option string -> option R) s g x,
    Re.run whole r k s g = Some x ->
    exists s' g', Re.spans whole r s s' /\ k s' g' = Some x.
Proof.
  induction r as [|p|a IHa b IHb|a IHa b IHb|p|p|a IHa|a IHa| |];
    intros R k s g x H; cbn in H.
  - exists s, g. split; [constructor | exact H].
  - destruct s as [|c s]; [discriminate|]. destruct (p c) eqn:Hp; [|discriminate].
    exists s, g. split; [now constructor | exact H].
  - apply IHa in H as (s1 & g1 & H1 & H). apply IHb in H as (s2 & g2 & H2 & H).
    exists s2, g2. split; [econstructor; eassumption | exact H].
  - destruct (Re.run whole a k s g) as [y|] eqn:Ha.
    + injection H as <-. apply IHa in Ha as (s' & g' & H1 & H).
      exists s', g'. split; [now apply Re.spans_alt_l | exact H].
    + apply IHb in H as (s' & g' & H1 & H).
      exists s', g'. split; [now apply Re.spans_alt_r | exact H].
  - apply greedy_star_sound in H as (s' & Hs & H). now exists s', g.
  - apply lazy_star_sound in H as (s' & Hs & H). now exists s', g.
  - apply IHa in H as (s' & g' & H1 & H).
    eexists s', _. split; [now constructor | exact H].
  - destruct (Re.run whole a _ s g) as [g'|] eqn:Ha; [|discriminate].
    apply IHa in Ha as (s' & g'' & H1 & _).
    exists s, g'. split; [econstructor; eassumption | exact H].
  - destruct (String.length s =? String.length whole)%nat eqn:E; [|discriminate].
    apply Nat.eqb_eq in E. exists s, g. split; [now constructor | exact H].
  - destruct (Re.at_end s) eqn:E; [|discriminate].
    exists s, g. split; [now constructor | exact H].
Qed.

(** Whatever is in the language the matcher finds, for a continuation
    that accepts the end position. *)
Lemma run_complete (r : Re.re) s s' :
  Re.spans whole r s s' ->
  forall (R : Type) (k : string -> option string -> option R) g,
    (forall g', is_Some (k s' g')) -> is_Some (Re.run whole r k s g).
Proof.
  induction 1 as [s|p c s Hp|a b s1 s2 s3 _ IHa _ IHb|a b s s' _ IH|a b s s' _ IH
                 |p s|p c s s' Hp _ IH|p s|p c s s' Hp _ IH|a s s' _ IH|a s s' _ IH
                 |s E|s E]; intros R k g Hk; cbn.
  - apply Hk.
  - rewrite Hp. apply Hk.
  - apply IHa. intros g'. now apply IHb.
  - destruct (IH R k g Hk) as [y ->]. eauto.
  - destruct (Re.run whole a k s g); [eauto|]. now apply IH.
  - destruct s as [|c s]; cbn; [apply Hk|].
    destruct (p c); [|apply Hk]. destruct (Re.greedy_star p _ s); [eauto | apply Hk].
  - rewrite Hp. specialize (IH R k g Hk). cbn in IH. destruct IH as [y ->]. eauto.
  - destruct s as [|c s]; cbn; destruct (Hk g) as [y ->]; eauto.
  - destruct (k (String c s) g); [eauto|]. rewrite Hp. now apply (IH R k g).
  - apply IH. intros _. apply Hk.
  - destruct (IH _ (fun _ g' => Some g') g (fun g' => mk_is_Some _ _ eq_refl)) as [y ->].
    apply Hk.
  - apply Nat.eqb_eq in E. rewrite E. apply Hk.
  - rewrite E. apply Hk.
Qed.

Lemma attempt_iff (r : Re.re) (s : string) :
  is_Some (Re.attempt whole r s) <-> exists s', Re.spans whole r s s'.
Proof.
  unfold Re.attempt. split.
  - intros [x H]. apply run_sound in H as (s' & _ & H & _). eauto.
  - intros [s' H]. eapply run_complete; [exact H|]. intros g'. eauto.
Qed.

Lemma search_from_iff (r : Re.re) (s : string) :
  is_Some (Re.search_from whole r s) <->
  exists before rest rest', s = before +:+ rest /\ Re.spans whole r rest rest'.
Proof.
  induction s as [|c s IH]; cbn.
  - destruct (Re.attempt whole r "") as [g|] eqn:A.
    + split; [intros _|eauto]. destruct (proj1 (attempt_iff r "")) as [s' H]; [rewrite A; eauto|].
      now exists "", "", s'.
    + split; [intros [? [=]]|]. intros (before & rest & rest' & E & H).
      destruct before; [|discriminate]. rewrite append_empty in E. subst rest.
      destruct (proj2 (attempt_iff r "")) as [? ?]; [eauto | congruence].
  - destruct (Re.attempt whole r (String c s)) as [g|] eqn:A.
    + split; [intros _|eauto].
      destruct (proj1 (attempt_iff r (String c s))) as [s' H]; [rewrite A; eauto|].
      now exists "", (String c s), s'.
    + rewrite IH. split.
      * intros (before & rest & rest' & -> & H). now exists (String c before), rest, rest'.
      * intros (before & rest & rest' & E & H). destruct before as [|c' before].
        -- rewrite append_empty in E. subst rest.
           destruct (proj2 (attempt_iff r (String c s))) as [? ?]; [eauto | congruence].
        -- rewrite append_String in E. injection E as -> ->.
           now exists before, rest, rest'.
Qed.

End Matcher.

Lemma search_iff (r : Re.re) (content : string) :
  is_Some (Re.search r content) <->
  exists before rest rest', content = before +:+ rest /\ Re.spans content r rest rest'.
Proof. apply search_from_iff. Qed.

(** ** Texts and positions *)

Lemma length_append (a b : string) :
  String.length (a +:+ b) = (String.length a + String.length b)%nat.
Proof.
  induction a as [|c a IH]; [reflexivity|].
  rewrite append_String. cbn. now rewrite IH.
Qed.

Lemma substring_prefix (a b : string) : substring 0 (String.length a) (a +:+ b) = a.
Proof.
  induction a as [|c a IH].
  - rewrite append_empty. now destruct b.
  - rewrite append_String. cbn. now rewrite IH.
Qed.

Lemma append_assoc (a b c : string) : (a +:+ b) +:+ c = a +:+ (b +:+ c).
Proof.
  induction a as [|x a IH]; [reflexivity|].
  rewrite !append_String. now rewrite IH.
Qed.

Lemma append_nil_r (a : string) : a +:+ "" = a.
Proof.
  induction a as [|x a IH]; [reflexivity|].
  rewrite append_String. now rewrite IH.
Qed.

(** The text captured between a position and a later one. *)
Lemma cap_prefix (a b : string) : Re.cap (a +:+ b) (a +:+ b) b = a.
Proof.
  unfold Re.cap. rewrite Nat.sub_diag, length_append.
  replace (String.length a + String.length b - String.length b)%nat
    with (String.length a) by lia.
  apply substring_prefix.
Qed.

Lemma cap_middle (a b c : string) : Re.cap (a +:+ b +:+ c) (b +:+ c) c = b.
Proof.
  unfold Re.cap. rewrite !length_append.
  replace (String.length a + (String.length b + String.length c)
           - (String.length b + String.length c))%nat with (String.length a) by lia.
  replace (String.length b + String.length c - String.length c)%nat
    with (String.length b) by lia.
  induction a as [|x a IH].
  - rewrite append_empty. apply substring_prefix.
  - rewrite append_String. exact IH.
Qed.

Lemma spans_suffix (whole : string) (r : Re.re) s s' :
  Re.spans whole r s s' -> exists mid, s = mid +:+ s'.
Proof.
  induction 1 as [s|p c s Hp|a b s1 s2 s3 _ [m1 ->] _ [m2 ->]|a b s s' _ IH|a b s s' _ IH
                 |p s|p c s s' Hp _ [m ->]|p s|p c s s' Hp _ [m ->]|a s s' _ IH|a s s' _ IH
                 |s E|s E];
    try (now exists ""); try assumption.
  - now exists (String c "").
  - exists (m1 +:+ m2). now rewrite append_assoc.
  - now exists (String c m).
  - now exists (String c m).
Qed.

(** [re.search] takes the first position, from the left, at which the
    pattern matches. *)
Lemma search_from_first (whole : string) (r : Re.re) (s : string) g :
  Re.search_from whole r s = Some g ->
  exists before rest,
    s = before +:+ rest /\ Re.attempt whole r rest = Some g /\
    forall b1 r1, s = b1 +:+ r1 -> (String.length b1 < String.length before)%nat ->
                  Re.attempt whole r r1 = None.
Proof.
  induction s as [|c s IH]; cbn.
  - destruct (Re.attempt whole r "") as [x|] eqn:A; [|discriminate].
    intros [= <-]. exists "", "". repeat split; [exact A|]. cbn. lia.
  - destruct (Re.attempt whole r (String c s)) as [x|] eqn:A.
    + intros [= <-]. exists "", (String c s). repeat split; [exact A|]. cbn. lia.
    + intros H. destruct (IH H) as (before & rest & -> & Hr & Hfirst).
      exists (String c before), rest. repeat split; [exact Hr|].
      intros b1 r1 E Hlen. destruct b1 as [|c1 b1].
      * rewrite append_empty in E. now subst r1.
      * rewrite append_String in E. injection E as -> E. cbn in Hlen.
        apply (Hfirst b1 r1 E). lia.
Qed.
Lemma down_attempt_inv (whole rest : string) g :
  Re.attempt whole down_pattern rest = Some g ->
  exists s1 s2,
    Re.spans whole (marker_line "DOWN") rest s1 /\
    Re.spans whole (Re.Lazy Re.any) s1 s2 /\
    Re.at_end s2 = true /\
    g = Some (Re.cap whole s1 s2).
Proof.
  unfold Re.attempt, down_pattern, marker_line, Re.seq. cbn [foldr]. intros H.
  cbn [Re.run] in H.
  apply run_sound in H as (t1 & g1 & Hm & H).
  apply greedy_star_sound with (whole := whole) in H as (t2 & Hs & H).
  cbv beta in H.
  destruct t2 as [|c t3]; [discriminate|].
  unfold Re.lit_i in H. cbn [Re.run] in H.
  destruct (Re.exactly_i Text.LF c) eqn:Hc; [|discriminate].
  apply lazy_star_sound with (whole := whole) in H as (s2 & Hl & H).
  cbv beta in H.
  destruct (Re.at_end s2) eqn:He; [|discriminate].
  injection H as <-.
  exists t3, s2. repeat split; try assumption.
  econstructor; [exact Hm|]. econstructor; [exact Hs|].
  econstructor; [|constructor]. now constructor.
Qed.
Lemma rstrip_snoc_space (a : string) (c : ascii) :
  Text.is_space c = true -> Text.rstrip (a +:+ String c "") = Text.rstrip a.
Proof.
  intros Hc. induction a as [|x a IH].
  - rewrite append_empty. cbn. now rewrite Hc.
  - rewrite append_String. cbn. now rewrite IH.
Qed.

Lemma lstrip_snoc_space (a : string) (c : ascii) :
  Text.is_space c = true ->
  Text.lstrip (a +:+ String c "") = Text.lstrip a +:+ String c "" \/
  Text.lstrip (a +:+ String c "") = "" /\ Text.lstrip a = "".
Proof.
  intros Hc. induction a as [|x a IH].
  - right. rewrite append_empty. cbn. now rewrite Hc.
  - rewrite append_String. cbn. destruct (Text.is_space x); [exact IH|].
    left. now rewrite append_String.
Qed.

Lemma strip_snoc_space (a : string) (c : ascii) :
  Text.is_space c = true -> Text.strip (a +:+ String c "") = Text.strip a.
Proof.
  intros Hc. unfold Text.strip.
  destruct (lstrip_snoc_space a c Hc) as [->|[-> ->]]; [|reflexivity].
  now apply rstrip_snoc_space.
Qed.

(** What [(.*?)$] captures has the trimmed form of all that is left. *)
Lemma strip_to_end (grp s2 : string) :
  Re.at_end s2 = true -> Text.strip grp = Text.strip (grp +:+ s2).
Proof.
  destruct s2 as [|c [|c' s2]]; cbn; try discriminate.
  - intros _. now rewrite append_nil_r.
  - intros Hc. apply Ascii.eqb_eq in Hc as ->. symmetry. now apply strip_snoc_space.
Qed.

(** ** MigrationFile._parse_sql *)

Lemma lazy_any_to_end (whole s : string) : Re.spans whole (Re.Lazy Re.any) s "".
Proof. induction s; [constructor | now constructor]. Qed.

Lemma marker_line_inv (whole w : string) (tail : Re.re) s s' :
  Re.spans whole
    (Re.Cat (marker w) (Re.Cat (Re.Star Text.is_space) (Re.Cat (Re.lit_i Text.LF) tail)))
    s s' ->
  exists s1, Re.spans whole (marker_line w) s s1 /\ Re.spans whole tail s1 s'.
Proof.
  intros H.
  inversion H as [| |a b t1 t2 t3 Hm H1| | | | | | | | | |]; subst.
  inversion H1 as [| |a b u1 u2 u3 Hs H2| | | | | | | | | |]; subst.
  inversion H2 as [| |a b v1 v2 v3 Hl H3| | | | | | | | | |]; subst.
  exists v2. split; [|exact H3].
  unfold marker_line, Re.seq. cbn [foldr].
  repeat (econstructor; try eassumption).
Qed.

Lemma marker_line_then (whole w : string) (tail : Re.re) s s1 s' :
  Re.spans whole (marker_line w) s s1 -> Re.spans whole tail s1 s' ->
  Re.spans whole
    (Re.Cat (marker w) (Re.Cat (Re.Star Text.is_space) (Re.Cat (Re.lit_i Text.LF) tail)))
    s s'.
Proof.
  unfold marker_line, Re.seq. cbn [foldr]. intros H Ht.
  inversion H as [| |a b t1 t2 t3 Hm H1| | | | | | | | | |]; subst.
  inversion H1 as [| |a b u1 u2 u3 Hs H2| | | | | | | | | |]; subst.
  inversion H2 as [| |a b v1 v2 v3 Hl H3| | | | | | | | | |]; subst.
  inversion H3; subst.
  repeat (econstructor; try eassumption).
Qed.

(** [up_match] and [down_match] are found exactly in the texts that
    contain the marker. *)
Lemma up_match_iff (content : string) :
  is_Some (Re.search up_pattern content) <-> has_marker "UP" content.
Proof.
  rewrite search_iff. unfold has_marker, up_pattern, Re.seq. cbn [foldr].
  split; intros (before & rest & rest' & E & H).
  - apply marker_line_inv in H as (s1 & H & _). now exists before, rest, s1.
  - exists before, rest, "". split; [exact E|].
    eapply marker_line_then; [exact H|].
    econstructor; [constructor; apply lazy_any_to_end|].
    econstructor; [|constructor].
    apply Re.spans_ahead with (s' := ""). apply Re.spans_alt_r. now constructor.
Qed.

Lemma down_match_iff (content : string) :
  is_Some (Re.search down_pattern content) <-> has_marker "DOWN" content.
Proof.
  rewrite search_iff. unfold has_marker, down_pattern, Re.seq. cbn [foldr].
  split; intros (before & rest & rest' & E & H).
  - apply marker_line_inv in H as (s1 & H & _). now exists before, rest, s1.
  - exists before, rest, "". split; [exact E|].
    eapply marker_line_then; [exact H|].
    econstructor; [constructor; apply lazy_any_to_end|].
    econstructor; [|constructor]. now constructor.
Qed.

Lemma down_pattern_at (whole rest rest' : string) :
  Re.spans whole (marker_line "DOWN") rest rest' ->
  is_Some (Re.attempt whole down_pattern rest).
Proof.
  intros H. apply attempt_iff. exists "".
  unfold down_pattern, Re.seq. cbn [foldr].
  eapply marker_line_then; [exact H|].
  econstructor; [constructor; apply lazy_any_to_end|].
  econstructor; [|constructor]. now constructor.
Qed.

(** [down_sql] is the text after the first DOWN marker line, to the
    end of the file, trimmed. *)
Lemma down_sql_after_marker (content : string) :
  has_marker "DOWN" content ->
  exists before line body,
    content = before +:+ line +:+ body /\
    Re.spans content (marker_line "DOWN") (line +:+ body) body /\
    (forall b1 r1 r1',
       content = b1 +:+ r1 -> (String.length b1 < String.length before)%nat ->
       ~ Re.spans content (marker_line "DOWN") r1 r1') /\
    snd (_parse_sql content) = Text.strip body.
Proof.
  intros Hdown. apply down_match_iff in Hdown as [g Hg].
  unfold _parse_sql. cbn [snd]. rewrite Hg.
  apply search_from_first in Hg as (before & rest & E & Ha & Hfirst).
  apply down_attempt_inv in Ha as (s1 & s2 & Hline & Hlazy & Hend & ->).
  destruct (spans_suffix _ _ _ _ Hline) as [line ->].
  destruct (spans_suffix _ _ _ _ Hlazy) as [grp ->].
  exists before, line, (grp +:+ s2). split; [exact E|]. split; [exact Hline|]. split.
  - intros b1 r1 r1' E1 Hlen Hspan.
    destruct (down_pattern_at content r1 r1' Hspan) as [x Hx].
    rewrite (Hfirst b1 r1 E1 Hlen) in Hx. discriminate.
  - unfold Re.group1. cbn [default from_option id].
    rewrite E at 1. rewrite <- (append_assoc before line), cap_middle.
    now apply strip_to_end.
Qed.

(** C3, as the code has it. Without an UP marker [up_sql] is the whole
    text, trimmed. [down_sql] does not depend on the UP marker: it is
    empty when the text has no DOWN marker either, and otherwise it is
    what follows the first DOWN marker line of the text, up to its end,
    trimmed. *)
Theorem parse_sql_without_up_marker (content : string) :
  ~ has_marker "UP" content ->
  fst (_parse_sql content) = Text.strip content /\
  (~ has_marker "DOWN" content -> snd (_parse_sql content) = "") /\
  (has_marker "DOWN" content ->
   exists before line body,
     content = before +:+ line +:+ body /\
     Re.spans content (marker_line "DOWN") (line +:+ body) body /\
     (forall b1 r1 r1',
        content = b1 +:+ r1 -> (String.length b1 < String.length before)%nat ->
        ~ Re.spans content (marker_line "DOWN") r1 r1') /\
     snd (_parse_sql content) = Text.strip body).
Proof.
  intros Hup. split; [|split].
  - unfold _parse_sql. cbn [fst].
    destruct (Re.search up_pattern content) as [g|] eqn:U; [|reflexivity].
    exfalso. apply Hup, up_match_iff. rewrite U. eauto.
  - intros Hdown. unfold _parse_sql. cbn [snd].
    destruct (Re.search down_pattern content) as [g|] eqn:D; [|reflexivity].
    exfalso. apply Hdown, down_match_iff. rewrite D. eauto.
  - apply down_sql_after_marker.
Qed.

Lemma parse_sql_without_up_marker_witness :
  ~ has_marker "UP" down_only_file /\
  fst (_parse_sql down_only_file) = Text.strip down_only_file /\
  (~ has_marker "DOWN" down_only_file -> snd (_parse_sql down_only_file) = "") /\
  (has_marker "DOWN" down_only_file ->
   exists before line body,
     down_only_file = before +:+ line +:+ body /\
     Re.spans down_only_file (marker_line "DOWN") (line +:+ body) body /\
     (forall b1 r1 r1',
        down_only_file = b1 +:+ r1 -> (String.length b1 < String.length before)%nat ->
        ~ Re.spans down_only_file (marker_line "DOWN") r1 r1') /\
     snd (_parse_sql down_only_file) = Text.strip body).
Proof.
  assert (H : ~ has_marker "UP" down_only_file).
  { intros H. apply up_match_iff in H. vm_compute in H. now destruct H. }
  split; [exact H|]. exact (parse_sql_without_up_marker down_only_file H).
Defined.

(** C3 as stated fails: the file has no UP marker, and [down_sql] is
    [DROP TABLE t;], not empty. *)
Lemma parse_sql_down_section_without_up_marker :
  ~ (forall content, ~ has_marker "UP" content ->
       _parse_sql content = (Text.strip content, "")).
Proof.
  intros claim. specialize (claim down_only_file).
  assert (H : ~ has_marker "UP" down_only_file).
  { intros H. apply up_match_iff in H. vm_compute in H. now destruct H. }
  specialize (claim H). vm_compute in claim. discriminate claim.
Qed.

(** ** The loops of the runner, one migration at a time *)

Section Loops.
Context (env : Env) (self : MigrationRunner).

Lemma apply_migration_printed m d c : printed (apply_migration env m d c) = [].
Proof.
  destruct (apply_migration_outcome env m d c)
    as [(_ & ->) | [(_ & e0 & more & kept & w0 & -> & _) | (_ & rows & _ & _ & ->)]]; reflexivity.
Qed.

Lemma apply_migration_database m d c :
  database (after (apply_migration env m d c)) = database c.
Proof.
  destruct (apply_migration_outcome env m d c)
    as [(_ & ->) | [(_ & e0 & more & kept & w0 & -> & _) | (_ & rows & _ & _ & ->)]]; reflexivity.
Qed.

Lemma run_eta {A : Type} (r : Run A) :
  {| returned := returned r; after := after r; printed := printed r |} = r.
Proof. now destruct r. Qed.

Lemma migrate_loop_skip db_name migration rest c :
  scope_skipped env db_name migration = true ->
  migrate_loop env self db_name (migration :: rest) c
  = migrate_loop env self db_name rest c.
Proof.
  unfold scope_skipped. intros H. cbn [migrate_loop].
  destruct (String.eqb (scope migration) "host" && names_tenant db_name); [reflexivity|].
  cbn in H. now rewrite H.
Qed.

Lemma migrate_loop_dry_run db_name migration rest c :
  scope_skipped env db_name migration = false -> dry_run self = true ->
  migrate_loop env self db_name (migration :: rest) c
  = let r := migrate_loop env self db_name rest c in
    {| returned := returned r; after := after r;
       printed := WouldApply (version migration) (name migration) :: printed r |}.
Proof.
  unfold scope_skipped. intros H D. cbn [migrate_loop].
  apply orb_false_iff in H as [-> ->]. rewrite D.
  unfold bind, print. cbn. reflexivity.
Qed.

Lemma migrate_loop_step db_name migration rest c :
  scope_skipped env db_name migration = false -> dry_run self = false ->
  migrate_loop env self db_name (migration :: rest) c
  = let r := apply_migration env migration "up" c in
    match returned r with
    | Ok (_, ms) =>
        let r' := migrate_loop env self db_name rest (after r) in
        {| returned := returned r'; after := after r';
           printed := Applied (version migration) (name migration) ms :: printed r' |}
    | Raise e =>
        {| returned := Ok false; after := after (close env (after r));
           printed := [Failed (version migration) (name migration) e] |}
    end.
Proof.
  unfold scope_skipped. intros H D. cbn [migrate_loop].
  apply orb_false_iff in H as [-> ->]. rewrite D.
  unfold bind, try_except, print, close.
  destruct (apply_migration_outcome env migration "up" c)
    as [(_ & ->) | [(_ & e0 & more & kept & w0 & -> & _) | (_ & rows & _ & _ & ->)]]; norm; reflexivity.
Qed.

Lemma rollback_loop_dry_run migration rest c :
  dry_run self = true ->
  rollback_loop env self (migration :: rest) c
  = let r := rollback_loop env self rest c in
    {| returned := returned r; after := after r;
       printed := WouldRollback (version migration) (name migration) :: printed r |}.
Proof.
  intros D. cbn [rollback_loop]. rewrite D. unfold bind, print. cbn. reflexivity.
Qed.

Lemma rollback_loop_step migration rest c :
  dry_run self = false ->
  rollback_loop env self (migration :: rest) c
  = let r := apply_migration env migration "down" c in
    match returned r with
    | Ok (_, ms) =>
        let r' := rollback_loop env self rest (after r) in
        {| returned := returned r'; after := after r';
           printed := RolledBack (version migration) (name migration) ms :: printed r' |}
    | Raise e =>
        {| returned := Ok false; after := after (close env (after r));
           printed := [Failed (version migration) (name migration) e] |}
    end.
Proof.
  intros D. cbn [rollback_loop]. rewrite D.
  unfold bind, try_except, print, close.
  destruct (apply_migration_outcome env migration "down" c)
    as [(_ & ->) | [(_ & e0 & more & kept & w0 & -> & _) | (_ & rows & _ & _ & ->)]]; norm; reflexivity.
Qed.

End Loops.

(** ** One database at a time *)

Section Databases.
Context (env : Env) (self : MigrationRunner).

(** A run on one database leaves every other database as it was. *)
Lemma in_connection_frame db_name db_label body (w : World) (other : string) :
  other <> resolved env db_name ->
  databases (snd (in_connection env db_name db_label body w)) !! other
  = databases w !! other.
Proof.
  intros Hne. unfold in_connection, _get_db_connection.
  destruct (refuses env (resolved env db_name)); [reflexivity|].
  destruct (databases w !! resolved env db_name) as [s|]; [|reflexivity].
  cbn. destruct (returned (body _)); cbn; now rewrite lookup_insert_ne.
Qed.

(** What a run does to its database depends on that database only. *)
Lemma in_connection_local db_name db_label body (w1 w2 : World) :
  databases w1 !! resolved env db_name = databases w2 !! resolved env db_name ->
  fst (in_connection env db_name db_label body w1)
  = fst (in_connection env db_name db_label body w2) /\
  databases (snd (in_connection env db_name db_label body w1)) !! resolved env db_name
  = databases (snd (in_connection env db_name db_label body w2)) !! resolved env db_name.
Proof.
  intros E. unfold in_connection, _get_db_connection.
  destruct (refuses env (resolved env db_name)); [now split|].
  destruct (databases w2 !! resolved env db_name) as [s|] eqn:L; rewrite E.
  - cbn. destruct (returned (body _)); cbn; now rewrite !lookup_insert_eq.
  - cbn. split; [reflexivity | congruence].
Qed.

(** The shape shared by [migrate_all] and [rollback_all]: a step per
    database, folded over the databases in order. *)
Section Sequence.
Context (step : World -> string * string -> World).
Context (key : string * string -> string).
Hypothesis step_frame : forall w x other,
  other <> key x -> databases (step w x) !! other = databases w !! other.
Hypothesis step_local : forall w1 w2 x,
  databases w1 !! key x = databases w2 !! key x ->
  databases (step w1 x) !! key x = databases (step w2 x) !! key x.

Lemma foldl_frame (l : list (string * string)) (w : World) (other : string) :
  other ∉ map key l ->
  databases (foldl step w l) !! other = databases w !! other.
Proof using step_frame.
  revert w. induction l as [|y l IH]; intros w Hn; [reflexivity|].
  cbn in *. apply not_elem_of_cons in Hn as [Hy Hl].
  rewrite IH by assumption. now apply step_frame.
Qed.

Lemma foldl_each (l : list (string * string)) (w : World) (x : string * string) :
  NoDup (map key l) -> x ∈ l ->
  databases (foldl step w l) !! key x = databases (step w x) !! key x.
Proof using step_frame step_local.
  revert w. induction l as [|y l IH]; intros w Hd Hx; [inversion Hx|].
  cbn in Hd. apply NoDup_cons in Hd as [Hy Hd]. cbn [foldl].
  destruct (decide (x = y)) as [->|Hxy].
  - now apply foldl_frame.
  - apply elem_of_cons in Hx as [?|Hx]; [contradiction|].
    rewrite IH by assumption.
    apply step_local, step_frame.
    intros E. apply Hy. rewrite <- E. now apply (list_elem_of_fmap_2 key).
Qed.

End Sequence.

Lemma migrate_database_frame db_name db_label target_version w other :
  other <> resolved env db_name ->
  databases (snd (migrate_database env self db_name db_label target_version w)) !! other
  = databases w !! other.
Proof. apply in_connection_frame. Qed.

Lemma migrate_database_local db_name db_label target_version w1 w2 :
  databases w1 !! resolved env db_name = databases w2 !! resolved env db_name ->
  databases (snd (migrate_database env self db_name db_label target_version w1))
    !! resolved env db_name
  = databases (snd (migrate_database env self db_name db_label target_version w2))
    !! resolved env db_name.
Proof. intros E. now apply in_connection_local. Qed.

Lemma migrate_all_each target_version (w : World) db_name db_label :
  NoDup (map (fun x => resolved env (fst x)) (all_databases env)) ->
  (db_name, db_label) ∈ all_databases env ->
  databases (migrate_all env self target_version w) !! resolved env db_name
  = databases (snd (migrate_database env self db_name db_label target_version w))
      !! resolved env db_name.
Proof.
  unfold all_databases. set (tenant_dbs := fst (get_all_tenant_databases env)).
  intros Hd Hx. cbn [map fst] in Hd. apply NoDup_cons in Hd as [Hhost Hd].
  rewrite <- list_fmap_compose in Hd, Hhost.
  unfold migrate_all. fold tenant_dbs. cbv zeta.
  set (wa := say (Say "MIGRATING HOST DATABASE") _).
  set (wb := tell _ (snd (migrate_database env self (POSTGRES_DATABASE env) "HOST"
                            target_version wa))).
  set (step := fun (w : World) (t : string * string) =>
                 snd (migrate_database env self (snd t) ("TENANT " +:+ fst t)
                        target_version w)).
  set (key := fun t : string * string => resolved env (snd t)).
  assert (Hwa : databases wa = databases w).
  { subst wa. now destruct (dry_run self). }
  assert (Hphase : exists w', databases w' = databases wb /\
            databases (match tenant_dbs with
                       | [] => wb
                       | _ => foldl step (say (MigratingTenants (length tenant_dbs)) wb)
                                tenant_dbs
                       end) = databases (foldl step w' tenant_dbs)).
  { destruct tenant_dbs as [|t0 ts]; [now exists wb|].
    now exists (say (MigratingTenants (length (t0 :: ts))) wb). }
  destruct Hphase as (w' & Hw' & Hphase).
  change (databases (say (Say "MIGRATION COMPLETE") ?x)) with (databases x).
  rewrite Hphase.
  assert (Hframe : forall w x other, other <> key x ->
            databases (step w x) !! other = databases w !! other).
  { intros. now apply migrate_database_frame. }
  assert (Hlocal : forall w1 w2 x, databases w1 !! key x = databases w2 !! key x ->
            databases (step w1 x) !! key x = databases (step w2 x) !! key x).
  { intros. now apply migrate_database_local. }
  apply elem_of_cons in Hx as [[= -> ->]|Hx].
  - rewrite (foldl_frame step key Hframe) by exact Hhost.
    rewrite Hw'. subst wb. cbn [tell databases].
    apply migrate_database_local. now rewrite Hwa.
  - apply list_elem_of_fmap in Hx as (t & [= -> ->] & Ht).
    change (databases (foldl step w' tenant_dbs) !! key t = databases (step w t) !! key t).
    rewrite (foldl_each step key Hframe Hlocal tenant_dbs w' t Hd Ht).
    apply (Hlocal w' w t). rewrite Hw'. subst wb. cbn [tell databases].
    rewrite migrate_database_frame; [now rewrite Hwa|].
    intros E. apply Hhost. unfold key in E. rewrite <- E.
    now apply (list_elem_of_fmap_2 (fun x => resolved env (snd x))).
Qed.

(** C2. When a migration fails, the loop over this database's pending
    migrations ends there: the failure is printed, the connection is
    closed, [False] is returned, and whatever was still pending plays no
    part. The run over all databases goes on all the same: each
    database, the host first and then the tenants in the order of the
    lookup, ends in the state that migrating it on its own gives,
    whether or not an earlier database failed. *)
Theorem failure_stops_one_database_only :
  (forall db_name migration rest c e,
     dry_run self = false ->
     scope_skipped env db_name migration = false ->
     returned (apply_migration env migration "up" c) = Raise e ->
     migrate_loop env self db_name (migration :: rest) c
     = {| returned := Ok false;
          after := after (close env (after (apply_migration env migration "up" c)));
          printed := [Failed (version migration) (name migration) e] |})
  /\
  (forall target_version w db_name db_label,
     NoDup (map (fun x => resolved env (fst x)) (all_databases env)) ->
     (db_name, db_label) ∈ all_databases env ->
     databases (migrate_all env self target_version w) !! resolved env db_name
     = databases (snd (migrate_database env self db_name db_label target_version w))
         !! resolved env db_name).
Proof.
  split.
  - intros db_name migration rest c e D S F.
    rewrite migrate_loop_step by assumption. cbv zeta. now rewrite F.
  - intros. now apply migrate_all_each.
Qed.

End Databases.

(** ** Runs in which no call raises *)

Section Quiet.
Context (env : Env) (self : MigrationRunner).
Hypothesis env_quiet : quiet env.

Lemma call_quiet (op : Op) (c : Conn) :
  call env op c =
    match effect env op c with
    | Some c' => {| returned := Ok tt; after := logged op c'; printed := [] |}
    | None => {| returned := Raise (DriverError op); after := logged op c; printed := [] |}
    end.
Proof using env_quiet.
  unfold call. replace (driver_raises env op c) with false; [reflexivity|].
  destruct op; cbn; now rewrite ?env_quiet.
Qed.

Lemma key_taken_false (r : Row) (rows : list Row) :
  key_taken r rows = false <->
  ~ records rows (row_version r) (row_direction r).
Proof.
  unfold key_taken, records. induction rows as [|r' rows IH]; cbn.
  - split; [|reflexivity]. intros _ (x & Hx & _). inversion Hx.
  - rewrite orb_false_iff, IH. unfold same_key. split.
    + intros [Hk Hn] (x & [->|Hx]%elem_of_cons & Hv & Hd).
      * rewrite Hv, Hd, Z.eqb_refl, String.eqb_refl in Hk. discriminate.
      * apply Hn. eauto.
    + intros Hn. split.
      * destruct (Z.eqb_spec (row_version r) (row_version r')) as [E|]; [|reflexivity].
        destruct (String.eqb_spec (row_direction r) (row_direction r')) as [E'|];
          [|reflexivity].
        exfalso. apply Hn. exists r'. split; [left|]. auto.
      * intros (x & Hx & Hv & Hd). apply Hn. exists x. split; [now right|]. auto.
Qed.

Lemma records_dec (rows : list Row) (v : Z) (direction : string) :
  records rows v direction \/ ~ records rows v direction.
Proof.
  unfold records. induction rows as [|r rows [IH|IH]].
  - right. intros (x & Hx & _). inversion Hx.
  - left. destruct IH as (x & Hx & H). exists x. split; [now right | exact H].
  - destruct (decide (row_version r = v /\ row_direction r = direction)) as [H|H].
    + left. exists r. split; [left | exact H].
    + right. intros (x & [->|Hx]%elem_of_cons & Hv); [now apply H | apply IH; eauto].
Qed.

(** In a quiet environment [apply_migration] succeeds exactly when the
    direction has SQL, the table exists and the key is free. *)
Lemma apply_migration_quiet migration direction c rows :
  sql_of migration direction <> "" ->
  table (working c) = Some rows ->
  ~ records rows (version migration) direction ->
  exists ms,
    let row := tracking_row env migration direction ms in
    let done := {| executed := executed (working c) ++ [sql_of migration direction];
                   table := Some (rows ++ [row]) |} in
    apply_migration env migration direction c =
      {| returned := Ok (true, ms);
         after := {| database := database c; committed := done; working := done;
                     calls := calls c ++ [Execute (Body (sql_of migration direction));
                                          Execute (Insert row); Commit] |};
         printed := [] |}.
Proof using env_quiet.
  intros Hsql Ht Hk. unfold apply_migration.
  apply String.eqb_neq in Hsql. rewrite Hsql.
  unfold try_except, bind, execute, commit, execution_time_since_start.
  rewrite call_quiet. cbn [effect exec_stmt]. norm.
  rewrite call_quiet. cbn [effect exec_stmt working table]. rewrite Ht.
  match goal with |- context [key_taken ?r rows] =>
    replace (key_taken r rows) with false by (symmetry; now apply key_taken_false) end.
  norm. rewrite call_quiet. norm.
  eexists. rewrite <- ?app_assoc. reflexivity.
Qed.

(** A failure of [apply_migration] leaves the database as committed
    before, when the body does not end its transaction. *)
Lemma apply_migration_raise migration direction c e :
  ends_transaction env (sql_of migration direction) = false ->
  returned (apply_migration env migration direction c) = Raise e ->
  committed (after (apply_migration env migration direction c)) = committed c.
Proof.
  intros Hp.
  destruct (apply_migration_outcome env migration direction c)
    as [(_ & ->) | [(_ & e0 & more & kept & w0 & -> & [->|[Hq _]] & _)
                   | (_ & rows & _ & _ & ->)]]; cbn;
    [auto | auto | congruence | discriminate].
Qed.

(** In a quiet environment a failure has one of three causes. *)
Lemma apply_migration_quiet_raise migration direction c rows e :
  table (working c) = Some rows ->
  returned (apply_migration env migration direction c) = Raise e ->
  sql_of migration direction = "" \/ records rows (version migration) direction.
Proof using env_quiet.
  intros Ht Hr.
  destruct (String.eqb_spec (sql_of migration direction) "") as [|Hsql]; [now left|].
  right. destruct (records_dec rows (version migration) direction) as [H|H]; [exact H|].
  destruct (apply_migration_quiet migration direction c rows Hsql Ht H) as [ms E].
  cbv zeta in E. rewrite E in Hr. discriminate.
Qed.

(** Both loops, over the migrations they do not pass over, have one
    shape: apply, report, go on; or report the failure, close and stop. *)
Section Loop.
Context (loop : list MigrationFile -> M bool) (direction : string).
Context (report : MigrationFile -> Z -> Out) (taken : MigrationFile -> Prop).
Hypothesis loop_nil : forall c, loop [] c = (close env ;; ret true) c.
Hypothesis loop_cons : forall migration rest c,
  taken migration ->
  loop (migration :: rest) c
  = let r := apply_migration env migration direction c in
    match returned r with
    | Ok (_, ms) =>
        let r' := loop rest (after r) in
        {| returned := returned r'; after := after r';
           printed := report migration ms :: printed r' |}
    | Raise e =>
        {| returned := Ok false; after := after (close env (after r));
           printed := [Failed (version migration) (name migration) e] |}
    end.

Lemma loop_quiet (todo : list MigrationFile) :
  forall c rows,
    Forall taken todo ->
    working c = committed c ->
    table (working c) = Some rows ->
    (exists b, returned (loop todo c) = Ok b) /\
    (returned (loop todo c) = Ok true -> advanced direction todo rows c (after (loop todo c))) /\
    (Forall (fun m => sql_of m direction <> "") todo ->
     NoDup (map version todo) ->
     Forall (fun m => ~ records rows (version m) direction) todo ->
     returned (loop todo c) = Ok true).
Proof using env_quiet loop_nil loop_cons.
  induction todo as [|m todo IH]; intros c rows Hall Hw Ht.
  - rewrite loop_nil. unfold bind. norm. split; [eauto|]. split; [|reflexivity].
    intros _. repeat split; cbn; [now rewrite app_nil_r|].
    exists []. rewrite app_nil_r, <- Hw. auto.
  - apply Forall_cons in Hall as [Hm Hall]. rewrite (loop_cons m todo c Hm). cbv zeta.
    destruct (returned (apply_migration env m direction c)) as [[b ms]|e] eqn:R.
    + destruct (apply_migration_outcome env m direction c)
        as [(_ & E) | [(_ & e0 & more & kept & w0 & E & _) | (Hs & rows0 & Ht0 & Hk & E)]];
        [rewrite E in R; discriminate .. |].
      cbv zeta in E. rewrite Ht in Ht0. injection Ht0 as <-.
      rewrite E in R. injection R as <- <-. rewrite E. cbn [after returned printed].
      set (row := tracking_row env m direction _) in *.
      match goal with |- context [loop todo ?x] => set (c1 := x) in * end.
      destruct (IH c1 (rows ++ [row]) Hall eq_refl eq_refl) as (Hb & Hadv & Hok).
      split; [exact Hb|]. split.
      * intros Htrue. destruct (Hadv Htrue) as (A1 & A2 & A3 & rows' & A4 & A5 & A6).
        repeat split; [exact A1 | exact A2 | |].
        -- rewrite A3. cbn. rewrite <- Hw, <- app_assoc. reflexivity.
        -- exists (row :: rows'). rewrite A4, <- app_assoc. cbn.
           repeat split; [now rewrite A5 | now constructor].
      * intros Hsql Hnd Hfree. cbn in Hnd.
        apply NoDup_cons in Hnd as [Hv Hnd].
        apply Forall_cons in Hsql as [_ Hsql]. apply Forall_cons in Hfree as [_ Hfree].
        apply Hok; [assumption .. |].
        apply Forall_forall. intros m' Hm' (x & Hx & Hxv & Hxd).
        apply elem_of_app in Hx as [Hx|Hx%list_elem_of_singleton].
        -- rewrite Forall_forall in Hfree. apply (Hfree m' Hm'). exists x. auto.
        -- subst x. cbn in Hxv. apply Hv. rewrite Hxv.
           now apply (list_elem_of_fmap_2 version).
    + split; [eauto|]. split; [discriminate|].
      intros Hsql Hnd Hfree. exfalso.
      apply Forall_cons in Hsql as [Hsql _]. apply Forall_cons in Hfree as [Hfree _].
      destruct (apply_migration_quiet_raise m direction c rows e Ht R); contradiction.
Qed.

End Loop.

Lemma migrate_loop_applicable db_name (pending : list MigrationFile) (c : Conn) :
  migrate_loop env self db_name pending c
  = migrate_loop env self db_name (applicable env db_name pending) c.
Proof.
  unfold applicable. revert c. induction pending as [|m pending IH]; intros c; [reflexivity|].
  destruct (scope_skipped env db_name m) eqn:S.
  - rewrite migrate_loop_skip by exact S. rewrite filter_cons_False; [apply IH|].
    rewrite S. discriminate.
  - rewrite filter_cons_True by exact S.
    destruct (dry_run self) eqn:D.
    + rewrite !migrate_loop_dry_run by assumption. cbv zeta. now rewrite IH.
    + rewrite !migrate_loop_step by assumption. cbv zeta.
      destruct (returned (apply_migration env m "up" c)) as [[b ms]|e]; [|reflexivity].
      now rewrite IH.
Qed.

Lemma applicable_taken db_name (pending : list MigrationFile) :
  Forall (fun m => scope_skipped env db_name m = false) (applicable env db_name pending).
Proof. apply Forall_forall. intros m Hm. now apply list_elem_of_filter in Hm as [? _]. Qed.

(** The forward loop in a quiet environment. *)
Lemma migrate_loop_quiet db_name (pending : list MigrationFile) (c : Conn) rows :
  dry_run self = false ->
  working c = committed c ->
  table (working c) = Some rows ->
  let todo := applicable env db_name pending in
  let r := migrate_loop env self db_name pending c in
  (exists b, returned r = Ok b) /\
  (returned r = Ok true -> advanced "up" todo rows c (after r)) /\
  (Forall (fun m => up_sql m <> "") todo ->
   NoDup (map version todo) ->
   Forall (fun m => ~ records rows (version m) "up") todo ->
   returned r = Ok true).
Proof using env_quiet.
  intros D Hw Ht. cbv zeta. rewrite migrate_loop_applicable.
  apply (loop_quiet (migrate_loop env self db_name) "up"
           (fun m ms => Applied (version m) (name m) ms)
           (fun m => scope_skipped env db_name m = false)); try assumption.
  - reflexivity.
  - intros. now apply migrate_loop_step.
  - apply applicable_taken.
Qed.

(** The backward loop in a quiet environment. *)
Lemma rollback_loop_quiet (to_rollback : list MigrationFile) (c : Conn) rows :
  dry_run self = false ->
  working c = committed c ->
  table (working c) = Some rows ->
  let r := rollback_loop env self to_rollback c in
  (exists b, returned r = Ok b) /\
  (returned r = Ok true -> advanced "down" to_rollback rows c (after r)) /\
  (Forall (fun m => down_sql m <> "") to_rollback ->
   NoDup (map version to_rollback) ->
   Forall (fun m => ~ records rows (version m) "down") to_rollback ->
   returned r = Ok true).
Proof using env_quiet.
  intros D Hw Ht. cbv zeta.
  apply (loop_quiet (rollback_loop env self) "down"
           (fun m ms => RolledBack (version m) (name m) ms)
           (fun _ => True)); try assumption.
  - reflexivity.
  - intros. now apply rollback_loop_step.
  - now apply Forall_true.
Qed.

End Quiet.

(** ** One database in a quiet environment *)

Section QuietDatabase.
Context (env : Env) (self : MigrationRunner).
Hypothesis env_quiet : quiet env.

Lemma up_versions_app (a b : list Row) :
  up_versions (a ++ b) = up_versions a ++ up_versions b.
Proof. unfold up_versions. now rewrite filter_app, map_app. Qed.

Lemma up_versions_all_up (rows : list Row) :
  Forall (fun r => row_direction r = "up") rows -> up_versions rows = map row_version rows.
Proof.
  unfold up_versions. induction 1 as [|r rows Hr _ IH]; [reflexivity|].
  rewrite filter_cons_True by exact Hr. cbn. now rewrite IH.
Qed.

Lemma up_versions_all_down (rows : list Row) :
  Forall (fun r => row_direction r = "down") rows -> up_versions rows = [].
Proof.
  unfold up_versions. induction 1 as [|r rows Hr _ IH]; [reflexivity|].
  rewrite filter_cons_False; [exact IH|]. rewrite Hr. discriminate.
Qed.

Lemma records_up_versions (rows : list Row) (v : Z) :
  records rows v "up" <-> v ∈ up_versions rows.
Proof.
  unfold records, up_versions. split.
  - intros (r & Hr & <- & Hd). apply (list_elem_of_fmap_2 row_version).
    now apply list_elem_of_filter.
  - intros (r & -> & Hr)%list_elem_of_fmap. apply list_elem_of_filter in Hr as [Hd Hr].
    eauto.
Qed.

(** The version a quiet [get_current_version] reads from these rows. *)
Lemma no_up_row_above_current (rows : list Row) (v : Z) :
  (v > default 0 (max_list (up_versions rows)))%Z -> ~ records rows v "up".
Proof.
  intros Hv Hr%records_up_versions.
  pose proof (max_list_spec (up_versions rows)) as Hm.
  destruct (max_list (up_versions rows)) as [x|]; cbn in Hv.
  - destruct Hm as [_ Hm]. specialize (Hm v Hr). lia.
  - rewrite Hm in Hr. inversion Hr.
Qed.

Lemma ensure_quiet (c : Conn) :
  _ensure_migration_table env c
  = let s := {| executed := executed (working c);
                table := Some (default [] (table (working c))) |} in
    {| returned := Ok tt;
       after := {| database := database c; committed := s; working := s;
                   calls := calls c ++ [Execute CreateTable; Commit] |};
       printed := [] |}.
Proof using env_quiet.
  unfold _ensure_migration_table, bind, execute, commit.
  rewrite !call_quiet by assumption. norm. rewrite !call_quiet by assumption. norm.
  now rewrite <- ?app_assoc.
Qed.

Lemma get_current_version_quiet (c : Conn) :
  get_current_version env c
  = let rows := default [] (table (working c)) in
    let s := {| executed := executed (working c); table := Some rows |} in
    {| returned := Ok (default 0%Z (max_list (up_versions rows)));
       after := {| database := database c; committed := s; working := s;
                   calls := calls c ++ [Execute CreateTable; Commit; Execute SelectMax] |};
       printed := [] |}.
Proof using env_quiet.
  rewrite get_current_version_unfold. cbv zeta.
  unfold version_query, bind. rewrite ensure_quiet. norm.
  unfold execute. rewrite call_quiet by assumption. norm.
  unfold max_up_version. cbn. now rewrite <- ?app_assoc.
Qed.

(** [_ensure_migration_table] and then [get_current_version], on a
    connection with no open work. *)
Lemma version_read_quiet (c : Conn) :
  working c = committed c ->
  let rows := default [] (table (committed c)) in
  let s := {| executed := executed (committed c); table := Some rows |} in
  (_ensure_migration_table env ;; get_current_version env) c
  = {| returned := Ok (default 0%Z (max_list (up_versions rows)));
       after := {| database := database c; committed := s; working := s;
                   calls := calls c ++ [Execute CreateTable; Commit; Execute CreateTable;
                                        Commit; Execute SelectMax] |};
       printed := [] |}.
Proof using env_quiet.
  intros Hw. cbv zeta. unfold bind. rewrite ensure_quiet. norm.
  rewrite get_current_version_quiet. norm.
  rewrite Hw, <- ?app_assoc. reflexivity.
Qed.

(** The connection after the version has been read. *)
Lemma migrate_database_body_quiet_unfold db_name db_label target_version (c : Conn) :
  working c = committed c ->
  let rows := default [] (table (committed c)) in
  let s := {| executed := executed (committed c); table := Some rows |} in
  let c2 := {| database := database c; committed := s; working := s;
               calls := calls c ++ [Execute CreateTable; Commit; Execute CreateTable;
                                    Commit; Execute SelectMax] |} in
  let current := default 0%Z (max_list (up_versions rows)) in
  let found := discover_migrations env None in
  let pending := pending_migrations current target_version (fst found) in
  migrate_database_body env self db_name db_label target_version c
  = match last pending with
    | None =>
        {| returned := Ok true; after := after (close env c2);
           printed := snd found ++ [UpToDate db_label current] |}
    | Some newest =>
        let r := migrate_loop env self db_name pending c2 in
        {| returned := returned r; after := after r;
           printed := snd found
                      ++ MigrateHeader db_label current (version newest) :: printed r |}
    end.
Proof using env_quiet.
  destruct c as [d cm wk cl]. cbn. intros ->.
  unfold migrate_database_body, bind. rewrite ensure_quiet. norm.
  rewrite get_current_version_quiet. norm.
  unfold printing. norm. rewrite <- ?app_assoc. cbn.
  destruct (last (pending_migrations _ target_version _)) as [newest|]; norm.
  - unfold print. norm. now destruct (migrate_loop env self db_name _ _).
  - unfold print. norm. now rewrite <- ?app_assoc.
Qed.

(** [migrate_database] in a quiet environment: it returns; when it
    returns [True] it has applied the pending migrations that are not
    passed over, and nothing else; and it returns [True] when these have
    SQL and distinct versions. *)
Lemma migrate_database_body_quiet db_name db_label target_version (c : Conn) :
  dry_run self = false ->
  working c = committed c ->
  let rows := default [] (table (committed c)) in
  let current := default 0%Z (max_list (up_versions rows)) in
  let pending :=
    pending_migrations current target_version (fst (discover_migrations env None)) in
  let todo := applicable env db_name pending in
  let r := migrate_database_body env self db_name db_label target_version c in
  (exists b, returned r = Ok b) /\
  (returned r = Ok true -> advanced "up" todo rows c (after r)) /\
  (Forall (fun m => up_sql m <> "") todo -> NoDup (map version todo) ->
   returned r = Ok true).
Proof using env_quiet.
  intros D Hw. cbv zeta.
  rewrite migrate_database_body_quiet_unfold by exact Hw. cbv zeta.
  set (rows := default [] (table (committed c))).
  set (current := default 0%Z (max_list (up_versions rows))).
  set (pending := pending_migrations current target_version _).
  set (c2 := {| database := database c |}).
  destruct (last pending) as [newest|] eqn:L.
  - destruct (migrate_loop_quiet env self env_quiet db_name pending c2 rows D eq_refl eq_refl)
      as (Hb & Hadv & Hok). cbn [returned after].
    split; [exact Hb|]. split.
    + intros Ht. destruct (Hadv Ht) as (A1 & A2 & A3 & A4). now repeat split.
    + intros Hsql Hnd. apply Hok; [assumption .. |].
      apply Forall_forall. intros m Hm.
      apply no_up_row_above_current. fold rows. fold current.
      apply list_elem_of_filter in Hm as [_ Hm]. unfold pending, pending_migrations in Hm.
      destruct (truthy target_version);
        [apply list_elem_of_filter in Hm as [_ Hm]|];
        now apply list_elem_of_filter in Hm as [Hm _].
  - apply last_None in L. rewrite L. cbn [returned after]. norm.
    split; [eauto|]. split; [|reflexivity]. intros _.
    repeat split; cbn; [now rewrite app_nil_r|].
    exists []. rewrite app_nil_r. auto.
Qed.

End QuietDatabase.

(** ** Scope and the forward loop *)

Section Scope.
Context (env : Env) (self : MigrationRunner).

Lemma scope_skipped_iff db_name migration :
  scope_skipped env db_name migration = true <->
  (scope migration = "host" /\ names_tenant db_name = true) \/
  (scope migration = "tenant" /\ db_name = POSTGRES_DATABASE env).
Proof.
  unfold scope_skipped, is_host.
  rewrite orb_true_iff, !andb_true_iff, !String.eqb_eq. reflexivity.
Qed.

(** What a run on one database is, once the connection is open. *)
Lemma in_connection_open db_name db_label body (w : World) (s : Store) :
  refuses env (resolved env db_name) = false ->
  databases w !! resolved env db_name = Some s ->
  let c := {| database := resolved env db_name; committed := s; working := s;
              calls := [] |} in
  forall b, returned (body c) = Ok b ->
  in_connection env db_name db_label body w
  = (b, {| databases := <[resolved env db_name := committed (after (body c))]> (databases w);
           console := console w ++ printed (body c) |}).
Proof.
  intros Hr Hl c b Hb. unfold in_connection, _get_db_connection.
  rewrite Hr, Hl. fold c. cbn. now rewrite Hb.
Qed.

Lemma example_discovered (init add_col : string) :
  listing env "host" = Some [("001_init.sql", init)] ->
  listing env "tenant" = Some [("002_add_col.sql", add_col)] ->
  listing env "both" = None ->
  discover_migrations env None = ([example_init init; example_add_col add_col], []).
Proof.
  intros H1 H2 H3. unfold discover_migrations, load_scopes. rewrite H1, H2, H3.
  cbv -[_parse_sql]. reflexivity.
Qed.

Lemma example_on_database (init add_col : string) (todo : list MigrationFile)
    db_name db_label (w : World) (s : Store) :
  quiet env -> dry_run self = false ->
  listing env "host" = Some [("001_init.sql", init)] ->
  listing env "tenant" = Some [("002_add_col.sql", add_col)] ->
  listing env "both" = None ->
  refuses env (resolved env db_name) = false ->
  databases w !! resolved env db_name = Some s ->
  up_versions (default [] (table s)) = [] ->
  applicable env db_name [example_init init; example_add_col add_col] = todo ->
  Forall (fun m => up_sql m <> "") todo -> NoDup (map version todo) ->
  let result := migrate_database env self db_name db_label None w in
  fst result = true /\
  exists s', databases (snd result) !! resolved env db_name = Some s' /\
    executed s' = executed s ++ map up_sql todo /\
    up_versions (default [] (table s')) = map version todo.
Proof.
  intros Q D H1 H2 H3 Hr Hl Hfresh Htodo Hsql Hnd. cbv zeta.
  set (c := {| database := resolved env db_name; committed := s; working := s;
               calls := [] |}).
  destruct (migrate_database_body_quiet env self Q db_name db_label None c D eq_refl)
    as (_ & Hadv & Hok).
  cbn [committed c] in Hadv, Hok.
  rewrite Hfresh, (example_discovered init add_col H1 H2 H3) in Hadv, Hok.
  change (pending_migrations _ None _)
    with [example_init init; example_add_col add_col] in Hadv, Hok.
  rewrite Htodo in Hadv, Hok. specialize (Hok Hsql Hnd).
  destruct (Hadv Hok) as (_ & _ & Hex & rows' & Ht & Hv & Hup).
  unfold migrate_database.
  rewrite (in_connection_open db_name db_label _ w s Hr Hl true Hok). cbn [fst snd databases].
  split; [reflexivity|]. fold c. rewrite lookup_insert_eq. eexists. split; [reflexivity|].
  split; [exact Hex|].
  rewrite Ht. cbn [default from_option id]. rewrite up_versions_app, Hfresh.
  rewrite (up_versions_all_up rows' Hup). exact Hv.
Qed.

(** C5, as the code has it. In the forward loop a pending migration is
    passed over, and the loop goes on with the next one, exactly when
    its scope is ['host'] and the database name contains [tenant], in
    any case of letters, or its scope is ['tenant'] and the database
    name is that of the host database; scope ['both'] is never passed
    over, and a migration that is not passed over is applied. With
    [host/001_init.sql] and [tenant/002_add_col.sql], and no error from
    the driver, a fresh host database whose name does not contain
    [tenant] gets version 1 only, and a fresh database whose name
    contains [tenant] and is not the host's gets version 2 only. *)
Theorem scope_decides_what_is_applied :
  (forall db_name migration,
     scope_skipped env db_name migration = true <->
     (scope migration = "host" /\ names_tenant db_name = true) \/
     (scope migration = "tenant" /\ db_name = POSTGRES_DATABASE env))
  /\
  (forall db_name migration,
     scope migration = "both" -> scope_skipped env db_name migration = false)
  /\
  (forall db_name migration rest c,
     scope_skipped env db_name migration = true ->
     migrate_loop env self db_name (migration :: rest) c
     = migrate_loop env self db_name rest c)
  /\
  (forall db_name migration rest c,
     scope_skipped env db_name migration = false -> dry_run self = false ->
     migrate_loop env self db_name (migration :: rest) c
     = let r := apply_migration env migration "up" c in
       match returned r with
       | Ok (_, ms) =>
           let r' := migrate_loop env self db_name rest (after r) in
           {| returned := returned r'; after := after r';
              printed := Applied (version migration) (name migration) ms :: printed r' |}
       | Raise e =>
           {| returned := Ok false; after := after (close env (after r));
              printed := [Failed (version migration) (name migration) e] |}
       end)
  /\
  (forall init add_col db_name db_label w s,
     quiet env -> dry_run self = false ->
     listing env "host" = Some [("001_init.sql", init)] ->
     listing env "tenant" = Some [("002_add_col.sql", add_col)] ->
     listing env "both" = None ->
     fst (_parse_sql init) <> "" -> fst (_parse_sql add_col) <> "" ->
     refuses env (resolved env db_name) = false ->
     databases w !! resolved env db_name = Some s ->
     up_versions (default [] (table s)) = [] ->
     let result := migrate_database env self db_name db_label None w in
     (is_host env db_name = true -> names_tenant db_name = false ->
      fst result = true /\
      exists s', databases (snd result) !! resolved env db_name = Some s' /\
        executed s' = executed s ++ [fst (_parse_sql init)] /\
        up_versions (default [] (table s')) = [1%Z])
     /\
     (names_tenant db_name = true -> is_host env db_name = false ->
      fst result = true /\
      exists s', databases (snd result) !! resolved env db_name = Some s' /\
        executed s' = executed s ++ [fst (_parse_sql add_col)] /\
        up_versions (default [] (table s')) = [2%Z])).
Proof.
  split; [apply scope_skipped_iff|].
  split. { intros db_name migration E. unfold scope_skipped. now rewrite E. }
  split. { intros. now apply migrate_loop_skip. }
  split. { intros. now apply migrate_loop_step. }
  intros init add_col db_name db_label w s Q D H1 H2 H3 U1 U2 Hr Hl Hfresh. cbv zeta.
  split.
  - intros Hhost Hnt.
    apply (example_on_database init add_col [example_init init] db_name db_label w s);
      try assumption.
    + unfold applicable. rewrite filter_cons_True, filter_cons_False; [reflexivity | |].
      * unfold scope_skipped. cbn. rewrite Hhost. discriminate.
      * unfold scope_skipped. cbn. now rewrite Hnt.
    + now constructor.
    + cbn. apply NoDup_singleton.
  - intros Hnt Hhost.
    apply (example_on_database init add_col [example_add_col add_col] db_name db_label w s);
      try assumption.
    + unfold applicable. rewrite filter_cons_False, filter_cons_True; [reflexivity | |].
      * unfold scope_skipped. cbn. now rewrite Hhost.
      * unfold scope_skipped. cbn. rewrite Hnt. discriminate.
    + now constructor.
    + cbn. apply NoDup_singleton.
Qed.

End Scope.

(** ** Migrating twice *)

Section Twice.
Context (env : Env) (self : MigrationRunner).

Lemma pending_migrations_elem current target_version migrations m :
  m ∈ pending_migrations current target_version migrations <->
  m ∈ migrations /\ (version m > current)%Z /\
  (truthy target_version = true -> (version m <= default 0 target_version)%Z).
Proof.
  unfold pending_migrations. destruct (truthy target_version).
  - rewrite !list_elem_of_filter. intuition.
  - rewrite list_elem_of_filter. intuition discriminate.
Qed.

Lemma migrate_loop_all_skipped db_name pending c :
  applicable env db_name pending = [] ->
  migrate_loop env self db_name pending c
  = {| returned := Ok true; after := after (close env c); printed := [] |}.
Proof. intros E. rewrite migrate_loop_applicable, E. reflexivity. Qed.

Lemma migrate_loop_dry db_name pending c :
  dry_run self = true ->
  returned (migrate_loop env self db_name pending c) = Ok true /\
  after (migrate_loop env self db_name pending c) = after (close env c).
Proof.
  intros D. induction pending as [|m pending IH]; [now split|].
  destruct (scope_skipped env db_name m) eqn:S.
  - now rewrite migrate_loop_skip.
  - now rewrite migrate_loop_dry_run.
Qed.

(** What a dry run of the loop prints. *)
Lemma migrate_loop_dry_printed db_name pending c :
  dry_run self = true ->
  printed (migrate_loop env self db_name pending c)
  = map (fun m => WouldApply (version m) (name m)) (applicable env db_name pending).
Proof.
  intros D. unfold applicable. induction pending as [|m pending IH]; [reflexivity|].
  destruct (scope_skipped env db_name m) eqn:S.
  - rewrite migrate_loop_skip by exact S. rewrite filter_cons_False; [exact IH|].
    rewrite S. discriminate.
  - rewrite migrate_loop_dry_run by assumption. cbv zeta. cbn [printed].
    rewrite filter_cons_True by exact S. cbn. now rewrite IH.
Qed.

(** A run that returned [True] had its connection. *)
Lemma in_connection_true db_name db_label body (w : World) :
  fst (in_connection env db_name db_label body w) = true ->
  refuses env (resolved env db_name) = false /\
  exists s, databases w !! resolved env db_name = Some s /\
    returned (body {| database := resolved env db_name; committed := s; working := s;
                      calls := [] |}) = Ok true.
Proof.
  unfold in_connection, _get_db_connection.
  destruct (refuses env (resolved env db_name)); [discriminate|].
  destruct (databases w !! resolved env db_name) as [s|]; [|discriminate].
  cbn. destruct (returned (body _)) as [[]|] eqn:R; cbn; try discriminate.
  intros _. split; [reflexivity|]. now exists s.
Qed.

Lemma current_at_least (rows : list Row) (v : Z) :
  v ∈ up_versions rows -> (v <= default 0 (max_list (up_versions rows)))%Z.
Proof.
  intros Hv. pose proof (max_list_spec (up_versions rows)) as Hm.
  destruct (max_list (up_versions rows)) as [x|]; cbn.
  - now apply Hm.
  - rewrite Hm in Hv. inversion Hv.
Qed.

(** What a successful first run leaves in the table: the rows it found
    and, unless it was a dry run, one ['up'] row for each pending
    migration that was not passed over. *)
Lemma first_run_rows db_name db_label target_version (s0 : Store) :
  quiet env ->
  let c0 := {| database := resolved env db_name; committed := s0; working := s0;
               calls := [] |} in
  let r := migrate_database_body env self db_name db_label target_version c0 in
  let rows0 := default [] (table s0) in
  let current := default 0%Z (max_list (up_versions rows0)) in
  let pending :=
    pending_migrations current target_version (fst (discover_migrations env None)) in
  returned r = Ok true ->
  exists rows',
    table (committed (after r)) = Some (rows0 ++ rows') /\
    Forall (fun r => row_direction r = "up") rows' /\
    (dry_run self = false ->
     map row_version rows' = map version (applicable env db_name pending)).
Proof.
  intros Q. cbv zeta. intros Hok.
  destruct (dry_run self) eqn:D.
  - exists []. split; [|split; [constructor | discriminate]].
    rewrite migrate_database_body_quiet_unfold by (exact Q || reflexivity). cbv zeta.
    destruct (last _) as [newest|]; cbn [after].
    + rewrite (proj2 (migrate_loop_dry db_name _ _ D)). cbn. now rewrite app_nil_r.
    + cbn. now rewrite app_nil_r.
  - destruct (migrate_database_body_quiet env self Q db_name db_label target_version
                {| database := resolved env db_name; committed := s0; working := s0;
                   calls := [] |} D eq_refl) as (_ & Hadv & _).
    destruct (Hadv Hok) as (_ & _ & _ & rows' & Ht & Hv & Hup).
    exists rows'. auto.
Qed.

(** C8, as the code has it. After a run on a database that returned
    [True], a second run with the same files and target, in an
    environment where the driver raises nothing, returns [True] and
    leaves the database as it is: its connection creates the table if
    absent, reads the version and closes, and nothing else. Unless it is
    a dry run, every migration above the version it reads is one the
    scope check passes over, and it prints "up to date" when there is no
    migration above that version at all, and the header of a run
    otherwise. In a dry run it prints "up to date" in the same case, and
    otherwise the header and, for each pending migration that the scope
    check does not pass over, that it would apply it. *)
Theorem second_migrate_writes_nothing db_name db_label target_version (w : World) :
  quiet env ->
  let first := migrate_database env self db_name db_label target_version w in
  let second := migrate_database env self db_name db_label target_version (snd first) in
  fst first = true ->
  fst second = true /\
  databases (snd second) = databases (snd first) /\
  exists s,
    databases (snd first) !! resolved env db_name = Some s /\
    let c := {| database := resolved env db_name; committed := s; working := s;
                calls := [] |} in
    let r := migrate_database_body env self db_name db_label target_version c in
    let current := default 0%Z (max_list (up_versions (default [] (table s)))) in
    let pending :=
      pending_migrations current target_version (fst (discover_migrations env None)) in
    calls (after r)
    = [Execute CreateTable; Commit; Execute CreateTable; Commit; Execute SelectMax; Close] /\
    (dry_run self = false ->
     applicable env db_name pending = [] /\
     printed r
     = snd (discover_migrations env None)
       ++ [match last pending with
           | None => UpToDate db_label current
           | Some newest => MigrateHeader db_label current (version newest)
           end]) /\
    (dry_run self = true ->
     printed r
     = snd (discover_migrations env None)
       ++ match last pending with
          | None => [UpToDate db_label current]
          | Some newest =>
              MigrateHeader db_label current (version newest)
              :: map (fun m => WouldApply (version m) (name m))
                   (applicable env db_name pending)
          end).
Proof.
  intros Q. cbv zeta. intros Hfirst.
  unfold migrate_database in *.
  destruct (in_connection_true _ _ _ _ Hfirst) as (Hr & s0 & Hl0 & Hb0).
  rewrite (in_connection_open env db_name db_label _ w s0 Hr Hl0 true Hb0) in *.
  cbn [fst snd] in *.
  destruct (first_run_rows db_name db_label target_version s0 Q Hb0)
    as (rows' & Ht1 & Hup & Hv).
  set (c0 := {| database := resolved env db_name; committed := s0 |}) in *.
  set (s1 := committed (after (migrate_database_body env self db_name db_label
                                 target_version c0))) in *.
  set (rows0 := default [] (table s0)) in *.
  set (found := discover_migrations env None) in *.
  set (pending1 := pending_migrations (default 0%Z (max_list (up_versions rows0)))
                     target_version (fst found)) in *.
  set (w1 := {| databases := _; console := _ |}).
  assert (Hl1 : databases w1 !! resolved env db_name = Some s1)
    by apply lookup_insert_eq.
  set (c1 := {| database := resolved env db_name; committed := s1; working := s1;
                calls := [] |}).
  assert (Hrows1 : default [] (table (committed c1)) = rows0 ++ rows').
  { cbn [committed c1]. now rewrite Ht1. }
  assert (Hs1 : {| executed := executed (committed c1);
                   table := Some (default [] (table (committed c1))) |} = s1).
  { rewrite Hrows1. cbn [committed c1]. rewrite <- Ht1. now destruct s1. }
  pose proof (migrate_database_body_quiet_unfold env self Q db_name db_label
                target_version c1 eq_refl) as Hbody.
  cbv zeta in Hbody. rewrite Hs1 in Hbody. fold found in Hbody.
  set (current1 := default 0%Z (max_list (up_versions (default [] (table (committed c1))))))
    in *.
  set (pending2 := pending_migrations current1 target_version (fst found)) in *.
  set (c2 := {| database := database c1; committed := s1 |}) in *.
  (* unless it is a dry run, what is still pending is passed over *)
  assert (Hskip : dry_run self = false -> applicable env db_name pending2 = []).
  { intros D. specialize (Hv D).
    destruct (applicable env db_name pending2) as [|m l] eqn:E; [reflexivity|]. exfalso.
    assert (Hm : m ∈ applicable env db_name pending2) by (rewrite E; left).
    apply list_elem_of_filter in Hm as [Hns Hm].
    apply pending_migrations_elem in Hm as (Hin & Hgt & Hcap).
    assert (Htop : forall v, v ∈ map version (applicable env db_name pending1) ->
                     (v <= current1)%Z).
    { intros v Hvin. apply current_at_least. subst current1. rewrite Hrows1.
      rewrite up_versions_app, (up_versions_all_up rows' Hup), Hv.
      apply elem_of_app. now right. }
    assert (Hmono : (default 0 (max_list (up_versions rows0)) <= current1)%Z).
    { destruct (applicable env db_name pending1) as [|m1 l1] eqn:E1.
      - subst current1. rewrite Hrows1, up_versions_app, (up_versions_all_up rows' Hup), Hv.
        cbn. rewrite app_nil_r. lia.
      - assert (H1 : m1 ∈ applicable env db_name pending1) by (rewrite E1; left).
        apply list_elem_of_filter in H1 as [_ H1].
        apply pending_migrations_elem in H1 as (_ & H1 & _).
        specialize (Htop (version m1)). cbn in Htop.
        assert (version m1 <= current1)%Z by (apply Htop; left). lia. }
    assert (Hin1 : m ∈ applicable env db_name pending1).
    { apply list_elem_of_filter. split; [exact Hns|].
      apply pending_migrations_elem. split; [exact Hin|]. split; [lia | exact Hcap]. }
    specialize (Htop (version m) (list_elem_of_fmap_2 version _ _ Hin1)). lia. }
  assert (Hafter : returned (migrate_database_body env self db_name db_label
                               target_version c1) = Ok true /\
                   after (migrate_database_body env self db_name db_label
                            target_version c1) = after (close env c2)).
  { rewrite Hbody. destruct (last pending2) as [newest|]; cbn [returned after]; [|now split].
    destruct (dry_run self) eqn:D.
    - now apply migrate_loop_dry.
    - now rewrite (migrate_loop_all_skipped db_name pending2 c2 (Hskip eq_refl)). }
  destruct Hafter as (Hret & Haft).
  rewrite (in_connection_open env db_name db_label _ w1 s1 Hr Hl1 true Hret).
  cbn [fst snd databases]. fold c1. rewrite Haft.
  split; [reflexivity|]. split.
  { cbn. subst w1. cbn. apply insert_insert_eq. }
  exists s1. split; [exact Hl1|]. fold c1. rewrite Haft. split; [reflexivity|].
  split.
  - intros D. split; [now apply Hskip|].
    change (last (pending_migrations _ target_version (fst found))) with (last pending2).
    rewrite Hbody. destruct (last pending2) as [newest|]; cbn [printed]; [|reflexivity].
    now rewrite (migrate_loop_all_skipped db_name pending2 c2 (Hskip D)).
  - intros D.
    change (last (pending_migrations _ target_version (fst found))) with (last pending2).
    rewrite Hbody. destruct (last pending2) as [newest|]; cbn [printed]; [|reflexivity].
    now rewrite (migrate_loop_dry_printed db_name pending2 c2 D).
Qed.

End Twice.

(** ** Rolling back *)

Section Sorting.
Context {A : Type} (key : A -> Z).

Lemma insert_by_elem (x y : A) (l : list A) :
  y ∈ insert_by (by_key key) x l <-> y = x \/ y ∈ l.
Proof.
  induction l as [|z l IH]; cbn.
  - rewrite list_elem_of_singleton. split; [auto|]. intros [?|H]; [assumption | inversion H].
  - destruct (by_key key x z).
    + rewrite elem_of_cons. reflexivity.
    + rewrite !elem_of_cons, IH. tauto.
Qed.

Lemma insert_by_sorted (x : A) (l : list A) :
  StronglySorted (fun a b => (key a <= key b)%Z) l ->
  StronglySorted (fun a b => (key a <= key b)%Z) (insert_by (by_key key) x l).
Proof.
  induction 1 as [|z l Hs IH Hz]; cbn.
  - repeat constructor.
  - unfold by_key at 1. destruct (Z.leb_spec (key x) (key z)) as [Hle|Hgt].
    + constructor; [now constructor|]. constructor; [exact Hle|].
      eapply Forall_impl; [exact Hz|]. cbn. intros; lia.
    + constructor; [exact IH|]. apply Forall_forall. intros y Hy.
      apply insert_by_elem in Hy as [->|Hy]; [lia|].
      rewrite Forall_forall in Hz. now apply Hz.
Qed.

(** [list.sort(key=...)] leaves the list in ascending order of the key. *)
Lemma sort_by_sorted (l : list A) :
  StronglySorted (fun a b => (key a <= key b)%Z) (sort_by (by_key key) l).
Proof.
  unfold sort_by. induction l as [|x l IH]; cbn; [constructor | now apply insert_by_sorted].
Qed.

Lemma sorted_filter (P : A -> Prop) `{forall x, Decision (P x)} (R : A -> A -> Prop)
    (l : list A) :
  StronglySorted R l -> StronglySorted R (filter P l).
Proof.
  induction 1 as [|x l Hs IH Hx]; [constructor|].
  destruct (decide (P x)) as [Hp|Hp].
  - rewrite filter_cons_True by exact Hp. constructor; [exact IH|].
    apply Forall_forall. intros y [_ Hy]%list_elem_of_filter.
    rewrite Forall_forall in Hx. now apply Hx.
  - now rewrite filter_cons_False.
Qed.

Lemma sorted_impl (R R' : A -> A -> Prop) (l : list A) :
  (forall a b, R a b -> R' a b) -> StronglySorted R l -> StronglySorted R' l.
Proof.
  intros HR. induction 1 as [|x l Hs IH Hx]; constructor; [exact IH|].
  eapply Forall_impl; [exact Hx | auto].
Qed.

Lemma sorted_snoc (R : A -> A -> Prop) (l : list A) (x : A) :
  StronglySorted R l -> Forall (fun y => R y x) l -> StronglySorted R (l ++ [x]).
Proof.
  induction 1 as [|z l Hs IH Hz]; intros Hx; cbn; [repeat constructor|].
  apply Forall_cons in Hx as [Hzx Hx]. constructor; [now apply IH|].
  apply Forall_app. split; [exact Hz | now constructor].
Qed.

Lemma sorted_rev (R : A -> A -> Prop) (l : list A) :
  StronglySorted R l -> StronglySorted (fun a b => R b a) (rev l).
Proof.
  induction 1 as [|x l Hs IH Hx]; cbn; [constructor|].
  apply sorted_snoc; [exact IH|]. apply Forall_forall. intros y Hy.
  rewrite Forall_forall in Hx. apply Hx. apply list_elem_of_In. apply in_rev.
  now apply list_elem_of_In.
Qed.

End Sorting.

Section Discovery.
Context (env : Env).

(** [discover_migrations] returns the migrations in ascending order of
    version. *)
Lemma discover_migrations_sorted (scope : option string) :
  StronglySorted (fun a b => (version a <= version b)%Z)
    (fst (discover_migrations env scope)).
Proof. unfold discover_migrations. cbn [fst]. apply (sort_by_sorted version). Qed.

End Discovery.

Section RollbackSelection.
Context (env : Env) (self : MigrationRunner).

Lemma range_empty (current target : Z) (migrations : list MigrationFile) :
  (target >= current)%Z ->
  filter (fun m => (target < version m)%Z /\ (version m <= current)%Z) migrations = [].
Proof.
  intros H. induction migrations as [|m l IH]; [reflexivity|].
  rewrite filter_cons_False; [exact IH | lia].
Qed.

(** Below a current version other than 0, [rollback_from] hands the
    loop the discovered migrations of the range, in reverse. *)
Lemma rollback_from_below db_label steps target_version current (c : Conn) :
  let target :=
    match target_version with
    | None => Z.max 0 (current - steps)
    | Some v => v
    end in
  let found := discover_migrations env None in
  current <> 0%Z -> (target < current)%Z ->
  rollback_from env self db_label steps target_version current c
  = (printing found ;;
     print (RollbackHeader db_label current target) ;;
     rollback_loop env self
       (rev (filter (fun m => (target < version m)%Z /\ (version m <= current)%Z)
                    (fst found)))) c.
Proof.
  cbv zeta. unfold rollback_from. intros Hc Hlt.
  apply Z.eqb_neq in Hc. rewrite Hc.
  replace (_ >=? current)%Z with false; [reflexivity|].
  symmetry. rewrite Z.geb_leb. apply Z.leb_gt. lia.
Qed.

(** C6, as the code has it. On a database whose current version is 0
    [rollback_database] selects nothing, whatever the target. Otherwise
    the target version is the one supplied, or [max(0, current - steps)];
    the migrations handed to the loop are those discovered with
    [target < version <= current], highest version first; and when the
    target is not below the current version there is none. *)
Theorem rollback_selects_versions_in_range
    db_label steps target_version current (c : Conn) :
  let target :=
    match target_version with
    | None => Z.max 0 (current - steps)
    | Some v => v
    end in
  let found := discover_migrations env None in
  let selection :=
    rev (filter (fun m => (target < version m)%Z /\ (version m <= current)%Z) (fst found)) in
  let r := rollback_from env self db_label steps target_version current c in
  (current = 0%Z ->
   r = (print (NothingToRollback db_label) ;; close env ;; ret true) c)
  /\
  (current <> 0%Z ->
   StronglySorted (fun a b => (version a >= version b)%Z) selection /\
   ((target >= current)%Z ->
    selection = [] /\
    r = (print (AtOrBelowTarget db_label) ;; close env ;; ret true) c) /\
   ((target < current)%Z ->
    r = (printing found ;;
         print (RollbackHeader db_label current target) ;;
         rollback_loop env self selection) c)).
Proof.
  cbv zeta. split.
  - intros ->. reflexivity.
  - intros Hc. split; [|split].
    + eapply sorted_impl;
        [| apply sorted_rev, sorted_filter, discover_migrations_sorted].
      cbn. intros; lia.
    + intros Hge. split; [now rewrite range_empty|].
      unfold rollback_from. apply Z.eqb_neq in Hc. rewrite Hc.
      now replace (_ >=? current)%Z with true by (symmetry; apply Z.geb_le; lia).
    + intros Hlt. now apply rollback_from_below.
Qed.

End RollbackSelection.

(** ** What a rollback leaves alone *)

Section Keeps.
Context (env : Env) (self : MigrationRunner).

Lemma keeps_ret {A : Type} (a : A) : keeps (ret a).
Proof. intros ups c H. exact H. Qed.

Lemma keeps_raise {A : Type} (e : Exn) : keeps (@raise A e).
Proof. intros ups c H. exact H. Qed.

Lemma keeps_print (o : Out) : keeps (print o).
Proof. intros ups c H. exact H. Qed.

Lemma keeps_printing {A : Type} (x : A * list Out) : keeps (printing x).
Proof. intros ups c H. exact H. Qed.

Lemma keeps_bind {A B : Type} (m : M A) (k : A -> M B) :
  keeps m -> (forall a, keeps (k a)) -> keeps (bind m k).
Proof.
  intros Hm Hk ups c H. unfold bind.
  destruct (returned (m c)) as [a|e]; cbn; [|now apply Hm].
  apply Hk. now apply Hm.
Qed.

Lemma keeps_try_except {A : Type} (m : M A) (h : Exn -> M A) :
  keeps m -> (forall e, keeps (h e)) -> keeps (try_except m h).
Proof.
  intros Hm Hh ups c H. unfold try_except.
  destruct (returned (m c)) as [a|e]; cbn; [now apply Hm|].
  apply Hh. now apply Hm.
Qed.

Lemma up_rows_insert (s : Store) (rows : list Row) (r : Row) :
  table s = Some rows -> row_direction r <> "up" ->
  up_rows {| executed := executed s; table := Some (rows ++ [r]) |} = up_rows s.
Proof.
  intros Ht Hr. unfold up_rows. cbn. rewrite Ht. cbn. unfold up_versions.
  rewrite filter_app, filter_cons_False, filter_nil, app_nil_r by exact Hr. reflexivity.
Qed.

Lemma keeps_call (op : Op) : harmless op -> keeps (call env op).
Proof.
  intros Hop ups c [Hw Hc]. unfold call.
  destruct (driver_raises env op c); [now split|].
  destruct op as [q| | |]; cbn.
  - destruct q as [| |sql|r]; cbn.
    + split; [|exact Hc]. cbn. unfold up_rows in *. cbn.
      now destruct (table (working c)).
    + destruct (table (working c)); now split.
    + split; [exact Hw|]. cbn. destruct (ends_transaction env sql); [exact Hw | exact Hc].
    + destruct (table (working c)) as [rows|] eqn:Ht; [|now split].
      destruct (key_taken r rows); [now split|]. split; [|exact Hc]. cbn.
      rewrite <- Hw. now apply up_rows_insert.
  - now split.
  - now split.
  - now split.
Qed.

Lemma keeps_ensure : keeps (_ensure_migration_table env).
Proof. apply keeps_bind; [|intros _]; now apply keeps_call. Qed.

Lemma keeps_get_current_version : keeps (get_current_version env).
Proof.
  apply keeps_try_except.
  - apply keeps_bind; [apply keeps_ensure|]. intros _.
    apply keeps_bind; [now apply keeps_call|]. intros _.
    apply keeps_bind; [|intros a; apply keeps_ret]. intros ups c H. exact H.
  - intros e. apply keeps_bind; [apply keeps_print | intros _; apply keeps_ret].
Qed.

Lemma keeps_apply_down (migration : MigrationFile) :
  keeps (apply_migration env migration "down").
Proof.
  unfold apply_migration. destruct (String.eqb _ ""); [apply keeps_raise|].
  apply keeps_try_except.
  - apply keeps_bind; [now apply keeps_call|]. intros _.
    apply keeps_bind; [intros ups c H; exact H|]. intros ms.
    apply keeps_bind; [apply keeps_call; cbn; discriminate|]. intros _.
    apply keeps_bind; [now apply keeps_call | intros _; apply keeps_ret].
  - intros e. apply keeps_bind; [now apply keeps_call | intros _; apply keeps_raise].
Qed.

Lemma keeps_rollback_loop (to_rollback : list MigrationFile) :
  keeps (rollback_loop env self to_rollback).
Proof.
  induction to_rollback as [|m l IH]; cbn [rollback_loop].
  - apply keeps_bind; [now apply keeps_call | intros _; apply keeps_ret].
  - destruct (dry_run self).
    + apply keeps_bind; [apply keeps_print | intros _; exact IH].
    + apply keeps_bind.
      * apply keeps_try_except.
        -- apply keeps_bind; [apply keeps_apply_down|]. intros r.
           apply keeps_bind; [apply keeps_print | intros _; apply keeps_ret].
        -- intros e. apply keeps_bind; [apply keeps_print|]. intros _.
           apply keeps_bind; [now apply keeps_call | intros _; apply keeps_ret].
      * intros [b|]; [apply keeps_ret | exact IH].
Qed.

Lemma keeps_rollback_database_body db_name db_label steps target_version :
  keeps (rollback_database_body env self db_name db_label steps target_version).
Proof.
  apply keeps_bind; [apply keeps_ensure|]. intros _.
  apply keeps_bind; [apply keeps_get_current_version|]. intros current.
  unfold rollback_from. destruct (current =? 0)%Z.
  - apply keeps_bind; [apply keeps_print|]. intros _.
    apply keeps_bind; [now apply keeps_call | intros _; apply keeps_ret].
  - destruct (_ >=? current)%Z.
    + apply keeps_bind; [apply keeps_print|]. intros _.
      apply keeps_bind; [now apply keeps_call | intros _; apply keeps_ret].
    + apply keeps_bind; [apply keeps_printing|]. intros migrations.
      apply keeps_bind; [apply keeps_print | intros _; apply keeps_rollback_loop].
Qed.

(** A rollback leaves the ['up'] rows of its database, and so the
    current version, as they are. *)
Lemma rollback_database_keeps_ups db_name db_label steps target_version (w : World) :
  up_rows <$> (databases (snd (rollback_database env self db_name db_label steps
                                 target_version w)) !! resolved env db_name)
  = up_rows <$> (databases w !! resolved env db_name).
Proof.
  unfold rollback_database, in_connection, _get_db_connection.
  destruct (refuses env (resolved env db_name)); [reflexivity|].
  destruct (databases w !! resolved env db_name) as [s|] eqn:L; [|cbn; now rewrite L].
  set (c := {| database := resolved env db_name; committed := s |}).
  destruct (keeps_rollback_database_body db_name db_label steps target_version
              (up_rows s) c (conj eq_refl eq_refl)) as [_ Hc].
  cbn. destruct (returned _); cbn; rewrite lookup_insert_eq; cbn; now rewrite Hc.
Qed.

End Keeps.

(** ** A rollback that cannot be done *)

Section NoDownSection.
Context (env : Env) (self : MigrationRunner).

Lemma rollback_database_frame db_name db_label steps target_version w other :
  other <> resolved env db_name ->
  databases (snd (rollback_database env self db_name db_label steps target_version w))
    !! other
  = databases w !! other.
Proof. apply in_connection_frame. Qed.

Lemma rollback_database_local db_name db_label steps target_version w1 w2 :
  databases w1 !! resolved env db_name = databases w2 !! resolved env db_name ->
  databases (snd (rollback_database env self db_name db_label steps target_version w1))
    !! resolved env db_name
  = databases (snd (rollback_database env self db_name db_label steps target_version w2))
    !! resolved env db_name.
Proof. intros E. now apply in_connection_local. Qed.

Lemma rollback_all_each steps target_version (w : World) db_name db_label :
  NoDup (map (fun x => resolved env (fst x)) (all_databases env)) ->
  (db_name, db_label) ∈ all_databases env ->
  databases (rollback_all env self steps target_version w) !! resolved env db_name
  = databases (snd (rollback_database env self db_name db_label steps target_version w))
      !! resolved env db_name.
Proof.
  unfold all_databases. set (tenant_dbs := fst (get_all_tenant_databases env)).
  intros Hd Hx. cbn [map fst] in Hd. apply NoDup_cons in Hd as [Hhost Hd].
  rewrite <- list_fmap_compose in Hd, Hhost.
  unfold rollback_all. fold tenant_dbs. cbv zeta.
  set (wa := say (Say "ROLLING BACK HOST DATABASE") _).
  set (wb := tell _ (snd (rollback_database env self (POSTGRES_DATABASE env) "HOST"
                            steps target_version wa))).
  set (step := fun (w : World) (t : string * string) =>
                 snd (rollback_database env self (snd t) ("TENANT " +:+ fst t)
                        steps target_version w)).
  set (key := fun t : string * string => resolved env (snd t)).
  assert (Hwa : databases wa = databases w).
  { subst wa. now destruct (dry_run self). }
  assert (Hphase : exists w', databases w' = databases wb /\
            databases (match tenant_dbs with
                       | [] => wb
                       | _ => foldl step (say (RollingBackTenants (length tenant_dbs)) wb)
                                tenant_dbs
                       end) = databases (foldl step w' tenant_dbs)).
  { destruct tenant_dbs as [|t0 ts]; [now exists wb|].
    now exists (say (RollingBackTenants (length (t0 :: ts))) wb). }
  destruct Hphase as (w' & Hw' & Hphase).
  change (databases (say (Say "ROLLBACK COMPLETE") ?x)) with (databases x).
  rewrite Hphase.
  assert (Hframe : forall w x other, other <> key x ->
            databases (step w x) !! other = databases w !! other).
  { intros. now apply rollback_database_frame. }
  assert (Hlocal : forall w1 w2 x, databases w1 !! key x = databases w2 !! key x ->
            databases (step w1 x) !! key x = databases (step w2 x) !! key x).
  { intros. now apply rollback_database_local. }
  apply elem_of_cons in Hx as [[= -> ->]|Hx].
  - rewrite (foldl_frame step key Hframe) by exact Hhost.
    rewrite Hw'. subst wb. cbn [tell databases].
    apply rollback_database_local. now rewrite Hwa.
  - apply list_elem_of_fmap in Hx as (t & [= -> ->] & Ht).
    change (databases (foldl step w' tenant_dbs) !! key t = databases (step w t) !! key t).
    rewrite (foldl_each step key Hframe Hlocal tenant_dbs w' t Hd Ht).
    apply (Hlocal w' w t). rewrite Hw'. subst wb. cbn [tell databases].
    rewrite rollback_database_frame; [now rewrite Hwa|].
    intros E. apply Hhost. unfold key in E. rewrite <- E.
    now apply (list_elem_of_fmap_2 (fun x => resolved env (snd x))).
Qed.

(** C7. Unless it is a dry run, the rollback of a migration with no
    DOWN section fails with the error of the missing section before any
    call is made on the connection: the loop prints the failure, closes
    the connection, returns [False], and what was still to be rolled
    back plays no part. No rollback changes the ['up'] rows of its
    database, so the current version stays what it was; and the run over
    all databases leaves each of them in the state that rolling it back
    on its own gives. *)
Theorem rollback_without_down_section :
  (forall migration rest c,
     dry_run self = false -> down_sql migration = "" ->
     rollback_loop env self (migration :: rest) c
     = {| returned := Ok false;
          after := {| database := database c; committed := committed c;
                      working := committed c; calls := calls c ++ [Close] |};
          printed := [Failed (version migration) (name migration)
                        (NoSection "down" (version migration))] |})
  /\
  (forall db_name db_label steps target_version w,
     up_rows <$> (databases (snd (rollback_database env self db_name db_label steps
                                    target_version w)) !! resolved env db_name)
     = up_rows <$> (databases w !! resolved env db_name))
  /\
  (forall steps target_version w db_name db_label,
     NoDup (map (fun x => resolved env (fst x)) (all_databases env)) ->
     (db_name, db_label) ∈ all_databases env ->
     databases (rollback_all env self steps target_version w) !! resolved env db_name
     = databases (snd (rollback_database env self db_name db_label steps target_version w))
         !! resolved env db_name).
Proof.
  split; [|split].
  - intros migration rest c D Hdown.
    rewrite rollback_loop_step by exact D. cbv zeta.
    destruct (apply_migration_outcome env migration "down" c)
      as [(_ & ->) | [(Hs & _) | (Hs & _)]]; [reflexivity | |]; now cbn in Hs.
  - intros. apply rollback_database_keeps_ups.
  - intros. now apply rollback_all_each.
Qed.

End NoDownSection.

(** ** Scope and the backward loop *)

Section RollbackScope.
Context (env : Env) (self : MigrationRunner).

Lemma rollback_database_body_quiet_unfold db_name db_label steps target_version (c : Conn) :
  quiet env ->
  working c = committed c ->
  let rows := default [] (table (committed c)) in
  let s := {| executed := executed (committed c); table := Some rows |} in
  let c2 := {| database := database c; committed := s; working := s;
               calls := calls c ++ [Execute CreateTable; Commit; Execute CreateTable;
                                    Commit; Execute SelectMax] |} in
  let current := default 0%Z (max_list (up_versions rows)) in
  rollback_database_body env self db_name db_label steps target_version c
  = rollback_from env self db_label steps target_version current c2.
Proof.
  intros Q. destruct c as [d cm wk cl]. cbn. intros ->.
  unfold rollback_database_body, bind. rewrite ensure_quiet by exact Q. norm.
  rewrite get_current_version_quiet by exact Q. norm.
  rewrite <- ?app_assoc. cbn.
  now destruct (rollback_from env self db_label steps target_version _ _).
Qed.

(** C10. The backward loop has no scope check: unless it is a dry run,
    every migration it is given is applied in direction ['down'],
    whatever its scope and whatever the database. So when the driver
    raises nothing, a rollback on any database executes the DOWN section
    of every discovered migration with [target < version <= current],
    highest version first, provided each has a DOWN section, their
    versions are distinct and none has a ['down'] row yet. *)
Theorem rollback_ignores_scope :
  (forall migration rest c,
     dry_run self = false ->
     rollback_loop env self (migration :: rest) c
     = let r := apply_migration env migration "down" c in
       match returned r with
       | Ok (_, ms) =>
           let r' := rollback_loop env self rest (after r) in
           {| returned := returned r'; after := after r';
              printed := RolledBack (version migration) (name migration) ms :: printed r' |}
       | Raise e =>
           {| returned := Ok false; after := after (close env (after r));
              printed := [Failed (version migration) (name migration) e] |}
       end)
  /\
  (forall db_name db_label steps target_version w s,
     quiet env -> dry_run self = false ->
     refuses env (resolved env db_name) = false ->
     databases w !! resolved env db_name = Some s ->
     let rows := default [] (table s) in
     let current := default 0%Z (max_list (up_versions rows)) in
     let target :=
       match target_version with
       | None => Z.max 0 (current - steps)
       | Some v => v
       end in
     let selection :=
       rev (filter (fun m => (target < version m)%Z /\ (version m <= current)%Z)
                   (fst (discover_migrations env None))) in
     current <> 0%Z -> (target < current)%Z ->
     Forall (fun m => down_sql m <> "") selection ->
     NoDup (map version selection) ->
     Forall (fun m => ~ records rows (version m) "down") selection ->
     let result := rollback_database env self db_name db_label steps target_version w in
     fst result = true /\
     exists s', databases (snd result) !! resolved env db_name = Some s' /\
       executed s' = executed s ++ map down_sql selection).
Proof.
  split; [intros; now apply rollback_loop_step|].
  intros db_name db_label steps target_version w s Q D Hr Hl. cbv zeta.
  intros Hcur Hlt Hsql Hnd Hfree.
  set (c := {| database := resolved env db_name; committed := s; working := s;
               calls := [] |}).
  pose proof (rollback_database_body_quiet_unfold db_name db_label steps target_version
                c Q eq_refl) as Hbody.
  cbv zeta in Hbody. cbn [committed c] in Hbody.
  set (rows := default [] (table s)) in *.
  set (current := default 0%Z (max_list (up_versions rows))) in *.
  set (c2 := {| database := database c |}) in *.
  pose proof (rollback_from_below env self db_label steps target_version
                current c2 Hcur Hlt) as Hrun.
  cbv zeta in Hrun.
  set (target := match target_version with
                 | None => Z.max 0 (current - steps)
                 | Some v => v
                 end) in *.
  set (selection := rev _) in *.
  destruct (rollback_loop_quiet env self Q selection c2 rows D eq_refl eq_refl)
    as (_ & Hadv & Hok).
  specialize (Hok Hsql Hnd Hfree).
  destruct (Hadv Hok) as (_ & _ & Hex & _).
  assert (Hret : returned (rollback_database_body env self db_name db_label steps
                             target_version c) = Ok true).
  { rewrite Hbody, Hrun. unfold bind, printing, print. norm. exact Hok. }
  assert (Haft : after (rollback_database_body env self db_name db_label steps
                          target_version c) = after (rollback_loop env self selection c2)).
  { rewrite Hbody, Hrun. unfold bind, printing, print. norm. reflexivity. }
  unfold rollback_database.
  rewrite (in_connection_open env db_name db_label _ w s Hr Hl true Hret).
  cbn [fst snd databases]. fold c. split; [reflexivity|].
  rewrite lookup_insert_eq. eexists. split; [reflexivity|].
  rewrite Haft. exact Hex.
Qed.

End RollbackScope.

(** * The target version of a forward migration *)

Lemma pending_migrations_capped current t migrations :
  t <> 0%Z ->
  pending_migrations current (Some t) migrations
  = filter (fun m => (current < version m)%Z /\ (version m <= t)%Z) migrations.
Proof.
  intros Ht. unfold pending_migrations, truthy.
  apply Z.eqb_neq in Ht. rewrite Ht. cbn [negb default from_option id].
  induction migrations as [|m l IH]; [reflexivity|].
  destruct (decide (version m > current)%Z) as [Hm|Hm].
  - rewrite (filter_cons_True (fun m => (version m > current)%Z)) by exact Hm.
    destruct (decide (version m <= t)%Z) as [Hc|Hc].
    + rewrite !filter_cons_True by (try split; lia). now rewrite IH.
    + rewrite !filter_cons_False by lia. exact IH.
  - rewrite (filter_cons_False (fun m => (version m > current)%Z)) by exact Hm.
    rewrite filter_cons_False by lia. exact IH.
Qed.

Lemma pending_migrations_ascending env current target_version :
  StronglySorted (fun a b => (version a <= version b)%Z)
    (pending_migrations current target_version (fst (discover_migrations env None))).
Proof.
  unfold pending_migrations. destruct (truthy target_version).
  - apply sorted_filter, sorted_filter, discover_migrations_sorted.
  - apply sorted_filter, discover_migrations_sorted.
Qed.

(** C4, as the code has it. The pending migrations are the discovered
    ones above the current version, in ascending order of version, no
    higher than the target version when one other than 0 is given. A
    target version of 0 is taken as no target at all: nothing is capped,
    and [migrate_database] with target 0 on a fresh host database applies
    [host/001_init.sql]. *)
Theorem target_version_zero_is_no_cap :
  (forall env current target_version,
     StronglySorted (fun a b => (version a <= version b)%Z)
       (pending_migrations current target_version (fst (discover_migrations env None))))
  /\
  (forall current migrations,
     pending_migrations current None migrations
     = filter (fun m => (version m > current)%Z) migrations)
  /\
  (forall current t migrations,
     t <> 0%Z ->
     pending_migrations current (Some t) migrations
     = filter (fun m => (current < version m)%Z /\ (version m <= t)%Z) migrations)
  /\
  (forall current migrations,
     pending_migrations current (Some 0%Z) migrations
     = filter (fun m => (version m > current)%Z) migrations)
  /\
  (let result :=
     migrate_database (environment no_error two_files) runner "saas_host" "HOST"
       (Some 0%Z) fresh_world in
   fst result = true /\
   console (snd result) = [MigrateHeader "HOST" 0 2; Applied 1 "init" 7] /\
   (executed <$> databases (snd result) !! "saas_host")
   = Some ["CREATE TABLE tenants (id int);"]).
Proof.
  split; [exact pending_migrations_ascending|].
  split; [reflexivity|].
  split; [exact pending_migrations_capped|].
  split; [reflexivity|].
  vm_compute. repeat split.
Qed.

Lemma target_version_zero_is_no_cap_witness :
  pending_migrations 0 (Some 1%Z)
    (fst (discover_migrations (environment no_error two_files) None))
  = filter (fun m => (0 < version m)%Z /\ (version m <= 1)%Z)
      (fst (discover_migrations (environment no_error two_files) None)).
Proof.
  refine (proj1 (proj2 (proj2 target_version_zero_is_no_cap)) 0%Z 1%Z _ _). lia.
Defined.

(** * The properties on the example directories *)

Lemma no_error_quiet files : quiet (environment no_error files).
Proof. intros op c. reflexivity. Qed.

(** A second forward migration of the host database of the two-file
    directory. *)
Lemma second_migrate_writes_nothing_witness :
  let env := environment no_error two_files in
  let first := migrate_database env runner "saas_host" "HOST" None fresh_world in
  let second := migrate_database env runner "saas_host" "HOST" None (snd first) in
  fst second = true /\ databases (snd second) = databases (snd first).
Proof.
  pose proof (second_migrate_writes_nothing (environment no_error two_files) runner
                "saas_host" "HOST" None fresh_world (no_error_quiet two_files)) as H.
  cbv zeta in H |- *.
  destruct H as (H1 & H2 & _); [vm_compute; reflexivity|].
  split; assumption.
Defined.

(** The second forward migration of the host database of the two-file
    directory does not report that the database is up to date: the
    tenant migration 2 is pending, and skipped, again. Nor does the
    second dry run: it prints again what it would apply. *)
Lemma second_migrate_is_not_up_to_date :
  (let env := environment no_error two_files in
   let first := migrate_database env runner "saas_host" "HOST" None fresh_world in
   let second := migrate_database env runner "saas_host" "HOST" None (snd first) in
   fst first = true /\
   console (snd first) = [MigrateHeader "HOST" 0 2; Applied 1 "init" 7] /\
   console (snd second) = console (snd first) ++ [MigrateHeader "HOST" 1 2] /\
   (forall v, UpToDate "HOST" v ∉ console (snd second)))
  /\
  (let env := environment no_error two_files in
   let preview := {| dry_run := true |} in
   let first := migrate_database env preview "saas_host" "HOST" None fresh_world in
   let second := migrate_database env preview "saas_host" "HOST" None (snd first) in
   fst first = true /\
   console (snd second)
   = [MigrateHeader "HOST" 0 2; WouldApply 1 "init";
      MigrateHeader "HOST" 0 2; WouldApply 1 "init"]).
Proof.
  split; [|vm_compute; split; reflexivity].
  cbv zeta.
  assert (console (snd (migrate_database (environment no_error two_files) runner
                          "saas_host" "HOST" None
                          (snd (migrate_database (environment no_error two_files) runner
                                  "saas_host" "HOST" None fresh_world))))
          = [MigrateHeader "HOST" 0 2; Applied 1 "init" 7; MigrateHeader "HOST" 1 2])
    as E by (vm_compute; reflexivity).
  rewrite E. repeat split; try (vm_compute; reflexivity).
  intros v H. repeat (apply elem_of_cons in H as [H|H]; [discriminate|]).
  now apply elem_of_nil in H.
Qed.

(** Rollback of two steps from version 3 in the three-file directory. *)
Lemma rollback_selects_versions_in_range_witness :
  let env := environment no_error three_files in
  StronglySorted (fun a b => (version a >= version b)%Z)
    (rev (filter (fun m => (1 < version m)%Z /\ (version m <= 3)%Z)
            (fst (discover_migrations env None)))) /\
  rollback_from env runner "HOST" 2 None 3 host_connection
  = (printing (discover_migrations env None) ;;
     print (RollbackHeader "HOST" 3 1) ;;
     rollback_loop env runner
       (rev (filter (fun m => (1 < version m)%Z /\ (version m <= 3)%Z)
               (fst (discover_migrations env None))))) host_connection.
Proof.
  pose proof (rollback_selects_versions_in_range (environment no_error three_files)
                runner "HOST" 2%Z None 3%Z host_connection) as H.
  cbv zeta in H |- *. destruct H as [_ H].
  destruct H as (Hs & _ & Hr); [lia|].
  split; [exact Hs | apply Hr; lia].
Defined.

(** On a database at version 0, a rollback to version -1 selects
    nothing, although [both/000_base.sql], with its DOWN section, has its
    version in the range from -1 to 0: the loop on the range would have
    run its DOWN section. *)
Lemma rollback_at_version_zero_selects_nothing :
  let env := environment no_error version_zero_file in
  let in_range :=
    rev (filter (fun m => (-1 < version m)%Z /\ (version m <= 0)%Z)
           (fst (discover_migrations env None))) in
  returned (get_current_version env host_connection) = Ok 0%Z /\
  map version in_range = [0%Z] /\
  map down_sql in_range = ["DROP TABLE base;"] /\
  rollback_from env runner "HOST" 1 (Some (-1)%Z) 0 host_connection
  = (print (NothingToRollback "HOST") ;; close env ;; ret true) host_connection /\
  after (rollback_from env runner "HOST" 1 (Some (-1)%Z) 0 host_connection)
  <> after (rollback_loop env runner in_range host_connection) /\
  executed (working (after (rollback_from env runner "HOST" 1 (Some (-1)%Z) 0
                              host_connection))) = [] /\
  executed (working (after (rollback_loop env runner in_range host_connection)))
  = ["DROP TABLE base;"] /\
  console (snd (rollback_database env runner "saas_host" "HOST" 1 (Some (-1)%Z)
                  fresh_world)) = [NothingToRollback "HOST"].
Proof. vm_compute. repeat split. discriminate. Qed.

Lemma example_databases_distinct fails files :
  NoDup (map (fun x => resolved (environment fails files) (fst x))
           (all_databases (environment fails files))).
Proof.
  change (NoDup ["saas_host"; "tenant_acme"]).
  apply NoDup_cons. split; [|apply NoDup_singleton].
  intros H. apply list_elem_of_singleton in H. discriminate.
Qed.

Lemma example_tenant_listed fails files :
  ("tenant_acme", "TENANT acme") ∈ all_databases (environment fails files).
Proof.
  change (("tenant_acme", "TENANT acme")
          ∈ [("saas_host", "HOST"); ("tenant_acme", "TENANT acme")]).
  apply elem_of_cons. right. apply elem_of_cons. now left.
Qed.

(** The driver raises on the body of [host/001_init.sql]: the loop on
    the host database stops there, and the tenant database ends as its
    own migration leaves it. *)
Lemma failure_stops_one_database_only_witness :
  let env := environment host_body_error two_files in
  let init := example_init init_sql in
  migrate_loop env runner "saas_host" [init; example_add_col add_col_sql] host_connection
  = {| returned := Ok false;
       after := after (close env (after (apply_migration env init "up" host_connection)));
       printed := [Failed 1 "init"
                     (MigrationFailed
                        (DriverError (Execute (Body "CREATE TABLE tenants (id int);"))))] |}
  /\
  databases (migrate_all env runner None fresh_world) !! "tenant_acme"
  = databases (snd (migrate_database env runner "tenant_acme" "TENANT acme" None
                      fresh_world)) !! "tenant_acme".
Proof.
  destruct (failure_stops_one_database_only (environment host_body_error two_files)
              runner) as [Hstop Hnext].
  split.
  - apply (Hstop "saas_host" (example_init init_sql) [example_add_col add_col_sql]
             host_connection); vm_compute; reflexivity.
  - apply (Hnext None fresh_world "tenant_acme" "TENANT acme").
    + apply example_databases_distinct.
    + apply example_tenant_listed.
Defined.

(** The scope example on the host database and on the tenant database. *)
Lemma scope_decides_what_is_applied_witness :
  let env := environment no_error two_files in
  (let result := migrate_database env runner "saas_host" "HOST" None fresh_world in
   fst result = true /\
   exists s', databases (snd result) !! "saas_host" = Some s' /\
     executed s' = [] ++ ["CREATE TABLE tenants (id int);"] /\
     up_versions (default [] (table s')) = [1%Z])
  /\
  (let result := migrate_database env runner "tenant_acme" "TENANT acme" None fresh_world in
   fst result = true /\
   exists s', databases (snd result) !! "tenant_acme" = Some s' /\
     executed s' = [] ++ ["ALTER TABLE orders ADD note text;"] /\
     up_versions (default [] (table s')) = [2%Z]).
Proof.
  destruct (scope_decides_what_is_applied (environment no_error two_files) runner)
    as (_ & _ & _ & _ & H).
  split.
  - apply (H init_sql add_col_sql "saas_host" "HOST" fresh_world empty_database);
      try apply no_error_quiet; try (vm_compute; reflexivity);
      vm_compute; discriminate.
  - apply (H init_sql add_col_sql "tenant_acme" "TENANT acme" fresh_world empty_database);
      try apply no_error_quiet; try (vm_compute; reflexivity);
      vm_compute; discriminate.
Defined.

Lemma up_rows_only (rows : list Row) (v : Z) :
  Forall (fun r => row_direction r = "up") rows -> ~ records rows v "down".
Proof.
  intros Hall (r & Hr & _ & Hd).
  rewrite Forall_forall in Hall. specialize (Hall r Hr).
  rewrite Hall in Hd. discriminate.
Qed.

(** [host/001_init.sql] has no DOWN section: its rollback on the host
    connection fails, and the rollback of the migrated host database
    by three steps, which stops at it, keeps the ['up'] rows 1 and 3. *)
Lemma rollback_without_down_section_witness :
  let env := environment no_error three_files in
  let init := example_init init_sql in
  rollback_loop env runner [init] host_connection
  = {| returned := Ok false;
       after := {| database := "saas_host";
                   committed := committed host_connection;
                   working := committed host_connection;
                   calls := calls host_connection ++ [Close] |};
       printed := [Failed 1 "init" (NoSection "down" 1)] |}
  /\
  up_rows <$> (databases (snd (rollback_database env runner "saas_host" "HOST" 3 None
                                 migrated_world)) !! "saas_host")
  = Some [1%Z; 3%Z]
  /\
  databases (rollback_all env runner 3 None migrated_world) !! "tenant_acme"
  = databases (snd (rollback_database env runner "tenant_acme" "TENANT acme" 3 None
                      migrated_world)) !! "tenant_acme".
Proof.
  destruct (rollback_without_down_section (environment no_error three_files) runner)
    as (Hfail & Hups & Hnext).
  split; [|split].
  - apply (Hfail (example_init init_sql) [] host_connection); reflexivity.
  - exact (Hups "saas_host" "HOST" 3%Z None migrated_world).
  - apply (Hnext 3%Z None migrated_world "tenant_acme" "TENANT acme").
    + apply example_databases_distinct.
    + apply example_tenant_listed.
Defined.

(** Two steps back on the migrated host database: the DOWN section of
    the host migration 3, then that of the tenant migration 2, are
    executed on the host database. *)
Lemma rollback_ignores_scope_witness :
  let env := environment no_error three_files in
  let result := rollback_database env runner "saas_host" "HOST" 2 None migrated_world in
  map scope
    (rev (filter (fun m => (1 < version m)%Z /\ (version m <= 3)%Z)
            (fst (discover_migrations env None)))) = ["host"; "tenant"]
  /\
  fst result = true /\
  exists s', databases (snd result) !! "saas_host" = Some s' /\
    executed s'
    = executed migrated_host ++ ["DROP TABLE audit;"; "ALTER TABLE orders DROP note;"].
Proof.
  destruct (rollback_ignores_scope (environment no_error three_files) runner)
    as [_ H].
  split; [vm_compute; reflexivity|].
  apply (H "saas_host" "HOST" 2%Z None migrated_world migrated_host).
  - apply no_error_quiet.
  - reflexivity.
  - reflexivity.
  - vm_compute; reflexivity.
  - vm_compute; discriminate.
  - vm_compute; reflexivity.
  - vm_compute. repeat (constructor; [discriminate|]). constructor.
  - vm_compute. apply NoDup_cons. split; [|apply NoDup_singleton].
    intros E. apply list_elem_of_singleton in E. discriminate.
  - apply Forall_true. intros m. apply up_rows_only.
    vm_compute. repeat constructor.
Defined.

(** The host migration on a driver that raises on its body: nothing of
    it is committed. *)
Lemma apply_migration_is_one_transaction_witness :
  let env := environment host_body_error two_files in
  let r := apply_migration env (example_init init_sql) "up" host_connection in
  last (calls (after r)) = Some Rollback /\
  committed (after r) = committed host_connection.
Proof.
  pose proof (apply_migration_is_one_transaction (environment host_body_error two_files)
                (example_init init_sql) "up" host_connection) as H.
  cbv zeta in H |- *.
  destruct (returned (apply_migration _ _ _ _)) as [[ok ms]|e] eqn:R;
    [vm_compute in R; discriminate R|].
  destruct H as [(Hs & _) | (_ & Hlast & Hkeep & _)]; [vm_compute in Hs; discriminate Hs|].
  split; [exact Hlast | apply Hkeep; reflexivity].
Defined.

(** C1 as stated fails. A body that ends its transaction stays applied
    when the insertion of its row fails: the database then holds the
    body and no row for it. And when the [rollback] raises, the work
    of the transaction is still there as the error surfaces, and the
    error is that of the [rollback], not the migration failure. *)
Lemma body_committed_without_its_row :
  let migration := example_init init_sql in
  let body_only := {| executed := ["CREATE TABLE tenants (id int);"]; table := Some [] |} in
  (let env := committing (environment insert_error two_files) in
   let r := apply_migration env migration "up" host_connection in
   returned r
   = Raise (MigrationFailed
              (DriverError (Execute (Insert (tracking_row env migration "up" 7))))) /\
   committed (after r) = body_only)
  /\
  (let env := environment insert_and_rollback_error two_files in
   let r := apply_migration env migration "up" host_connection in
   returned r = Raise (DriverError Rollback) /\
   working (after r) = body_only).
Proof. vm_compute. repeat split. Qed.

(** C5 as stated fails: which databases count as tenant databases is
    read off their names. With [host/001_init.sql] and
    [tenant/002_add_col.sql], the migration of the tenant database
    [acme_db], whose name does not contain [tenant], applies version 1
    as well as version 2; and the migration of a host database named
    [multitenant_host] applies nothing. *)
Lemma scope_goes_by_the_database_name :
  (let env := environment no_error two_files in
   let result :=
     migrate_database env runner "acme_db" "TENANT acme" None (one_database "acme_db") in
   fst result = true /\
   (content <$> databases (snd result) !! "acme_db")
   = Some (["CREATE TABLE tenants (id int);"; "ALTER TABLE orders ADD note text;"],
           [tracking_row env (example_init init_sql) "up" 7;
            tracking_row env (example_add_col add_col_sql) "up" 7]))
  /\
  (let env := hosted_on "multitenant_host" (environment no_error two_files) in
   let result :=
     migrate_database env runner "multitenant_host" "HOST" None
       (one_database "multitenant_host") in
   fst result = true /\
   (content <$> databases (snd result) !! "multitenant_host") = Some ([], [])).
Proof. vm_compute. repeat split. Qed.

(** * File names *)

(** A greedy repetition gives the continuation a position that a run
    of the class leads to. *)
Lemma greedy_star_inv {R : Type} (p : ascii -> bool) (k : string -> option R) s x :
  Re.greedy_star p k s = Some x ->
  exists run rest, s = run +:+ rest /\ every p run = true /\ k rest = Some x.
Proof.
  induction s as [|c s IH]; cbn; intros H.
  - now exists "", "".
  - destruct (p c) eqn:Hp; [|now exists "", (String c s)].
    destruct (Re.greedy_star p k s) as [y|] eqn:Hg; [|now exists "", (String c s)].
    injection H as <-. destruct (IH eq_refl) as (run & rest & -> & Hr & Hk).
    exists (String c run), rest. rewrite append_String. cbn. now rewrite Hp, Hr.
Qed.

(** It takes the whole run when the continuation accepts what follows. *)
Lemma greedy_star_all {R : Type} (p : ascii -> bool) (k : string -> option R) run rest x :
  every p run = true -> k rest = Some x ->
  (forall c s, rest = String c s -> p c = false) ->
  Re.greedy_star p k (run +:+ rest) = Some x.
Proof.
  intros Hr Hk Hstop. induction run as [|c run IH].
  - rewrite append_empty. destruct rest as [|c s]; cbn; [exact Hk|].
    now rewrite (Hstop c s eq_refl).
  - rewrite append_String. cbn in Hr |- *.
    apply andb_true_iff in Hr as [-> Hr]. now rewrite (IH Hr).
Qed.

Lemma every_append (p : ascii -> bool) (a b : string) :
  every p (a +:+ b) = every p a && every p b.
Proof.
  induction a as [|c a IH]; [reflexivity|].
  rewrite append_String. cbn. now rewrite IH, andb_assoc.
Qed.

(** X1. [_extract_version] returns a version exactly for the file names
    that begin with a run of decimal digits followed by an underscore;
    the version is the number the whole run spells. On every other name
    it raises the error of an invalid file name. *)
Theorem extract_version_iff (filepath : Path) :
  (forall v,
     _extract_version filepath = Ok v <->
     exists digits rest,
       file_name filepath = digits +:+ String "_" rest /\
       digits <> "" /\ every Text.is_digit digits = true /\
       v = Text.int digits)
  /\
  (forall e, _extract_version filepath = Raise e ->
             e = InvalidFilename (file_name filepath)).
Proof.
  unfold _extract_version, Re.match_, Re.attempt.
  destruct filepath as [parent file]. cbn [file_name]. split.
  - intros v. split.
    + destruct (Re.run _ _ _ _ _) as [g|] eqn:H; [|discriminate].
      intros [= <-]. cbn -[Ascii.eqb Re.cap] in H. rewrite Nat.eqb_refl in H.
      destruct file as [|c s]; [discriminate|].
      destruct (Text.is_digit c) eqn:Hc; [|discriminate].
      apply greedy_star_inv in H as (run & rest & -> & Hrun & H).
      destruct rest as [|u rest]; [discriminate|].
      unfold Re.exactly in H. destruct (Ascii.eqb "_" u) eqn:Hu; [|discriminate].
      apply Ascii.eqb_eq in Hu as <-. injection H as <-.
      exists (String c run), rest. repeat split.
      * discriminate.
      * cbn. now rewrite Hc, Hrun.
      * change (String c (run +:+ String "_" rest))
          with (String c run +:+ String "_" rest).
        now rewrite cap_prefix.
    + intros (digits & rest & -> & Hne & Hd & ->).
      destruct digits as [|c run]; [contradiction|].
      cbn in Hd. apply andb_true_iff in Hd as [Hc Hrun].
      rewrite append_String.
      cbn -[Ascii.eqb Re.cap]. rewrite Nat.eqb_refl, Hc.
      erewrite greedy_star_all; [| exact Hrun | cbn -[Re.cap]; reflexivity |].
      * change (String c (run +:+ String "_" rest))
          with (String c run +:+ String "_" rest).
        now rewrite cap_prefix.
      * intros c' s' [= <- <-]. reflexivity.
  - intros e. destruct (Re.run _ _ _ _ _); [discriminate|]. now intros [= <-].
Qed.

Lemma extract_version_iff_witness :
  _extract_version {| parent_name := "host"; file_name := "003_add_stripe.sql" |} = Ok 3%Z /\
  InvalidFilename "notes.sql"
  = InvalidFilename (file_name {| parent_name := "host"; file_name := "notes.sql" |}).
Proof.
  split.
  - apply (proj1 (extract_version_iff
                    {| parent_name := "host"; file_name := "003_add_stripe.sql" |})).
    exists "003", "add_stripe.sql". repeat split. discriminate.
  - apply (proj2 (extract_version_iff
                    {| parent_name := "host"; file_name := "notes.sql" |})).
    reflexivity.
Defined.

Lemma greedy_star_through {R : Type} (p : ascii -> bool) (k : string -> option R) run rest x :
  every p run = true -> Re.greedy_star p k rest = Some x ->
  Re.greedy_star p k (run +:+ rest) = Some x.
Proof.
  intros Hr Hk. induction run as [|c run IH].
  - now rewrite append_empty.
  - rewrite append_String. cbn in Hr |- *.
    apply andb_true_iff in Hr as [-> Hr]. now rewrite (IH Hr).
Qed.

(** X2. For a file name made of a run of digits, an underscore, a
    non-empty name with no line feed in it, and the suffix [.sql],
    [_extract_name] returns that name: what stands between the first
    underscore after the digits and the final suffix. *)
Theorem extract_name_of_versioned_file parent digits nm :
  digits <> "" -> every Text.is_digit digits = true ->
  nm <> "" -> every Re.dot nm = true ->
  _extract_name {| parent_name := parent; file_name := digits +:+ "_" +:+ nm +:+ ".sql" |} = nm.
Proof.
  intros Hd1 Hd Hn1 Hn.
  destruct digits as [|d run]; [contradiction|].
  destruct nm as [|c nm]; [contradiction|].
  cbn in Hd, Hn. apply andb_true_iff in Hd as [Hd Hrun]. apply andb_true_iff in Hn as [Hc Hnm].
  unfold _extract_name, Re.match_, Re.attempt. cbn [file_name].
  set (whole := String d run +:+ "_" +:+ String c nm +:+ ".sql").
  change (Re.run whole name_pattern (fun _ g => Some g) whole None)
    with (Re.run whole name_pattern (fun _ g => Some g)
            (String d (run +:+ String "_" (String c (nm +:+ ".sql")))) None).
  cbn -[Ascii.eqb Re.cap Re.greedy_star Nat.eqb String.length].
  change (String.length (String d (run +:+ String "_" (String c (nm +:+ ".sql")))))
    with (String.length whole).
  rewrite Nat.eqb_refl, Hd.
  rewrite (greedy_star_all _ _ run _ (Some (String c nm))); [| exact Hrun | |].
  - reflexivity.
  - cbn -[Re.cap Re.greedy_star]. rewrite Hc.
    apply greedy_star_through; [exact Hnm|]. cbn -[Re.cap].
    change (String c (nm +:+ ".sql")) with (String c nm +:+ ".sql").
    unfold whole. rewrite <- (append_assoc (String d run) "_").
    rewrite cap_middle. reflexivity.
  - intros c' s' [= <- <-]. reflexivity.
Qed.

Lemma extract_name_of_versioned_file_witness :
  _extract_name {| parent_name := "host"; file_name := "003_add_stripe.v2.sql" |}
  = "add_stripe.v2".
Proof.
  apply (extract_name_of_versioned_file "host" "003" "add_stripe.v2");
    (discriminate || reflexivity).
Defined.

(** * Discovery *)

Section SortPermutation.
Context {A : Type} (le : A -> A -> bool).

Lemma insert_by_perm (x : A) (l : list A) : insert_by le x l ≡ₚ x :: l.
Proof.
  induction l as [|y l IH]; cbn; [reflexivity|].
  destruct (le x y); [reflexivity|]. rewrite IH. apply Permutation_swap.
Qed.

Lemma sort_by_perm (l : list A) : sort_by le l ≡ₚ l.
Proof.
  unfold sort_by. induction l as [|x l IH]; cbn; [reflexivity|].
  now rewrite insert_by_perm, IH.
Qed.

Lemma sort_by_elem (x : A) (l : list A) : x ∈ sort_by le l <-> x ∈ l.
Proof. now rewrite sort_by_perm. Qed.

End SortPermutation.

Section Found.
Context (env : Env).

Lemma load_files_elem scope_dir files m :
  m ∈ fst (load_files scope_dir files) <->
  exists file content,
    (file, content) ∈ files /\
    new_MigrationFile {| parent_name := scope_dir; file_name := file |} content = Ok m.
Proof.
  induction files as [|[file content] files IH]; cbn.
  - split; [intros H; inversion H|]. intros (? & ? & H & _). inversion H.
  - destruct (new_MigrationFile _ content) as [m'|e] eqn:E; cbn [fst].
    + rewrite elem_of_cons, IH. split.
      * intros [->|(f & c & H & H')].
        -- exists file, content. split; [left | exact E].
        -- exists f, c. split; [now right | exact H'].
      * intros (f & c & H & H'). apply elem_of_cons in H as [[= -> ->]|H].
        -- left. congruence.
        -- right. now exists f, c.
    + rewrite IH. split.
      * intros (f & c & H & H'). exists f, c. split; [now right | exact H'].
      * intros (f & c & H & H'). apply elem_of_cons in H as [[= -> ->]|H].
        -- congruence.
        -- now exists f, c.
Qed.

Lemma load_files_warning scope_dir files o :
  o ∈ snd (load_files scope_dir files) <->
  exists file content e,
    (file, content) ∈ files /\
    new_MigrationFile {| parent_name := scope_dir; file_name := file |} content = Raise e /\
    o = SkippingInvalid {| parent_name := scope_dir; file_name := file |} e.
Proof.
  induction files as [|[file content] files IH]; cbn.
  - split; [intros H; inversion H|]. intros (? & ? & ? & H & _). inversion H.
  - destruct (new_MigrationFile _ content) as [m'|e] eqn:E; cbn [snd].
    + rewrite IH. split.
      * intros (f & c & e & H & H'). exists f, c, e. split; [now right | exact H'].
      * intros (f & c & e & H & H' & Ho). apply elem_of_cons in H as [[= -> ->]|H].
        -- congruence.
        -- now exists f, c, e.
    + rewrite elem_of_cons, IH. split.
      * intros [->|(f & c & e' & H & H')].
        -- exists file, content, e. split; [left | now split].
        -- exists f, c, e'. split; [now right | exact H'].
      * intros (f & c & e' & H & H' & Ho). apply elem_of_cons in H as [[= -> ->]|H].
        -- left. congruence.
        -- right. now exists f, c, e'.
Qed.

Lemma load_files_count scope_dir files :
  (length (fst (load_files scope_dir files)) + length (snd (load_files scope_dir files))
   = length files)%nat.
Proof.
  induction files as [|[file content] files IH]; cbn; [reflexivity|].
  destruct (new_MigrationFile _ content); cbn; lia.
Qed.

Lemma load_scopes_elem scopes m :
  m ∈ fst (load_scopes env scopes) <->
  exists scope_dir files file content,
    scope_dir ∈ scopes /\ listing env scope_dir = Some files /\
    (file, content) ∈ files /\ ends_with ".sql" file = true /\
    new_MigrationFile {| parent_name := scope_dir; file_name := file |} content = Ok m.
Proof.
  induction scopes as [|d scopes IH]; cbn.
  - split; [intros H; inversion H|]. intros (? & ? & ? & ? & H & _). inversion H.
  - destruct (listing env d) as [files|] eqn:L.
    + cbn [fst]. rewrite elem_of_app, load_files_elem, IH. split.
      * intros [(f & c & H & H')|(d' & fs & f & c & Hd & H)].
        -- apply sort_by_elem, list_elem_of_filter in H as [He H].
           exists d, files, f, c. repeat split; try assumption. left.
        -- exists d', fs, f, c. split; [now right | exact H].
      * intros (d' & fs & f & c & Hd & Hl & Hf & He & H).
        apply elem_of_cons in Hd as [->|Hd].
        -- left. exists f, c. split; [|exact H].
           apply sort_by_elem, list_elem_of_filter. split; [exact He | congruence].
        -- right. now exists d', fs, f, c.
    + rewrite IH. split.
      * intros (d' & fs & f & c & Hd & H). exists d', fs, f, c. split; [now right | exact H].
      * intros (d' & fs & f & c & Hd & Hl & H).
        apply elem_of_cons in Hd as [->|Hd]; [congruence|].
        now exists d', fs, f, c.
Qed.

Lemma load_scopes_warning scopes o :
  o ∈ snd (load_scopes env scopes) <->
  exists scope_dir files file content e,
    scope_dir ∈ scopes /\ listing env scope_dir = Some files /\
    (file, content) ∈ files /\ ends_with ".sql" file = true /\
    new_MigrationFile {| parent_name := scope_dir; file_name := file |} content = Raise e /\
    o = SkippingInvalid {| parent_name := scope_dir; file_name := file |} e.
Proof.
  induction scopes as [|d scopes IH]; cbn.
  - split; [intros H; inversion H|]. intros (? & ? & ? & ? & ? & H & _). inversion H.
  - destruct (listing env d) as [files|] eqn:L.
    + cbn [snd]. rewrite elem_of_app, load_files_warning, IH. split.
      * intros [(f & c & e & H & H')|(d' & fs & f & c & e & Hd & H)].
        -- apply sort_by_elem, list_elem_of_filter in H as [He H].
           exists d, files, f, c, e. repeat split; try tauto. left.
        -- exists d', fs, f, c, e. split; [now right | exact H].
      * intros (d' & fs & f & c & e & Hd & Hl & Hf & He & H).
        apply elem_of_cons in Hd as [->|Hd].
        -- left. exists f, c, e. split; [|exact H].
           apply sort_by_elem, list_elem_of_filter. split; [exact He | congruence].
        -- right. now exists d', fs, f, c, e.
    + rewrite IH. split.
      * intros (d' & fs & f & c & e & Hd & H).
        exists d', fs, f, c, e. split; [now right | exact H].
      * intros (d' & fs & f & c & e & Hd & Hl & H).
        apply elem_of_cons in Hd as [->|Hd]; [congruence|].
        now exists d', fs, f, c, e.
Qed.

Lemma discover_migrations_scopes scope :
  discover_migrations env scope
  = (sort_by (by_key version) (fst (load_scopes env (searched scope))),
     snd (load_scopes env (searched scope))).
Proof. reflexivity. Qed.

(** X3. [discover_migrations] returns, in ascending order of version,
    exactly the migrations that the [.sql] files of the searched
    directories parse to, and prints one warning for each such file
    whose name is invalid; a directory that does not exist, and a file
    with another suffix, contribute nothing. *)
Theorem discover_migrations_finds_the_sql_files (scope : option string) :
  let found := discover_migrations env scope in
  StronglySorted (fun a b => (version a <= version b)%Z) (fst found) /\
  (forall m,
     m ∈ fst found <->
     exists sql_file content,
       globbed env scope sql_file content /\
       new_MigrationFile sql_file content = Ok m) /\
  (forall o,
     o ∈ snd found <->
     exists sql_file content e,
       globbed env scope sql_file content /\
       new_MigrationFile sql_file content = Raise e /\
       o = SkippingInvalid sql_file e).
Proof.
  cbv zeta. rewrite discover_migrations_scopes. cbn [fst snd]. split; [|split].
  - apply (sort_by_sorted version).
  - intros m. rewrite sort_by_elem, load_scopes_elem. unfold globbed. split.
    + intros (d & fs & f & c & Hd & Hl & Hf & He & H).
      exists {| parent_name := d; file_name := f |}, c. cbn. eauto 10.
    + intros ([d f] & c & (Hd & He & fs & Hl & Hf) & H). cbn in *.
      now exists d, fs, f, c.
  - intros o. rewrite load_scopes_warning. unfold globbed. split.
    + intros (d & fs & f & c & e & Hd & Hl & Hf & He & H & Ho).
      exists {| parent_name := d; file_name := f |}, c, e. cbn. eauto 10.
    + intros ([d f] & c & e & (Hd & He & fs & Hl & Hf) & H & Ho). cbn in *.
      now exists d, fs, f, c, e.
Qed.

End Found.

Lemma discover_migrations_finds_the_sql_files_witness :
  example_init init_sql ∈ fst (discover_migrations (environment no_error two_files) None).
Proof.
  apply (proj1 (proj2 (discover_migrations_finds_the_sql_files
                         (environment no_error two_files) None))).
  exists {| parent_name := "host"; file_name := "001_init.sql" |}, init_sql.
  split; [|reflexivity]. split; [|split].
  - apply elem_of_cons. now left.
  - reflexivity.
  - exists [("001_init.sql", init_sql)]. split; [reflexivity|].
    apply elem_of_cons. now left.
Defined.

Lemma digit_value_bounds (c : ascii) :
  Text.is_digit c = true -> (0 <= Text.digit_value c <= 9)%Z.
Proof.
  unfold Text.is_digit, Text.between, Text.digit_value. intros H.
  apply andb_true_iff in H as [H1 H2].
  apply N.leb_le in H1, H2. lia.
Qed.

Lemma int_acc_nonneg (s : string) (acc : Z) :
  every Text.is_digit s = true -> (0 <= acc)%Z -> (0 <= Text.int_acc acc s)%Z.
Proof.
  revert acc. induction s as [|c s IH]; cbn; intros acc H Hacc; [exact Hacc|].
  apply andb_true_iff in H as [Hc Hs]. apply IH; [exact Hs|].
  pose proof (digit_value_bounds c Hc). lia.
Qed.

Lemma extract_version_nonneg (filepath : Path) (v : Z) :
  _extract_version filepath = Ok v -> (0 <= v)%Z.
Proof.
  unfold _extract_version, Re.match_, Re.attempt.
  destruct (Re.run _ _ _ _ _) as [g|] eqn:H; [|discriminate].
  intros [= <-]. cbn -[Ascii.eqb Re.cap] in H. rewrite Nat.eqb_refl in H.
  destruct (file_name filepath) as [|c s]; [discriminate|].
  destruct (Text.is_digit c) eqn:Hc; [|discriminate].
  apply greedy_star_inv in H as (run & rest & -> & Hrun & H).
  destruct rest as [|u rest]; [discriminate|].
  destruct (Re.exactly "_" u); [|discriminate]. injection H as <-.
  change (String c (run +:+ String u rest)) with (String c run +:+ String u rest).
  rewrite cap_prefix. apply int_acc_nonneg; [|lia].
  cbn. now rewrite Hc, Hrun.
Qed.

Section Fields.
Context (env : Env).

Lemma new_MigrationFile_fields (sql_file : Path) (content : string) (m : MigrationFile) :
  new_MigrationFile sql_file content = Ok m ->
  filepath m = sql_file /\
  _extract_version sql_file = Ok (version m) /\
  name m = _extract_name sql_file /\
  scope m = _extract_scope sql_file /\
  (up_sql m, down_sql m) = _parse_sql content.
Proof.
  unfold new_MigrationFile. destruct (_extract_version sql_file) as [v|e]; [|discriminate].
  intros [= <-]. cbn. repeat split. all: now destruct (_parse_sql content).
Qed.

(** X4. Every migration that [discover_migrations] returns carries the
    version its file name spells, which is not negative, the name
    [_extract_name] gives, and a file name ending in [.sql]; when no
    scope filter is given its scope is the directory it was found in,
    one of host, tenant and both, never unknown. *)
Theorem discovered_migration_fields (scope_filter : option string) (m : MigrationFile) :
  m ∈ fst (discover_migrations env scope_filter) ->
  _extract_version (filepath m) = Ok (version m) /\
  (0 <= version m)%Z /\
  name m = _extract_name (filepath m) /\
  ends_with ".sql" (file_name (filepath m)) = true /\
  (scope_filter = None ->
   scope m = parent_name (filepath m) /\
   scope m ∈ ["host"; "tenant"; "both"]).
Proof.
  rewrite discover_migrations_scopes. cbn [fst].
  rewrite sort_by_elem, load_scopes_elem.
  intros (d & fs & f & c & Hd & Hl & Hf & He & H).
  apply new_MigrationFile_fields in H as (Hp & Hv & Hn & Hs & _).
  rewrite Hp. cbn [file_name parent_name]. repeat split; try assumption.
  - eapply extract_version_nonneg, Hv.
  - rewrite Hs. unfold _extract_scope. cbn [parent_name].
    subst scope_filter. cbn in Hd. now rewrite bool_decide_eq_true_2.
  - rewrite Hs. unfold _extract_scope. cbn [parent_name].
    subst scope_filter. cbn in Hd. now rewrite bool_decide_eq_true_2.
Qed.

End Fields.

Lemma two_files_discovered :
  fst (discover_migrations (environment no_error two_files) None)
  = [example_init init_sql; example_add_col add_col_sql].
Proof. vm_compute. reflexivity. Qed.

Lemma discovered_migration_fields_witness :
  let m := example_add_col add_col_sql in
  _extract_version (filepath m) = Ok (version m) /\
  (0 <= version m)%Z /\
  name m = _extract_name (filepath m) /\
  ends_with ".sql" (file_name (filepath m)) = true /\
  (@None string = None ->
   scope m = parent_name (filepath m) /\ scope m ∈ ["host"; "tenant"; "both"]).
Proof.
  apply (discovered_migration_fields (environment no_error two_files) None).
  rewrite two_files_discovered. apply elem_of_cons. right. apply elem_of_cons. now left.
Defined.

(** * Invariants of a run *)

Section Moves.
Context (env : Env) (self : MigrationRunner).
Context (step : Conn -> Conn -> Prop).
Hypothesis step_refl : forall c, step c c.
Hypothesis step_trans : forall a b c, step a b -> step b c -> step a c.

Lemma moves_ret {A : Type} (a : A) : moves step (ret a).
Proof using step_refl. intros c. apply step_refl. Qed.

Lemma moves_raise {A : Type} (e : Exn) : moves step (@raise A e).
Proof using step_refl. intros c. apply step_refl. Qed.

Lemma moves_print (o : Out) : moves step (print o).
Proof using step_refl. intros c. apply step_refl. Qed.

Lemma moves_printing {A : Type} (x : A * list Out) : moves step (printing x).
Proof using step_refl. intros c. apply step_refl. Qed.

Lemma moves_bind {A B : Type} (m : M A) (k : A -> M B) :
  moves step m -> (forall a, moves step (k a)) -> moves step (bind m k).
Proof using step_trans.
  intros Hm Hk c. unfold bind.
  destruct (returned (m c)) as [a|e]; cbn; [|apply Hm].
  eapply step_trans; [apply Hm | apply Hk].
Qed.

Lemma moves_try_except {A : Type} (m : M A) (h : Exn -> M A) :
  moves step m -> (forall e, moves step (h e)) -> moves step (try_except m h).
Proof using step_trans.
  intros Hm Hh c. unfold try_except.
  destruct (returned (m c)) as [a|e]; cbn; [apply Hm|].
  eapply step_trans; [apply Hm | apply Hh].
Qed.

Hypothesis step_plain : forall op, plain op -> moves step (call env op).
Hypothesis step_attempt : forall migration direction (done : Z -> Out) (failed : Exn -> Out),
  dry_run self = false ->
  moves step
    (try_except
       (r <- apply_migration env migration direction ;;
        print (done (snd r)) ;;
        ret None)
       (fun e => print (failed e) ;; close env ;; ret (Some false))).

Lemma moves_ensure : moves step (_ensure_migration_table env).
Proof using step_trans step_plain.
  apply moves_bind; [|intros _]; now apply step_plain.
Qed.

Lemma moves_get_current_version : moves step (get_current_version env).
Proof using step_refl step_trans step_plain.
  apply moves_try_except.
  - apply moves_bind; [apply moves_ensure|]. intros _.
    apply moves_bind; [now apply step_plain|]. intros _.
    apply moves_bind; [|intros r; apply moves_ret].
    intros c. apply step_refl.
  - intros e. apply moves_bind; [apply moves_print | intros _; apply moves_ret].
Qed.

Lemma moves_close_ret {A : Type} (a : A) : moves step (close env ;; ret a).
Proof using step_refl step_trans step_plain.
  apply moves_bind; [now apply step_plain | intros _; apply moves_ret].
Qed.

Lemma moves_migrate_loop db_name pending :
  moves step (migrate_loop env self db_name pending).
Proof using step_refl step_trans step_plain step_attempt.
  induction pending as [|m rest IH]; cbn [migrate_loop]; [apply moves_close_ret|].
  destruct (String.eqb (scope m) "host" && names_tenant db_name); [exact IH|].
  destruct (String.eqb (scope m) "tenant" && is_host env db_name); [exact IH|].
  destruct (Bool.bool_dec (dry_run self) true) as [D|D];
    [|apply not_true_is_false in D]; rewrite D.
  - apply moves_bind; [apply moves_print | intros _; exact IH].
  - apply moves_bind; [now apply step_attempt|].
    intros [b|]; [apply moves_ret | exact IH].
Qed.

Lemma moves_rollback_loop to_rollback :
  moves step (rollback_loop env self to_rollback).
Proof using step_refl step_trans step_plain step_attempt.
  induction to_rollback as [|m rest IH]; cbn [rollback_loop]; [apply moves_close_ret|].
  destruct (Bool.bool_dec (dry_run self) true) as [D|D];
    [|apply not_true_is_false in D]; rewrite D.
  - apply moves_bind; [apply moves_print | intros _; exact IH].
  - apply moves_bind; [now apply step_attempt|].
    intros [b|]; [apply moves_ret | exact IH].
Qed.

Lemma moves_migrate_database_body db_name db_label target_version :
  moves step (migrate_database_body env self db_name db_label target_version).
Proof using step_refl step_trans step_plain step_attempt.
  apply moves_bind; [apply moves_ensure|]. intros _.
  apply moves_bind; [apply moves_get_current_version|]. intros current.
  apply moves_bind; [apply moves_printing|]. intros migrations.
  cbv beta zeta. destruct (last (pending_migrations _ _ _)).
  - apply moves_bind; [apply moves_print | intros _; apply moves_migrate_loop].
  - apply moves_bind; [apply moves_print | intros _; apply moves_close_ret].
Qed.

Lemma moves_rollback_database_body db_name db_label steps target_version :
  moves step (rollback_database_body env self db_name db_label steps target_version).
Proof using step_refl step_trans step_plain step_attempt.
  apply moves_bind; [apply moves_ensure|]. intros _.
  apply moves_bind; [apply moves_get_current_version|]. intros current.
  unfold rollback_from. destruct (current =? 0)%Z.
  { apply moves_bind; [apply moves_print | intros _; apply moves_close_ret]. }
  destruct (_ >=? current)%Z.
  { apply moves_bind; [apply moves_print | intros _; apply moves_close_ret]. }
  apply moves_bind; [apply moves_printing|]. intros migrations.
  apply moves_bind; [apply moves_print | intros _; apply moves_rollback_loop].
Qed.

End Moves.

Section Worlds.
Context (env : Env) (self : MigrationRunner).
Context (R : Store -> Store -> Prop).
Hypothesis R_refl : forall s, R s s.
Hypothesis R_trans : forall a b c, R a b -> R b c -> R a c.

Lemma related_refl (w w' : World) : databases w' = databases w -> related R w w'.
Proof using R_refl.
  intros E d. rewrite E. destruct (databases w !! d); constructor. apply R_refl.
Qed.

Lemma related_trans (w1 w2 w3 : World) :
  related R w1 w2 -> related R w2 w3 -> related R w1 w3.
Proof using R_trans.
  intros H12 H23 d. specialize (H12 d). specialize (H23 d).
  destruct H12 as [a b Hab|]; inversion H23; subst; constructor.
  eapply R_trans; eassumption.
Qed.

(** A run on one database relates the worlds as its body relates the
    committed states of the connection. *)
Lemma in_connection_related db_name db_label (body : M bool) (w : World) :
  (forall c, working c = committed c ->
             R (committed c) (committed (after (body c)))) ->
  related R w (snd (in_connection env db_name db_label body w)).
Proof using R_refl.
  intros Hbody. unfold in_connection, _get_db_connection.
  destruct (refuses env (resolved env db_name)); [now apply related_refl|].
  destruct (databases w !! resolved env db_name) as [s|] eqn:L; [|now apply related_refl].
  set (c := {| database := resolved env db_name; committed := s; working := s;
               calls := [] |}).
  assert (H : related R w
            {| databases := <[database c := committed (after (body c))]> (databases w);
               console := console w ++ printed (body c) |}).
  { intros d. cbn. destruct (decide (d = resolved env db_name)) as [->|Hd].
    - rewrite lookup_insert_eq, L. constructor. now apply (Hbody c).
    - rewrite lookup_insert_ne by congruence.
      destruct (databases w !! d); constructor. apply R_refl. }
  destruct (returned (body c)); exact H.
Qed.

Hypothesis one_migrate : forall db_name db_label target_version w,
  related R w (snd (migrate_database env self db_name db_label target_version w)).
Hypothesis one_rollback : forall db_name db_label steps target_version w,
  related R w (snd (rollback_database env self db_name db_label steps target_version w)).

Lemma foldl_related {X : Type} (f : World -> X -> World) (l : list X) (w : World) :
  (forall w x, related R w (f w x)) -> related R w (foldl f w l).
Proof using R_refl R_trans.
  intros Hf. revert w. induction l as [|x l IH]; intros w; cbn.
  - now apply related_refl.
  - eapply related_trans; [apply Hf | apply IH].
Qed.

Lemma migrate_all_related target_version (w : World) :
  related R w (migrate_all env self target_version w).
Proof using R_refl R_trans one_migrate.
  unfold migrate_all.
  set (w0 := if dry_run self then _ else _).
  assert (H0 : related R w w0).
  { apply related_refl. subst w0. now destruct (dry_run self). }
  eapply related_trans; [exact H0|].
  eapply related_trans; [|apply related_refl; reflexivity].
  set (w1 := say (Say "MIGRATING HOST DATABASE") w0).
  eapply related_trans; [apply (related_refl w0 w1); reflexivity|].
  eapply related_trans; [apply one_migrate|].
  set (w2 := tell _ _).
  destruct (fst (get_all_tenant_databases env)) as [|t ts].
  - now apply related_refl.
  - eapply related_trans; [|apply foldl_related; intros; apply one_migrate].
    now apply related_refl.
Qed.

Lemma rollback_all_related steps target_version (w : World) :
  related R w (rollback_all env self steps target_version w).
Proof using R_refl R_trans one_rollback.
  unfold rollback_all.
  set (w0 := if dry_run self then _ else _).
  assert (H0 : related R w w0).
  { apply related_refl. subst w0. now destruct (dry_run self). }
  eapply related_trans; [exact H0|].
  eapply related_trans; [|apply related_refl; reflexivity].
  set (w1 := say (Say "ROLLING BACK HOST DATABASE") w0).
  eapply related_trans; [apply (related_refl w0 w1); reflexivity|].
  eapply related_trans; [apply one_rollback|].
  set (w2 := tell _ _).
  destruct (fst (get_all_tenant_databases env)) as [|t ts].
  - now apply related_refl.
  - eapply related_trans; [|apply foldl_related; intros; apply one_rollback].
    now apply related_refl.
Qed.

End Worlds.

(** ** A dry run *)

Section DryRun.
Context (env : Env) (self : MigrationRunner).
Hypothesis dry : dry_run self = true.

Lemma untouched_refl c : untouched c c.
Proof. intros H. now split. Qed.

Lemma untouched_trans a b c : untouched a b -> untouched b c -> untouched a c.
Proof.
  intros Hab Hbc Ha. destruct (Hab Ha) as [Hb Eb]. destruct (Hbc Hb) as [Hc Ec].
  split; [exact Hc | congruence].
Qed.

Lemma untouched_plain op : plain op -> moves untouched (call env op).
Proof.
  intros Hop c Hc. unfold call.
  destruct (driver_raises env op c); [now split|].
  destruct op as [[| |sql|r]| | |]; try contradiction; cbn.
  - split; [|reflexivity]. rewrite <- Hc. unfold content. cbn.
    now destruct (table (working c)).
  - destruct (table (working c)); now split.
  - now split.
  - now split.
Qed.

Lemma untouched_attempt migration direction (done : Z -> Out) (failed : Exn -> Out) :
  dry_run self = false ->
  moves untouched
    (try_except
       (r <- apply_migration env migration direction ;;
        print (done (snd r)) ;;
        ret None)
       (fun e => print (failed e) ;; close env ;; ret (Some false))).
Proof using dry. intros D. rewrite dry in D. discriminate. Qed.

Lemma dry_migrate_database db_name db_label target_version w :
  related same_content w
    (snd (migrate_database env self db_name db_label target_version w)).
Proof using dry.
  apply in_connection_related; [reflexivity|]. intros c Hc.
  apply (moves_migrate_database_body env self untouched untouched_refl untouched_trans
           untouched_plain untouched_attempt).
  now rewrite Hc.
Qed.

Lemma dry_rollback_database db_name db_label steps target_version w :
  related same_content w
    (snd (rollback_database env self db_name db_label steps target_version w)).
Proof using dry.
  apply in_connection_related; [reflexivity|]. intros c Hc.
  apply (moves_rollback_database_body env self untouched untouched_refl untouched_trans
           untouched_plain untouched_attempt).
  now rewrite Hc.
Qed.

Lemma same_content_trans a b c : same_content a b -> same_content b c -> same_content a c.
Proof. unfold same_content. congruence. Qed.

End DryRun.

(** X5. In dry-run mode nothing is written: after [migrate_database],
    [rollback_database], [migrate_all] or [rollback_all], whatever the
    driver does, every database has the executed bodies and the
    tracking rows it had before (the tracking table itself may have
    been created, empty). *)
Theorem dry_run_writes_nothing (env : Env) (self : MigrationRunner)
    db_name db_label steps target_version (w : World) :
  dry_run self = true ->
  related same_content w
    (snd (migrate_database env self db_name db_label target_version w)) /\
  related same_content w
    (snd (rollback_database env self db_name db_label steps target_version w)) /\
  related same_content w (migrate_all env self target_version w) /\
  related same_content w (rollback_all env self steps target_version w).
Proof.
  intros D. split; [|split; [|split]].
  - now apply dry_migrate_database.
  - now apply dry_rollback_database.
  - apply migrate_all_related; [reflexivity | apply same_content_trans |].
    intros. now apply dry_migrate_database.
  - apply rollback_all_related; [reflexivity | apply same_content_trans |].
    intros. now apply dry_rollback_database.
Qed.

(** ** Bodies and their rows *)

Section Paired.
Context (env : Env) (self : MigrationRunner).
Hypothesis bodies : plain_bodies env.

Lemma pairs_refl c : pairs c c.
Proof. intros H. exact H. Qed.

Lemma pairs_trans a b c : pairs a b -> pairs b c -> pairs a c.
Proof. intros Hab Hbc Ha. apply Hbc, Hab, Ha. Qed.

Lemma pairs_plain op : plain op -> moves pairs (call env op).
Proof.
  intros Hop c [Hc Hw]. unfold call.
  destruct (driver_raises env op c); [now split|].
  destruct op as [[| |sql|r]| | |]; try contradiction; cbn.
  - split; [exact Hc|]. unfold paired in *. cbn. now destruct (table (working c)).
  - destruct (table (working c)); now split.
  - now split.
  - now split.
Qed.

(** One migration of a loop: applied and committed with its row, or
    failed and the connection closed with nothing of it committed, be it
    that the [rollback] raised. *)
Lemma pairs_attempt migration direction (done : Z -> Out) (failed : Exn -> Out) :
  dry_run self = false ->
  moves pairs
    (try_except
       (r <- apply_migration env migration direction ;;
        print (done (snd r)) ;;
        ret None)
       (fun e => print (failed e) ;; close env ;; ret (Some false))).
Proof using bodies.
  intros _ c [Hc Hw]. unfold try_except, bind, print, close.
  destruct (apply_migration_outcome env migration direction c)
    as [(_ & ->) | [(_ & e & more & kept & w & -> & [->|[Hq _]] & _)
                   | (_ & rows & Ht & _ & ->)]]; norm.
  - now split.
  - now split.
  - rewrite bodies in Hq. discriminate.
  - unfold paired in *. rewrite Ht in Hw. cbn in *.
    rewrite !length_app. cbn. split; lia.
Qed.

Lemma pairs_migrate_database db_name db_label target_version w :
  related stays_paired w
    (snd (migrate_database env self db_name db_label target_version w)).
Proof using bodies.
  apply in_connection_related; [now intros s|]. intros c Hc Hp.
  refine (proj1 (moves_migrate_database_body env self pairs pairs_refl pairs_trans
                   pairs_plain pairs_attempt _ _ _ c _)).
  now rewrite Hc.
Qed.

Lemma pairs_rollback_database db_name db_label steps target_version w :
  related stays_paired w
    (snd (rollback_database env self db_name db_label steps target_version w)).
Proof using bodies.
  apply in_connection_related; [now intros s|]. intros c Hc Hp.
  refine (proj1 (moves_rollback_database_body env self pairs pairs_refl pairs_trans
                   pairs_plain pairs_attempt _ _ _ _ c _)).
  now rewrite Hc.
Qed.

Lemma stays_paired_trans a b c : stays_paired a b -> stays_paired b c -> stays_paired a c.
Proof. unfold stays_paired. auto. Qed.

End Paired.

(** X7. Bodies and rows stay paired when no migration body ends its
    transaction: a database that has as many executed bodies as
    tracking rows still has after [migrate_database],
    [rollback_database], [migrate_all] or [rollback_all], whichever
    calls of the driver raise, [rollback] included. No body is left
    committed without its row, and no row without its body. *)
Theorem bodies_and_rows_stay_paired (env : Env) (self : MigrationRunner)
    db_name db_label steps target_version (w : World) :
  plain_bodies env ->
  related stays_paired w
    (snd (migrate_database env self db_name db_label target_version w)) /\
  related stays_paired w
    (snd (rollback_database env self db_name db_label steps target_version w)) /\
  related stays_paired w (migrate_all env self target_version w) /\
  related stays_paired w (rollback_all env self steps target_version w).
Proof.
  intros Hb. split; [|split; [|split]].
  - now apply pairs_migrate_database.
  - now apply pairs_rollback_database.
  - apply migrate_all_related; [now intros s | apply stays_paired_trans |].
    intros. now apply pairs_migrate_database.
  - apply rollback_all_related; [now intros s | apply stays_paired_trans |].
    intros. now apply pairs_rollback_database.
Qed.

Lemma bodies_and_rows_stay_paired_witness :
  related stays_paired fresh_world
    (migrate_all (environment insert_and_rollback_error two_files) runner None fresh_world).
Proof.
  refine (proj1 (proj2 (proj2
            (bodies_and_rows_stay_paired (environment insert_and_rollback_error two_files)
               runner "saas_host" "HOST" 1%Z None fresh_world _)))).
  intros sql. reflexivity.
Defined.

(** ** The databases a run visits *)

Section Visited.
Context (env : Env) (self : MigrationRunner).

Lemma migrate_all_frame target_version (w : World) (other : string) :
  other ∉ map (fun x => resolved env (fst x)) (all_databases env) ->
  databases (migrate_all env self target_version w) !! other = databases w !! other.
Proof.
  intros Hn. unfold all_databases in Hn. cbn [map fst] in Hn.
  apply not_elem_of_cons in Hn as [Hhost Hn]. rewrite <- list_fmap_compose in Hn.
  unfold migrate_all.
  set (tenant_dbs := fst (get_all_tenant_databases env)) in *.
  set (step := fun (w : World) (t : string * string) =>
                 snd (migrate_database env self (snd t) ("TENANT " +:+ fst t)
                        target_version w)).
  set (key := fun t : string * string => resolved env (snd t)).
  assert (Hframe : forall w x o, o <> key x ->
            databases (step w x) !! o = databases w !! o).
  { intros. now apply migrate_database_frame. }
  change (databases (say (Say "MIGRATION COMPLETE") ?x)) with (databases x).
  set (w1 := tell _ _).
  assert (H1 : databases w1 !! other = databases w !! other).
  { subst w1. cbn [tell databases]. rewrite migrate_database_frame by exact Hhost.
    now destruct (dry_run self). }
  destruct tenant_dbs as [|t ts] eqn:E; [exact H1|].
  rewrite (foldl_frame step key Hframe) by exact Hn. exact H1.
Qed.

Lemma rollback_all_frame steps target_version (w : World) (other : string) :
  other ∉ map (fun x => resolved env (fst x)) (all_databases env) ->
  databases (rollback_all env self steps target_version w) !! other = databases w !! other.
Proof.
  intros Hn. unfold all_databases in Hn. cbn [map fst] in Hn.
  apply not_elem_of_cons in Hn as [Hhost Hn]. rewrite <- list_fmap_compose in Hn.
  unfold rollback_all.
  set (tenant_dbs := fst (get_all_tenant_databases env)) in *.
  set (step := fun (w : World) (t : string * string) =>
                 snd (rollback_database env self (snd t) ("TENANT " +:+ fst t)
                        steps target_version w)).
  set (key := fun t : string * string => resolved env (snd t)).
  assert (Hframe : forall w x o, o <> key x ->
            databases (step w x) !! o = databases w !! o).
  { intros. now apply rollback_database_frame. }
  change (databases (say (Say "ROLLBACK COMPLETE") ?x)) with (databases x).
  set (w1 := tell _ _).
  assert (H1 : databases w1 !! other = databases w !! other).
  { subst w1. cbn [tell databases]. rewrite rollback_database_frame by exact Hhost.
    now destruct (dry_run self). }
  destruct tenant_dbs as [|t ts] eqn:E; [exact H1|].
  rewrite (foldl_frame step key Hframe) by exact Hn. exact H1.
Qed.

(** The databases of the tenants that are listed: active, and of type
    tenant. *)
Lemma tenant_databases_listed (db_name db_label : string) :
  (db_name, db_label) ∈ all_databases env <->
  (db_name = POSTGRES_DATABASE env /\ db_label = "HOST") \/
  exists tenants t,
    tenants_table env = Ok tenants /\ t ∈ tenants /\
    is_active t = true /\ tenant_type t = "tenant" /\
    db_name = Text.last_segment "/" (dbconnection t) /\
    db_label = "TENANT " +:+ tenant_id t.
Proof.
  unfold all_databases. rewrite elem_of_cons.
  assert (Hh : (db_name, db_label) = (POSTGRES_DATABASE env, "HOST") <->
               db_name = POSTGRES_DATABASE env /\ db_label = "HOST").
  { split; [now intros [= -> ->] | now intros [-> ->]]. }
  rewrite Hh. clear Hh.
  enough (Ht : (db_name, db_label)
               ∈ map (fun t => (snd t, "TENANT " +:+ fst t))
                   (fst (get_all_tenant_databases env)) <->
               exists tenants t,
                 tenants_table env = Ok tenants /\ t ∈ tenants /\
                 is_active t = true /\ tenant_type t = "tenant" /\
                 db_name = Text.last_segment "/" (dbconnection t) /\
                 db_label = "TENANT " +:+ tenant_id t) by now rewrite Ht.
  unfold get_all_tenant_databases.
  destruct (tenants_table env) as [tenants|e]; cbn [fst].
  - rewrite list_elem_of_fmap. split.
    + intros ([id db] & [= -> ->] & H). cbn in *.
      apply list_elem_of_fmap in H as (t & [= -> ->] & H).
      apply list_elem_of_filter in H as [Hf H].
      apply andb_true_iff in Hf as [Ha Ht]. apply String.eqb_eq in Ht.
      now exists tenants, t.
    + intros (ts & t & [= <-] & Ht & Ha & Hty & -> & ->).
      exists (tenant_id t, Text.last_segment "/" (dbconnection t)). split; [reflexivity|].
      apply list_elem_of_fmap. exists t. split; [reflexivity|].
      apply list_elem_of_filter. split; [|exact Ht].
      rewrite Ha. cbn. now apply String.eqb_eq.
  - cbn. split; [intros H; inversion H|]. now intros (ts & t & [=] & _).
Qed.

End Visited.

(** X8. A run over all databases touches the host database and the
    databases of the tenants that are active and of type tenant, and no
    other: a database with another name is after [migrate_all] and after
    [rollback_all] what it was before. In particular only the host
    database is touched when the tenant lookup fails. *)
Theorem only_listed_databases_are_visited (env : Env) (self : MigrationRunner)
    steps target_version (w : World) (other : string) :
  other <> resolved env (POSTGRES_DATABASE env) ->
  (forall tenants t,
     tenants_table env = Ok tenants -> t ∈ tenants ->
     is_active t = true -> tenant_type t = "tenant" ->
     other <> resolved env (Text.last_segment "/" (dbconnection t))) ->
  databases (migrate_all env self target_version w) !! other = databases w !! other /\
  databases (rollback_all env self steps target_version w) !! other = databases w !! other.
Proof.
  intros Hhost Htenants.
  assert (Hn : other ∉ map (fun x => resolved env (fst x)) (all_databases env)).
  { intros H. apply list_elem_of_fmap in H as ([db label] & -> & H). cbn [fst] in *.
    apply tenant_databases_listed in H as [[-> _]|(ts & t & Hts & Ht & Ha & Hty & -> & _)].
    - now apply Hhost.
    - now apply (Htenants ts t). }
  split; [now apply migrate_all_frame | now apply rollback_all_frame].
Qed.

Lemma only_listed_databases_are_visited_witness :
  let env := environment no_error two_files in
  let w := {| databases := <["tenant_gone" := empty_database]> (databases fresh_world);
              console := [] |} in
  databases (migrate_all env runner None w) !! "tenant_gone" = Some empty_database /\
  databases (rollback_all env runner 1 None w) !! "tenant_gone" = Some empty_database.
Proof.
  cbv zeta.
  refine (only_listed_databases_are_visited (environment no_error two_files) runner
            1%Z None _ "tenant_gone" _ _).
  - discriminate.
  - intros tenants t [= <-] Ht Ha Hty.
    apply elem_of_cons in Ht as [->|Ht]; [discriminate|].
    apply list_elem_of_singleton in Ht as ->. discriminate.
Defined.

Lemma dry_run_writes_nothing_witness :
  related same_content fresh_world
    (migrate_all (environment host_body_error two_files) {| dry_run := true |} None
       fresh_world).
Proof.
  exact (proj1 (proj2 (proj2
           (dry_run_writes_nothing (environment host_body_error two_files)
              {| dry_run := true |} "saas_host" "HOST" 1%Z None fresh_world eq_refl)))).
Defined.

(** ** Closing the connection *)

Section Closing.
Context (env : Env) (self : MigrationRunner).

Lemma open_refl c : open_calls c c.
Proof. exists []. split; [now rewrite app_nil_r | apply not_elem_of_nil]. Qed.

Lemma open_trans a b c : open_calls a b -> open_calls b c -> open_calls a c.
Proof.
  intros (l1 & E1 & H1) (l2 & E2 & H2). exists (l1 ++ l2).
  split; [now rewrite E2, E1, app_assoc|]. rewrite elem_of_app. tauto.
Qed.

Lemma open_then_closed a b c : open_calls a b -> closed_once b c -> closed_once a c.
Proof.
  intros (l1 & E1 & H1) (l2 & E2 & H2). exists (l1 ++ l2).
  split; [now rewrite E2, E1, <- !app_assoc|]. rewrite elem_of_app. tauto.
Qed.

Lemma calls_after_call op c : calls (after (call env op c)) = calls c ++ [op].
Proof.
  destruct (call_cases env op c) as [(c' & _ & He & ->) | ->]; [|reflexivity].
  cbn. f_equal. destruct op as [q| | |]; cbn in He.
  - destruct (exec_stmt q (working c)); [|discriminate]. now injection He as <-.
  - now injection He as <-.
  - now injection He as <-.
  - now injection He as <-.
Qed.

Lemma open_call op : op <> Close -> moves open_calls (call env op).
Proof.
  intros Hop c. exists [op]. split; [apply calls_after_call|].
  intros H. apply list_elem_of_singleton in H. congruence.
Qed.

Lemma close_closes c : closed_once c (after (close env c)).
Proof.
  exists []. split; [apply calls_after_call | apply not_elem_of_nil].
Qed.

Lemma open_apply migration direction :
  moves open_calls (apply_migration env migration direction).
Proof.
  unfold apply_migration.
  destruct (String.eqb (sql_of migration direction) "");
    [apply (moves_raise open_calls open_refl)|].
  apply (moves_try_except open_calls open_trans).
  - apply (moves_bind open_calls open_trans); [now apply open_call|]. intros _.
    apply (moves_bind open_calls open_trans); [intros c; apply open_refl|]. intros ms.
    apply (moves_bind open_calls open_trans); [now apply open_call|]. intros _.
    apply (moves_bind open_calls open_trans); [now apply open_call|]. intros _.
    apply (moves_ret open_calls open_refl).
  - intros e. apply (moves_bind open_calls open_trans); [now apply open_call|].
    intros _. apply (moves_raise open_calls open_refl).
Qed.

Lemma open_ensure : moves open_calls (_ensure_migration_table env).
Proof.
  apply (moves_bind open_calls open_trans); [|intros _]; now apply open_call.
Qed.

Lemma open_get_current_version :
  moves open_calls (get_current_version env).
Proof.
  apply (moves_try_except open_calls open_trans).
  - apply (moves_bind open_calls open_trans); [apply open_ensure|]. intros _.
    apply (moves_bind open_calls open_trans); [now apply open_call|]. intros _.
    apply (moves_bind open_calls open_trans); [intros c; apply open_refl|]. intros r.
    apply (moves_ret open_calls open_refl).
  - intros e. apply (moves_bind open_calls open_trans);
      [apply (moves_print open_calls open_refl)|].
    intros _. apply (moves_ret open_calls open_refl).
Qed.

Lemma get_current_version_returns c : exists v, returned (get_current_version env c) = Ok v.
Proof.
  rewrite get_current_version_unfold. cbv zeta.
  destruct (returned (version_query env c)); eauto.
Qed.

Lemma close_ret_closes (b : bool) c :
  returned ((close env ;; ret b) c) = Ok b /\
  closed_once c (after ((close env ;; ret b) c)).
Proof.
  unfold bind, close, ret. rewrite call_close. cbn. split; [reflexivity|].
  exists []. split; [reflexivity | apply not_elem_of_nil].
Qed.

Lemma migrate_loop_closes db_name pending c :
  exists b, returned (migrate_loop env self db_name pending c) = Ok b /\
            closed_once c (after (migrate_loop env self db_name pending c)).
Proof.
  revert c. induction pending as [|m rest IH]; intros c.
  - exists true. apply close_ret_closes.
  - destruct (scope_skipped env db_name m) eqn:S.
    { rewrite migrate_loop_skip by exact S. apply IH. }
    destruct (dry_run self) eqn:D.
    { rewrite migrate_loop_dry_run by assumption. cbv zeta. cbn. apply IH. }
    rewrite migrate_loop_step by assumption. cbv zeta.
    pose proof (open_apply m "up" c) as Ho.
    destruct (returned (apply_migration env m "up" c)) as [[ok ms]|e]; cbn.
    + destruct (IH (after (apply_migration env m "up" c))) as (b & Hb & Hc).
      exists b. split; [exact Hb | eapply open_then_closed; eassumption].
    + exists false. split; [reflexivity|].
      eapply open_then_closed; [exact Ho | apply close_closes].
Qed.

Lemma rollback_loop_closes to_rollback c :
  exists b, returned (rollback_loop env self to_rollback c) = Ok b /\
            closed_once c (after (rollback_loop env self to_rollback c)).
Proof.
  revert c. induction to_rollback as [|m rest IH]; intros c.
  - exists true. apply close_ret_closes.
  - destruct (dry_run self) eqn:D.
    { rewrite rollback_loop_dry_run by assumption. cbv zeta. cbn. apply IH. }
    rewrite rollback_loop_step by assumption. cbv zeta.
    pose proof (open_apply m "down" c) as Ho.
    destruct (returned (apply_migration env m "down" c)) as [[ok ms]|e]; cbn.
    + destruct (IH (after (apply_migration env m "down" c))) as (b & Hb & Hc).
      exists b. split; [exact Hb | eapply open_then_closed; eassumption].
    + exists false. split; [reflexivity|].
      eapply open_then_closed; [exact Ho | apply close_closes].
Qed.

End Closing.

Section ClosingBodies.
Context (env : Env) (self : MigrationRunner).

Lemma body_closes (tail : Z -> M bool) (c : Conn) :
  (forall v c', exists b, returned (tail v c') = Ok b /\ closed_once c' (after (tail v c'))) ->
  closes_or_fails_early env
    (_ensure_migration_table env ;; v <- get_current_version env ;; tail v) c.
Proof.
  intros Htail. unfold closes_or_fails_early. cbv zeta.
  pose proof (open_ensure env c) as Ho.
  set (rest := fun _ : unit => v <- get_current_version env ;; tail v).
  change (_ensure_migration_table env ;; v <- get_current_version env ;; tail v)
    with (bind (_ensure_migration_table env) rest).
  assert (Eq : forall x, returned (_ensure_migration_table env c) = x ->
            bind (_ensure_migration_table env) rest c
            = match x with
              | Ok a => and_then (_ensure_migration_table env c) (rest a)
              | Raise e => {| returned := Raise e;
                              after := after (_ensure_migration_table env c);
                              printed := printed (_ensure_migration_table env c) |}
              end).
  { intros x <-. reflexivity. }
  destruct (returned (_ensure_migration_table env c)) as [[]|e] eqn:E;
    rewrite (Eq _ eq_refl); cbn [returned after and_then].
  - set (c1 := after (_ensure_migration_table env c)) in *.
    pose proof (open_get_current_version env c1) as Hg.
    destruct (get_current_version_returns env c1) as [v Hv].
    unfold rest, bind. rewrite Hv. cbn [returned after and_then].
    destruct (Htail v (after (get_current_version env c1))) as (b & Hb & Hc).
    split; [now exists b|].
    eapply open_then_closed; [|exact Hc]. eapply open_trans; eassumption.
  - auto.
Qed.

Lemma after_printing {A B : Type} (x : A * list Out) (k : A -> M B) c :
  returned ((y <- printing x ;; k y) c) = returned (k (fst x) c) /\
  after ((y <- printing x ;; k y) c) = after (k (fst x) c).
Proof. now split. Qed.

Lemma after_print {B : Type} (o : Out) (m : M B) c :
  returned ((print o ;; m) c) = returned (m c) /\
  after ((print o ;; m) c) = after (m c).
Proof. now split. Qed.

(** What [migrate_database] does once the current version is known. *)
Lemma migrate_tail_closes db_name db_label target_version v c :
  let tail :=
    migrations <- printing (discover_migrations env None) ;;
    match last (pending_migrations v target_version migrations) with
    | None => print (UpToDate db_label v) ;; close env ;; ret true
    | Some newest =>
        print (MigrateHeader db_label v (version newest)) ;;
        migrate_loop env self db_name (pending_migrations v target_version migrations)
    end in
  exists b, returned (tail c) = Ok b /\ closed_once c (after (tail c)).
Proof.
  cbv zeta.
  match goal with |- context [bind (printing ?x) ?k] =>
    destruct (after_printing x k c) as [-> ->] end.
  destruct (last _) as [newest|].
  - match goal with |- context [bind (print ?o) (fun _ => ?m)] =>
      destruct (after_print o m c) as [-> ->] end.
    apply migrate_loop_closes.
  - match goal with |- context [bind (print ?o) (fun _ => ?m)] =>
      destruct (after_print o m c) as [-> ->] end.
    exists true. apply close_ret_closes.
Qed.

Lemma rollback_from_closes db_label steps target_version v c :
  exists b, returned (rollback_from env self db_label steps target_version v c) = Ok b /\
            closed_once c (after (rollback_from env self db_label steps target_version v c)).
Proof.
  unfold rollback_from. destruct (v =? 0)%Z.
  { match goal with |- context [bind (print ?o) (fun _ => ?m)] =>
      destruct (after_print o m c) as [-> ->] end.
    exists true. apply close_ret_closes. }
  destruct (_ >=? v)%Z.
  { match goal with |- context [bind (print ?o) (fun _ => ?m)] =>
      destruct (after_print o m c) as [-> ->] end.
    exists true. apply close_ret_closes. }
  match goal with |- context [bind (printing ?x) ?k] =>
    destruct (after_printing x k c) as [-> ->] end.
  match goal with |- context [bind (print ?o) (fun _ => ?m)] =>
    destruct (after_print o m c) as [-> ->] end.
  apply rollback_loop_closes.
Qed.

(** X9. [migrate_database] and [rollback_database] close their
    connection exactly once, as the last call on it, whenever the body
    returns, be it after a failed migration; the one way the body
    raises is that the creation of the tracking table raises, and then
    the connection is left open. *)
Theorem connection_closed_exactly_once db_name db_label steps target_version (c : Conn) :
  closes_or_fails_early env
    (migrate_database_body env self db_name db_label target_version) c /\
  closes_or_fails_early env
    (rollback_database_body env self db_name db_label steps target_version) c.
Proof.
  split.
  - apply (body_closes
             (fun v => migrations <- printing (discover_migrations env None) ;;
                match last (pending_migrations v target_version migrations) with
                | None => print (UpToDate db_label v) ;; close env ;; ret true
                | Some newest =>
                    print (MigrateHeader db_label v (version newest)) ;;
                    migrate_loop env self db_name
                      (pending_migrations v target_version migrations)
                end)).
    intros v c'. apply migrate_tail_closes.
  - apply (body_closes (rollback_from env self db_label steps target_version)).
    intros v c'. apply rollback_from_closes.
Qed.

End ClosingBodies.

(** * The primary key of the tracking table *)

Section PrimaryKey.
Context (env : Env).

(** X10. [apply_migration] records no version twice in a direction: on
    a connection that sees a row for the migration's version and this
    direction it never returns. It raises, after a [rollback] as its
    last call, whatever the driver does otherwise; the database is as
    committed before unless the body ended its transaction; and the
    error is the migration failure, with the transaction undone, unless
    the [rollback] raised. *)
Theorem apply_migration_rejects_recorded_version migration direction c rows :
  table (working c) = Some rows ->
  records rows (version migration) direction ->
  sql_of migration direction <> "" ->
  let r := apply_migration env migration direction c in
  exists e,
    returned r = Raise e /\
    last (calls (after r)) = Some Rollback /\
    (ends_transaction env (sql_of migration direction) = false ->
     committed (after r) = committed c) /\
    ((exists cause, e = MigrationFailed cause) /\ working (after r) = committed (after r)
     \/ e = DriverError Rollback /\ exists c', fails env Rollback c' = true).
Proof.
  intros Ht Hrec Hsql. cbv zeta.
  destruct (apply_migration_outcome env migration direction c)
    as [(E & _) | [(_ & e & more & kept & w & -> & Hkept & He)
                  | (_ & rows0 & Ht0 & Hk & _)]].
  - contradiction.
  - exists e. cbn. split; [reflexivity|]. split; [|split].
    + change (Execute (Body (sql_of migration direction)) :: more ++ [Rollback])
        with ((Execute (Body (sql_of migration direction)) :: more) ++ [Rollback]).
      rewrite app_assoc. apply last_snoc.
    + intros Hp. destruct Hkept as [->|[Hq _]]; [reflexivity | congruence].
    + exact He.
  - exfalso. cbv zeta in Ht0, Hk. rewrite Ht in Ht0. injection Ht0 as <-.
    apply key_taken_false in Hk. apply Hk. exact Hrec.
Qed.

End PrimaryKey.

Lemma apply_migration_rejects_recorded_version_witness :
  let env := environment no_error two_files in
  let c := {| database := "saas_host";
              committed := {| executed := []; table := Some [] |};
              working :=
                {| executed := [];
                   table := Some [tracking_row env (example_init init_sql) "up" 7] |};
              calls := [] |} in
  let r := apply_migration env (example_init init_sql) "up" c in
  exists e,
    returned r = Raise e /\
    last (calls (after r)) = Some Rollback /\
    (ends_transaction env (sql_of (example_init init_sql) "up") = false ->
     committed (after r) = committed c) /\
    ((exists cause, e = MigrationFailed cause) /\ working (after r) = committed (after r)
     \/ e = DriverError Rollback /\ exists c', fails env Rollback c' = true).
Proof.
  cbv zeta.
  eapply (apply_migration_rejects_recorded_version (environment no_error two_files)).
  - reflexivity.
  - eexists. split; [apply elem_of_cons; left; reflexivity|]. split; reflexivity.
  - discriminate.
Defined.

Section RollbackTwice.
Context (env : Env) (self : MigrationRunner).
Hypothesis env_quiet : quiet env.
Hypothesis bodies : plain_bodies env.
Hypothesis live : dry_run self = false.

(** A connection that sees a row for the version and the direction
    makes [apply_migration] raise. *)
Lemma apply_recorded_raises migration direction c rows :
  table (working c) = Some rows ->
  records rows (version migration) direction ->
  exists e, returned (apply_migration env migration direction c) = Raise e.
Proof.
  intros Ht Hrec.
  destruct (apply_migration_outcome env migration direction c)
    as [(_ & ->) | [(_ & e & more & kept & w & -> & _) | (_ & rows0 & Ht0 & Hk & _)]];
    [eauto ..|].
  exfalso. cbv zeta in Ht0, Hk. rewrite Ht in Ht0. injection Ht0 as <-.
  apply key_taken_false in Hk. now apply Hk.
Qed.

(** The backward loop on a connection that sees a ['down'] row for its
    first migration. *)
Lemma rollback_loop_recorded migration rest c rows :
  working c = committed c ->
  table (working c) = Some rows ->
  records rows (version migration) "down" ->
  exists e,
    returned (rollback_loop env self (migration :: rest) c) = Ok false /\
    committed (after (rollback_loop env self (migration :: rest) c)) = committed c /\
    printed (rollback_loop env self (migration :: rest) c)
    = [Failed (version migration) (name migration) e].
Proof using live bodies.
  intros Hw Ht Hrec. rewrite rollback_loop_step by exact live. cbv zeta.
  destruct (apply_recorded_raises migration "down" c rows Ht Hrec) as [e He].
  pose proof (apply_migration_raise env migration "down" c e (bodies _) He) as Hc.
  rewrite He. exists e. cbn. auto.
Qed.

Lemma printing_print_run {A : Type} (x : A * list Out) (o : Out) (m : M bool) c :
  (printing x ;; print o ;; m) c
  = {| returned := returned (m c); after := after (m c);
       printed := snd x ++ o :: printed (m c) |}.
Proof. reflexivity. Qed.

(** What a successful rollback leaves in the table. *)
Lemma rollback_rows db_name db_label steps target_version (s0 : Store) :
  let c0 := {| database := resolved env db_name; committed := s0; working := s0;
               calls := [] |} in
  let r := rollback_database_body env self db_name db_label steps target_version c0 in
  let rows0 := default [] (table s0) in
  let current := default 0%Z (max_list (up_versions rows0)) in
  let target :=
    match target_version with
    | None => Z.max 0 (current - steps)
    | Some v => v
    end in
  let selection :=
    rev (filter (fun m => (target < version m)%Z /\ (version m <= current)%Z)
                (fst (discover_migrations env None))) in
  current <> 0%Z -> (target < current)%Z ->
  returned r = Ok true ->
  exists rows',
    table (committed (after r)) = Some (rows0 ++ rows') /\
    map row_version rows' = map version selection /\
    Forall (fun r => row_direction r = "down") rows'.
Proof using env_quiet live.
  cbv zeta. intros Hcur Hlt Hok.
  set (c0 := {| database := resolved env db_name; committed := s0; working := s0;
                calls := [] |}) in *.
  pose proof (rollback_database_body_quiet_unfold env self db_name db_label steps
                target_version c0 env_quiet eq_refl) as Hbody.
  cbv zeta in Hbody. cbn [committed c0] in Hbody.
  set (rows0 := default [] (table s0)) in *.
  set (current := default 0%Z (max_list (up_versions rows0))) in *.
  set (c2 := {| database := database c0 |}) in *.
  pose proof (rollback_from_below env self db_label steps target_version
                current c2 Hcur Hlt) as Hrun.
  cbv zeta in Hrun. rewrite Hbody, Hrun in Hok |- *.
  set (selection := rev _) in *.
  destruct (rollback_loop_quiet env self env_quiet selection c2 rows0 live eq_refl eq_refl)
    as (_ & Hadv & _).
  assert (Hret : returned (rollback_loop env self selection c2) = Ok true).
  { revert Hok. unfold bind, printing, print. norm. auto. }
  destruct (Hadv Hret) as (_ & _ & _ & rows' & Ht & Hv & Hd).
  exists rows'. split; [|now split].
  unfold bind, printing, print. norm. exact Ht.
Qed.

(** X11. A rollback cannot be repeated. A rollback leaves the current
    version as it was, so the same call selects the same migrations
    again; when the first call rolled back at least one migration and
    returned [True], the second, the driver raising nothing of its own
    and no body ending its transaction, fails on the first of them, whose ['down'] row is in the table
    already: it returns [False], prints the failure and leaves every
    database as the first call left it. *)
Theorem rollback_cannot_be_repeated db_name db_label steps target_version
    (w : World) (s : Store) :
  databases w !! resolved env db_name = Some s ->
  let rows := default [] (table s) in
  let current := default 0%Z (max_list (up_versions rows)) in
  let target :=
    match target_version with
    | None => Z.max 0 (current - steps)
    | Some v => v
    end in
  let selection :=
    rev (filter (fun m => (target < version m)%Z /\ (version m <= current)%Z)
                (fst (discover_migrations env None))) in
  current <> 0%Z -> (target < current)%Z ->
  let first := rollback_database env self db_name db_label steps target_version w in
  let second :=
    rollback_database env self db_name db_label steps target_version (snd first) in
  fst first = true ->
  forall migration rest, selection = migration :: rest ->
  fst second = false /\
  databases (snd second) = databases (snd first) /\
  exists e,
    console (snd second)
    = console (snd first)
      ++ snd (discover_migrations env None)
      ++ [RollbackHeader db_label current target;
          Failed (version migration) (name migration) e].
Proof using env_quiet bodies live.
  intros Hl. cbv zeta. intros Hcur Hlt Hfirst m rest Hsel.
  unfold rollback_database in *.
  destruct (in_connection_true _ _ _ _ _ Hfirst) as (Hr & s0 & Hl0 & Hb0).
  rewrite Hl in Hl0. injection Hl0 as <-.
  rewrite (in_connection_open env db_name db_label _ w s Hr Hl true Hb0) in *.
  cbn [fst snd] in *.
  destruct (rollback_rows db_name db_label steps target_version s Hcur Hlt Hb0)
    as (rows' & Ht1 & Hv & Hd).
  set (c0 := {| database := resolved env db_name; committed := s |}) in *.
  set (s1 := committed (after (rollback_database_body env self db_name db_label steps
                                 target_version c0))) in *.
  set (rows0 := default [] (table s)) in *.
  set (current := default 0%Z (max_list (up_versions rows0))) in *.
  set (w1 := {| databases := _; console := _ |}).
  assert (Hl1 : databases w1 !! resolved env db_name = Some s1)
    by apply lookup_insert_eq.
  set (c1 := {| database := resolved env db_name; committed := s1; working := s1;
                calls := [] |}).
  assert (Hrows1 : default [] (table (committed c1)) = rows0 ++ rows').
  { cbn [committed c1]. now rewrite Ht1. }
  assert (Hs1 : {| executed := executed (committed c1);
                   table := Some (default [] (table (committed c1))) |} = s1).
  { rewrite Hrows1. cbn [committed c1]. rewrite <- Ht1. now destruct s1. }
  assert (Hcur1 : default 0%Z (max_list (up_versions (default [] (table (committed c1)))))
                  = current).
  { rewrite Hrows1, up_versions_app, (up_versions_all_down rows' Hd), app_nil_r.
    reflexivity. }
  pose proof (rollback_database_body_quiet_unfold env self db_name db_label steps
                target_version c1 env_quiet eq_refl) as Hbody.
  cbv zeta in Hbody. rewrite Hs1, Hcur1 in Hbody.
  set (c2 := {| database := database c1; committed := s1 |}) in *.
  pose proof (rollback_from_below env self db_label steps target_version
                current c2 Hcur Hlt) as Hrun.
  cbv zeta in Hrun. rewrite Hrun, Hsel, printing_print_run in Hbody.
  assert (Hrec : records (rows0 ++ rows') (version m) "down").
  { rewrite Hsel in Hv. destruct rows' as [|r rows']; [discriminate|].
    cbn in Hv. injection Hv as Hv _. apply Forall_cons in Hd as [Hd _].
    exists r. split; [|now split]. apply elem_of_app. right. left. }
  destruct (rollback_loop_recorded m rest c2 (rows0 ++ rows') eq_refl Ht1 Hrec)
    as (e & Hret & Hcom & Hpr).
  assert (Hret2 : returned (rollback_database_body env self db_name db_label steps
                              target_version c1) = Ok false).
  { rewrite Hbody. exact Hret. }
  rewrite (in_connection_open env db_name db_label _ w1 s1 Hr Hl1 false Hret2).
  cbn [fst snd databases console]. fold c1.
  split; [reflexivity|]. split.
  - rewrite Hbody. cbn [after]. rewrite Hcom. cbn.
    subst w1. cbn. apply insert_insert_eq.
  - exists e. rewrite Hbody. cbn [printed]. rewrite Hpr. reflexivity.
Qed.

End RollbackTwice.

Lemma rollback_cannot_be_repeated_witness :
  let env := environment no_error three_files in
  let first := rollback_database env runner "saas_host" "HOST" 1 None migrated_world in
  let second := rollback_database env runner "saas_host" "HOST" 1 None (snd first) in
  fst second = false /\
  databases (snd second) = databases (snd first) /\
  exists e,
    console (snd second)
    = console (snd first)
      ++ snd (discover_migrations env None)
      ++ [RollbackHeader "HOST" 3 2; Failed 3 "audit" e].
Proof.
  cbv zeta.
  refine (rollback_cannot_be_repeated (environment no_error three_files) runner
            (no_error_quiet three_files) (fun _ => eq_refl) eq_refl "saas_host" "HOST" 1%Z None
            migrated_world migrated_host _ _ _ _ example_audit [] _).
  - vm_compute. reflexivity.
  - vm_compute. discriminate.
  - vm_compute. reflexivity.
  - vm_compute. reflexivity.
  - vm_compute. reflexivity.
Defined.
